(** * enlaceibabackend: credential subsystem and resource services

    A shallow embedding of [src/services/auth.service.js],
    [src/services/event.service.js] and [src/services/blog.service.js].

    JavaScript values are a small tagged union, request bodies and table
    rows of the resource services are finite maps from field names to
    values, and every [async] service method is a computation in a state
    and exception monad over a [World] that holds the relational tables,
    the clock and a script of what the environment does at each awaited
    call (how much time passes, whether the call rejects). *)

From Stdlib Require Import ZArith List String Ascii Bool Lia.
From Stdlib Require Import Decimal DecimalString DecimalPos DecimalZ.
From stdpp Require Import base option list gmap strings fin_maps.

Local Open Scope string_scope.
Local Open Scope Z_scope.

(** ** JavaScript values *)

Module Js.

(** The primitive values the services handle.  [JNum n] is an
    integer-valued number (row ids, user ids); JavaScript numbers are
    doubles, in which the integers of magnitude up to
    [max_safe_integer] are exact and print with all their digits.
    [JNaN] is what [parseInt] yields when no digit can be read.  A text
    is held as its UTF-8 bytes. *)
Inductive JsVal : Type :=
| JUndefined
| JNull
| JBool (b : bool)
| JNum (n : Z)
| JNaN
| JStr (s : string).

#[global] Instance JsVal_eq_dec : EqDecision JsVal.
Proof. solve_decision. Defined.

(** [ToBoolean]: what [!x], [x || y] and [if (x)] look at. *)
Definition truthy (v : JsVal) : bool :=
  match v with
  | JUndefined | JNull | JNaN => false
  | JBool b => b
  | JNum n => negb (n =? 0)
  | JStr s => negb (String.eqb s "")
  end.

(** [a === b] on primitives: same tag, same payload, and NaN is not
    equal to itself. *)
Definition strict_eq (a b : JsVal) : bool :=
  match a, b with
  | JUndefined, JUndefined => true
  | JNull, JNull => true
  | JBool x, JBool y => Bool.eqb x y
  | JNum x, JNum y => x =? y
  | JStr x, JStr y => String.eqb x y
  | _, _ => false
  end.

Definition strict_neq (a b : JsVal) : bool := negb (strict_eq a b).

(** [a || b] *)
Definition js_or (a b : JsVal) : JsVal := if truthy a then a else b.

(** An object literal or a row: field name to value.  Reading an absent
    field gives [undefined]. *)
Definition get (o : gmap string JsVal) (k : string) : JsVal :=
  default JUndefined (o !! k).

(** The decimal numeral of an integer: ["7"], ["-12"], ["0"]. *)
Definition decimal (n : Z) : string := NilZero.string_of_int (Z.to_int n).

(** [Number.MAX_SAFE_INTEGER] *)
Definition max_safe_integer : Z := 2 ^ 53 - 1.

(** The integers every one of which is a double of its own and which
    [Number::toString] prints digit by digit.  Beyond them a double
    stands for several integers, prints the shortest numeral that reads
    back to it (zeros after the seventeenth digit), and from [1e21] on
    prints in exponent form. *)
Definition safe_integer (n : Z) : bool := Z.abs n <=? max_safe_integer.

(** [ToString] on primitives; on a number, for the safe integers. *)
Definition to_string (v : JsVal) : string :=
  match v with
  | JUndefined => "undefined"
  | JNull => "null"
  | JBool true => "true"
  | JBool false => "false"
  | JNum n => decimal n
  | JNaN => "NaN"
  | JStr s => s
  end.

(** *** parseInt *)

(** The blanks [parseInt] skips (white space and line terminators),
    by the length of their UTF-8 encoding.  One byte: TAB, LF, VT, FF,
    CR and the space. *)
Definition is_space (c : ascii) : bool :=
  let n := nat_of_ascii c in
  ((9 <=? n) && (n <=? 13) || (n =? 32))%nat.

(** Two bytes: U+00A0, the no-break space. *)
Definition is_space2 (a b : ascii) : bool :=
  ((nat_of_ascii a =? 194) && (nat_of_ascii b =? 160))%nat.

(** Three bytes: U+1680; U+2000 to U+200A, U+2028, U+2029 and U+202F;
    U+205F; U+3000; U+FEFF. *)
Definition is_space3 (a b c : ascii) : bool :=
  let '(x, y, z) := (nat_of_ascii a, nat_of_ascii b, nat_of_ascii c) in
  ((x =? 225) && (y =? 154) && (z =? 128)
   || (x =? 226) && (y =? 128)
      && ((128 <=? z) && (z <=? 138) || (z =? 168) || (z =? 169) || (z =? 175))
   || (x =? 226) && (y =? 129) && (z =? 159)
   || (x =? 227) && (y =? 128) && (z =? 128)
   || (x =? 239) && (y =? 187) && (z =? 191))%nat.

(** The bytes a blank of more than one byte can start with. *)
Definition is_space_lead (a : ascii) : bool :=
  let x := nat_of_ascii a in
  ((x =? 194) || (x =? 225) || (x =? 226) || (x =? 227) || (x =? 239))%nat.

Fixpoint trim_start (s : string) : string :=
  match s with
  | String a s1 =>
      if is_space a then trim_start s1
      else if is_space_lead a then
        match s1 with
        | String b s2 =>
            if is_space2 a b then trim_start s2
            else match s2 with
                 | String c s3 => if is_space3 a b c then trim_start s3 else s
                 | EmptyString => s
                 end
        | EmptyString => s
        end
      else s
  | EmptyString => s
  end.

(** Value of [c] as a digit in radix [r] (10 or 16). *)
Definition digit_of (r : Z) (c : ascii) : option Z :=
  let n := Z.of_nat (nat_of_ascii c) in
  let d :=
    if (48 <=? n) && (n <=? 57) then Some (n - 48)
    else if (97 <=? n) && (n <=? 122) then Some (n - 87)
    else if (65 <=? n) && (n <=? 90) then Some (n - 55)
    else None in
  match d with
  | Some v => if v <? r then Some v else None
  | None => None
  end.

(** Reads the longest prefix of radix-[r] digits; [acc] is the value read
    so far, [None] while no digit has been seen.  The value is the
    integer the digits denote, which is the number [parseInt] returns
    when it is a safe integer; a larger one [parseInt] rounds to a
    double. *)
Fixpoint parse_digits (r : Z) (s : string) (acc : option Z) : option Z :=
  match s with
  | String c s' =>
      match digit_of r c with
      | Some d => parse_digits r s' (Some (r * default 0 acc + d))
      | None => acc
      end
  | EmptyString => acc
  end.

Definition strip_sign (s : string) : Z * string :=
  match s with
  | String "-" s' => (-1, s')
  | String "+" s' => (1, s')
  | _ => (1, s)
  end.

Definition strip_radix (s : string) : Z * string :=
  match s with
  | String "0" (String "x" s') => (16, s')
  | String "0" (String "X" s') => (16, s')
  | _ => (10, s)
  end.

Definition parseInt_string (s : string) : JsVal :=
  let '(sign, s1) := strip_sign (trim_start s) in
  let '(r, s2) := strip_radix s1 in
  match parse_digits r s2 None with
  | Some n => JNum (sign * n)
  | None => JNaN
  end.

(** [parseInt(v)] with no radix argument: the argument is first
    converted to a string. *)
Definition parseInt (v : JsVal) : JsVal := parseInt_string (to_string v).

(** The values on which [parseInt] above is the [parseInt] of
    JavaScript: a number that is a safe integer, a text in which the
    digits read denote one, and everything in which no digit is read. *)
Definition parses_exactly (v : JsVal) : bool :=
  match v with
  | JNum n => safe_integer n
  | _ => match parseInt v with
         | JNum n => safe_integer n
         | _ => true
         end
  end.

End Js.
Export Js.

(** ** Error taxonomy *)

Module Errors.

(** Modelled from the spec: the classes of [src/utils/errors/index.js],
    which the services import and construct but which is not among the
    source files.  Five sibling classes; the constructor keeps the
    message and, for [ValidationError], the list of field names passed
    as second argument. *)
Inductive ErrorKind : Type :=
| ValidationError
| NotFoundError
| AuthenticationError
| AuthorizationError
| DatabaseError.

#[global] Instance ErrorKind_eq_dec : EqDecision ErrorKind.
Proof. solve_decision. Defined.

Record DomainError : Type := mkError {
  kind : ErrorKind;
  message : string;
  fields : list string
}.

(** Whatever can be thrown: a classified error, or any other exception
    (a driver error, a [TypeError], a [JsonWebTokenError], ...). *)
Inductive Exn : Type :=
| Domain (e : DomainError)
| Unclassified (msg : string).

(** [new K(msg)] and [new K(msg, fields)] *)
Definition new_error (k : ErrorKind) (msg : string) : Exn :=
  Domain (mkError k msg []).
Definition new_error_with (k : ErrorKind) (msg : string) (fs : list string) : Exn :=
  Domain (mkError k msg fs).

(** [error instanceof K] *)
Definition instanceof (e : Exn) (k : ErrorKind) : bool :=
  match e with
  | Domain d => bool_decide (kind d = k)
  | Unclassified _ => false
  end.

(** [error.message] *)
Definition exn_message (e : Exn) : string :=
  match e with
  | Domain d => message d
  | Unclassified m => m
  end.

Definition is_domain (e : Exn) : bool :=
  match e with Domain _ => true | Unclassified _ => false end.

End Errors.
Export Errors.

(** ** The world the services run in *)

Module Store.

(** A row of [users]. *)
Record UserRow : Type := mkUser {
  u_id : Z;
  u_first_name : string;
  u_last_name : string;
  u_email : string;
  u_phone : option string;
  u_status : string;
  u_role : string;
  u_profile_image : option string;
  u_refresh_token : option string;
  u_last_login : option Z;
  u_created_at : Z;
  u_updated_at : Z
}.

(** A row of [auth_credentials]. *)
Record CredRow : Type := mkCred {
  c_id : Z;
  c_user_id : Z;
  c_password : string;
  c_reset_token : option string;
  c_reset_token_expires : option Z
}.

(** The two transactional tables of the credential subsystem. *)
Record Db : Type := mkDb {
  users : list UserRow;
  auth_credentials : list CredRow
}.

(** What the environment does at one awaited call: how many
    milliseconds pass, and whether the call rejects (with which
    message). *)
Record Step : Type := mkStep {
  elapsed : N;
  rejects : option string
}.

(** Calls that reach the [Event] and [Blog] persistence models. *)
Inductive ModelCall : Type :=
| EventCreate (data : gmap string JsVal)
| EventUpdate (id : JsVal) (patch : gmap string JsVal)
| EventDelete (id : JsVal)
| EventUpdateFeaturedStatus (id v : JsVal)
| EventUpdateHomeStatus (id v : JsVal)
| EventUpdateStatus (id v : JsVal)
| BlogCreate (data : gmap string JsVal)
| BlogUpdate (id : JsVal) (patch : gmap string JsVal)
| BlogUpdateActiveStatus (id v : JsVal)
| BlogDelete (id : JsVal)
| BlogUpdateFeaturedStatus (id v : JsVal).

Record World : Type := mkWorld {
  db : Db;                               (* committed rows *)
  tx : option Db;                        (* rows as the open transaction sees them *)
  events : gmap Z (gmap string JsVal);
  blogs : gmap Z (gmap string JsVal);
  next_id : Z;                           (* auto-increment counter *)
  now : Z;                               (* clock, milliseconds *)
  script : list Step;                    (* the environment at the awaited calls to come *)
  entropy : list N;                      (* random source *)
  pool_out : nat;                        (* connections taken and not yet released *)
  calls : list ModelCall                 (* model calls made, latest first *)
}.

Definition set_db (d : Db) (w : World) : World :=
  mkWorld d (tx w) (events w) (blogs w) (next_id w) (now w) (script w)
          (entropy w) (pool_out w) (calls w).
Definition set_tx (t : option Db) (w : World) : World :=
  mkWorld (db w) t (events w) (blogs w) (next_id w) (now w) (script w)
          (entropy w) (pool_out w) (calls w).
Definition set_events (e : gmap Z (gmap string JsVal)) (w : World) : World :=
  mkWorld (db w) (tx w) e (blogs w) (next_id w) (now w) (script w)
          (entropy w) (pool_out w) (calls w).
Definition set_blogs (b : gmap Z (gmap string JsVal)) (w : World) : World :=
  mkWorld (db w) (tx w) (events w) b (next_id w) (now w) (script w)
          (entropy w) (pool_out w) (calls w).
Definition set_next_id (n : Z) (w : World) : World :=
  mkWorld (db w) (tx w) (events w) (blogs w) n (now w) (script w)
          (entropy w) (pool_out w) (calls w).
Definition set_clock (t : Z) (s : list Step) (w : World) : World :=
  mkWorld (db w) (tx w) (events w) (blogs w) (next_id w) t s
          (entropy w) (pool_out w) (calls w).
Definition set_entropy (r : list N) (w : World) : World :=
  mkWorld (db w) (tx w) (events w) (blogs w) (next_id w) (now w) (script w)
          r (pool_out w) (calls w).
Definition set_pool_out (n : nat) (w : World) : World :=
  mkWorld (db w) (tx w) (events w) (blogs w) (next_id w) (now w) (script w)
          (entropy w) n (calls w).
Definition record_call (c : ModelCall) (w : World) : World :=
  mkWorld (db w) (tx w) (events w) (blogs w) (next_id w) (now w) (script w)
          (entropy w) (pool_out w) (c :: calls w).

End Store.
Export Store.

(** ** Computations: state and exceptions *)

Module Eff.

Inductive Result (A : Type) : Type :=
| Ok (a : A)
| Throw (e : Exn).
Arguments Ok {A} a.
Arguments Throw {A} e.

(** An [async] function body: from the world before to the outcome and
    the world after. *)
Definition M (A : Type) : Type := World -> Result A * World.

Definition ret {A} (a : A) : M A := fun w => (Ok a, w).

Definition bind {A B} (m : M A) (k : A -> M B) : M B :=
  fun w => match m w with
           | (Ok a, w') => k a w'
           | (Throw e, w') => (Throw e, w')
           end.

Definition throw {A} (e : Exn) : M A := fun w => (Throw e, w).

(** [try { m } catch (error) { h error }] *)
Definition try_catch {A} (m : M A) (h : Exn -> M A) : M A :=
  fun w => match m w with
           | (Ok a, w') => (Ok a, w')
           | (Throw e, w') => h e w'
           end.

(** [try { m } finally { f }]: [f] runs on every exit path; if it
    throws, its exception replaces the outcome of [m]. *)
Definition finally {A} (m : M A) (f : M unit) : M A :=
  fun w => match m w with
           | (r, w') => match f w' with
                        | (Ok _, w'') => (r, w'')
                        | (Throw e, w'') => (Throw e, w'')
                        end
           end.

Definition gets {A} (f : World -> A) : M A := fun w => (Ok (f w), w).
Definition modify (f : World -> World) : M unit := fun w => (Ok tt, f w).

Declare Scope eff_scope.
Delimit Scope eff_scope with eff.
Notation "x <- m ;; k" := (bind m (fun x => k))
  (at level 100, m at next level, right associativity) : eff_scope.
Notation "m ;;; k" := (bind m (fun _ => k))
  (at level 100, right associativity) : eff_scope.

(** The world after one more awaited call: the clock has advanced by
    what the script says and the script has moved on. *)
Definition tick (w : World) : World :=
  set_clock (now w + Z.of_N (match script w with
                             | s :: _ => elapsed s
                             | [] => 0%N
                             end))
            (tail (script w)) w.

(** One awaited call to the outside (a query, a pool operation, a
    bcrypt computation): the clock advances and the call may reject.
    When the script is exhausted nothing rejects any more. *)
Definition await_env : M unit :=
  fun w => (match script w with
            | s :: _ => match rejects s with
                        | Some msg => Throw (Unclassified msg)
                        | None => Ok tt
                        end
            | [] => Ok tt
            end, tick w).

(** No awaited call to come rejects. *)
Definition calm (w : World) : bool :=
  forallb (fun s => match rejects s with None => true | Some _ => false end)
          (script w).

(** Next value of the random source. *)
Definition draw : M N :=
  fun w => (Ok (hd 0%N (entropy w)), set_entropy (tail (entropy w)) w).

End Eff.
Export Eff.

(** ** What the services take from outside the repository *)

(** The relational store's comparisons, bcryptjs, jsonwebtoken, the
    random generator and the process environment.  Nothing is assumed
    of them beyond their types, except that a text column compares
    equal to the very text it holds. *)
Class Platform : Type := {
  (** how the store reads a bound parameter compared with an integer
      key column ([WHERE id = ?]): the key it denotes, if any *)
  sql_key : JsVal -> option Z;
  (** text comparison under the column's collation ([WHERE email = ?]) *)
  sql_text_eq : string -> string -> bool;
  sql_text_eq_refl : forall s, sql_text_eq s s = true;
  (** [bcrypt.hash(password, 10)] with the salt it drew *)
  bcrypt_hash : string -> N -> string;
  (** [bcrypt.compare(password, hash)] *)
  bcrypt_compare : string -> string -> bool;
  (** [jwt.sign(payload, secret, {expiresIn})] at a given time *)
  jwt_sign : gmap string JsVal -> string -> string -> Z -> string;
  (** [jwt.verify(token, secret)] at a given time; [None] when it throws *)
  jwt_verify : string -> string -> Z -> option (gmap string JsVal);
  (** [crypto.randomBytes(32).toString('hex')] from the bytes drawn *)
  hex_of_random : N -> string;
  (** [d = new Date(); d.setHours(d.getHours() + 1)] taken when the
      store's clock shows [t], as the store then holds [d] in a
      DATETIME column and compares it with its own [NOW()]: the next
      hour on the application's local wall clock, which a clock change
      makes shorter or longer than sixty minutes, seen through the
      driver's conversion and the skew between the two clocks *)
  hour_later : Z -> Z;
  (** [process.env] *)
  env : gmap string string;
  (** the [role] a row of [users] gets when the INSERT names none *)
  default_role : string
}.

Module Persistence.
Section Persistence.
Context `{P : Platform}.
Local Open Scope eff_scope.

(** [mysqlPool.query(...)]: one awaited call, then the statement runs on
    the committed rows; the statement is given the store's [NOW()]. *)
Definition pool_query {A} (q : Z -> Db -> A * Db) : M A :=
  await_env ;;;
  (fun w => let '(a, d) := q (now w) (db w) in (Ok a, set_db d w)).

(** [connection.query(...)]: the statement runs inside the open
    transaction if there is one, else on the committed rows. *)
Definition conn_query {A} (q : Z -> Db -> A * Db) : M A :=
  await_env ;;;
  (fun w => match tx w with
            | Some t => let '(a, d) := q (now w) t in (Ok a, set_tx (Some d) w)
            | None => let '(a, d) := q (now w) (db w) in (Ok a, set_db d w)
            end).

(** The key an INSERT assigns ([insertId]). *)
Definition fresh_id : M Z :=
  fun w => (Ok (next_id w), set_next_id (next_id w + 1) w).

Definition getConnection : M unit :=
  await_env ;;; modify (fun w => set_pool_out (S (pool_out w)) w).

Definition release : M unit :=
  modify (fun w => set_pool_out (Nat.pred (pool_out w)) w).

Definition beginTransaction : M unit :=
  await_env ;;; modify (fun w => set_tx (Some (db w)) w).

Definition commit : M unit :=
  await_env ;;;
  modify (fun w => match tx w with
                   | Some t => set_tx None (set_db t w)
                   | None => w
                   end).

Definition rollback : M unit :=
  await_env ;;; modify (set_tx None).

(** A SELECT: reads, changes nothing. *)
Definition select {A} (f : Db -> A) : Z -> Db -> A * Db := fun _ d => (f d, d).
(** An UPDATE or INSERT with no result the caller looks at; [exec_at]
    when the statement mentions [NOW()]. *)
Definition exec (f : Db -> Db) : Z -> Db -> unit * Db := fun _ d => (tt, f d).
Definition exec_at (f : Z -> Db -> Db) : Z -> Db -> unit * Db := fun t d => (tt, f t d).

(** [... FROM users WHERE email = ?] *)
Definition users_by_email (email : string) (d : Db) : list UserRow :=
  List.filter (fun u => sql_text_eq email (u_email u)) (users d).

(** [... FROM users WHERE id = ?] with a bound parameter *)
Definition users_by_id (userId : JsVal) (d : Db) : list UserRow :=
  List.filter (fun u => bool_decide (sql_key userId = Some (u_id u))) (users d).

(** [... FROM users WHERE id = ?] with a key read from a row *)
Definition users_by_key (k : Z) (d : Db) : list UserRow :=
  List.filter (fun u => u_id u =? k) (users d).

(** [SELECT * FROM users WHERE id = ? AND refresh_token = ?] *)
Definition users_by_id_and_refresh (userId : JsVal) (token : string) (d : Db)
  : list UserRow :=
  List.filter (fun u => bool_decide (sql_key userId = Some (u_id u)) &&
                        match u_refresh_token u with
                        | Some t => sql_text_eq token t
                        | None => false
                        end) (users d).

(** [SELECT * FROM auth_credentials WHERE user_id = ?] *)
Definition creds_by_user_key (k : Z) (d : Db) : list CredRow :=
  List.filter (fun c => c_user_id c =? k) (auth_credentials d).
Definition creds_by_user_id (userId : JsVal) (d : Db) : list CredRow :=
  List.filter (fun c => bool_decide (sql_key userId = Some (c_user_id c)))
              (auth_credentials d).

(** [... FROM auth_credentials WHERE reset_token = ?] *)
Definition creds_by_reset_token (token : string) (d : Db) : list CredRow :=
  List.filter (fun c => match c_reset_token c with
                        | Some t => sql_text_eq token t
                        | None => false
                        end) (auth_credentials d).

Definition map_users (f : UserRow -> UserRow) (d : Db) : Db :=
  mkDb (map f (users d)) (auth_credentials d).
Definition map_creds (f : CredRow -> CredRow) (d : Db) : Db :=
  mkDb (users d) (map f (auth_credentials d)).

(** [INSERT INTO users (first_name, last_name, email, phone, status,
    created_at, updated_at) VALUES (?, ?, ?, ?, ?, NOW(), NOW())] *)
Definition insert_user (k : Z) (first last email : string) (phone : option string)
    (status : string) (t : Z) (d : Db) : Db :=
  mkDb (users d ++ [mkUser k first last email phone status default_role
                           None None None t t])
       (auth_credentials d).

(** [INSERT INTO auth_credentials (user_id, password) VALUES (?, ?)] *)
Definition insert_cred (k userId : Z) (hash : string) (d : Db) : Db :=
  mkDb (users d) (auth_credentials d ++ [mkCred k userId hash None None]).

(** [UPDATE users SET refresh_token = ?, last_login = NOW() WHERE id = ?] *)
Definition set_refresh_token (k : Z) (token : option string) (t : Z) : Db -> Db :=
  map_users (fun u =>
    if u_id u =? k then
      mkUser (u_id u) (u_first_name u) (u_last_name u) (u_email u) (u_phone u)
             (u_status u) (u_role u) (u_profile_image u) token (Some t)
             (u_created_at u) (u_updated_at u)
    else u).

(** [UPDATE users SET refresh_token = NULL WHERE id = ?] *)
Definition clear_refresh_token (userId : JsVal) : Db -> Db :=
  map_users (fun u =>
    if bool_decide (sql_key userId = Some (u_id u)) then
      mkUser (u_id u) (u_first_name u) (u_last_name u) (u_email u) (u_phone u)
             (u_status u) (u_role u) (u_profile_image u) None (u_last_login u)
             (u_created_at u) (u_updated_at u)
    else u).

(** [UPDATE auth_credentials SET reset_token = ?, reset_token_expires = ?
    WHERE user_id = ?] *)
Definition set_reset_token (k : Z) (token : string) (expires : Z) : Db -> Db :=
  map_creds (fun c =>
    if c_user_id c =? k then
      mkCred (c_id c) (c_user_id c) (c_password c) (Some token) (Some expires)
    else c).

(** Whether [reset_token_expires > NOW()]; a NULL expiry never is. *)
Definition expires_after (t : Z) (c : CredRow) : bool :=
  match c_reset_token_expires c with
  | Some e => t <? e
  | None => false
  end.

(** [UPDATE auth_credentials SET password = ?, reset_token = NULL,
    reset_token_expires = NULL WHERE id = ? AND reset_token_expires > NOW()] *)
Definition consume_reset_token (k : Z) (hash : string) (t : Z) : Db -> Db :=
  map_creds (fun c =>
    if (c_id c =? k) && expires_after t c then
      mkCred (c_id c) (c_user_id c) hash None None
    else c).

(** [UPDATE auth_credentials SET password = ? WHERE user_id = ?] *)
Definition set_password_by_key (k : Z) (hash : string) : Db -> Db :=
  map_creds (fun c =>
    if c_user_id c =? k then
      mkCred (c_id c) (c_user_id c) hash (c_reset_token c) (c_reset_token_expires c)
    else c).
Definition set_password_by_id (userId : JsVal) (hash : string) : Db -> Db :=
  map_creds (fun c =>
    if bool_decide (sql_key userId = Some (c_user_id c)) then
      mkCred (c_id c) (c_user_id c) hash (c_reset_token c) (c_reset_token_expires c)
    else c).

(** [process.env.NAME || fallback] *)
Definition env_or (name fallback : string) : string :=
  match env !! name with
  | Some v => if String.eqb v "" then fallback else v
  | None => fallback
  end.

(** [await bcrypt.hash(password, 10)] *)
Definition bcrypt_hash_m (password : string) : M string :=
  await_env ;;; salt <- draw ;; ret (bcrypt_hash password salt).

(** [await bcrypt.compare(password, hash)]; bcryptjs rejects when the
    hash is not a string. *)
Definition bcrypt_compare_m (password : string) (hash : JsVal) : M bool :=
  await_env ;;;
  match hash with
  | JStr h => ret (bcrypt_compare password h)
  | _ => throw (Unclassified "Illegal arguments: string, undefined")
  end.

End Persistence.
End Persistence.
Export Persistence.

(** ** src/services/auth.service.js *)

Module AuthService.
Section AuthService.
Context `{P : Platform}.
Local Open Scope eff_scope.

(** The registration request body, as the boundary hands it over. *)
Record UserData : Type := mkUserData {
  first_name : string;
  last_name : string;
  email : string;
  phone : option string;
  password : string
}.

Definition opt_str (o : option string) : JsVal :=
  match o with Some s => JStr s | None => JNull end.
Definition opt_num (o : option Z) : JsVal :=
  match o with Some n => JNum n | None => JNull end.

(** The row object of [SELECT id, first_name, last_name, email, phone,
    status, role, profile_image, created_at, updated_at FROM users]. *)
Definition user_columns (u : UserRow) : gmap string JsVal :=
  list_to_map
    [("id", JNum (u_id u)); ("first_name", JStr (u_first_name u));
     ("last_name", JStr (u_last_name u)); ("email", JStr (u_email u));
     ("phone", opt_str (u_phone u)); ("status", JStr (u_status u));
     ("role", JStr (u_role u)); ("profile_image", opt_str (u_profile_image u));
     ("created_at", JNum (u_created_at u)); ("updated_at", JNum (u_updated_at u))].

(** The row object of [SELECT * FROM users]. *)
Definition user_all_columns (u : UserRow) : gmap string JsVal :=
  <["refresh_token" := opt_str (u_refresh_token u)]>
    (<["last_login" := opt_num (u_last_login u)]> (user_columns u)).

Definition generateAccessToken (user : gmap string JsVal) : M string :=
  gets (fun w =>
    jwt_sign (list_to_map [("id", get user "id"); ("email", get user "email");
                           ("role", get user "role")])
             (env_or "JWT_SECRET" "1234")
             (env_or "JWT_EXPIRES_IN" "1d")
             (now w)).

Definition generateRefreshToken (user : gmap string JsVal) : M string :=
  gets (fun w =>
    jwt_sign (list_to_map [("id", get user "id")])
             (env_or "JWT_REFRESH_SECRET" "1234")
             (env_or "JWT_REFRESH_EXPIRES_IN" "7d")
             (now w)).

(** [jwt.verify(token, secret)]: throws when the token does not verify. *)
Definition jwt_verify_m (token secret : string) : M (gmap string JsVal) :=
  fun w => match jwt_verify token secret (now w) with
           | Some decoded => (Ok decoded, w)
           | None => (Throw (Unclassified "JsonWebTokenError"), w)
           end.

Definition validateToken (token : string) : M (gmap string JsVal) :=
  try_catch (jwt_verify_m token (env_or "JWT_SECRET" "1234"))
            (fun _ => throw (new_error AuthenticationError "Invalid token")).

Definition getUserById_body (userId : JsVal) : M (gmap string JsVal) :=
  users <- pool_query (select (users_by_id userId)) ;;
  match users with
  | [] => throw (new_error NotFoundError "Usuario no encontrado")
  | u :: _ => ret (user_columns u)
  end.

Definition getUserById_catch {A} (error : Exn) : M A :=
  if instanceof error NotFoundError then throw error
  else throw (new_error DatabaseError "Error al obtener usuario").

Definition getUserById (userId : JsVal) : M (gmap string JsVal) :=
  try_catch (getUserById_body userId) getUserById_catch.

(** The statements of [register] between [beginTransaction] and the
    [return]. *)
Definition register_transaction (userData : UserData) (hashedPassword : string)
  : M (gmap string JsVal) :=
  userId <- (k <- fresh_id ;;
             conn_query (exec_at (insert_user k (first_name userData)
                            (last_name userData) (email userData)
                            (match phone userData with
                             | Some "" => None
                             | p => p
                             end)
                            "active")) ;;;
             ret k) ;;
  (k <- fresh_id ;; conn_query (exec (insert_cred k userId hashedPassword))) ;;;
  users <- conn_query (select (users_by_key userId)) ;;
  commit ;;;
  release ;;;
  match users with
  | newUser :: _ => ret (delete "password" (user_all_columns newUser))
  | [] => throw (Unclassified "TypeError: Cannot convert undefined or null to object")
  end.

Definition register_body (userData : UserData) : M (gmap string JsVal) :=
  existingUsers <- pool_query (select (users_by_email (email userData))) ;;
  if (0 <? length existingUsers)%nat then
    throw (new_error ValidationError "Email is already registered")
  else
    hashedPassword <- bcrypt_hash_m (password userData) ;;
    getConnection ;;;
    beginTransaction ;;;
    try_catch (register_transaction userData hashedPassword)
              (fun error => rollback ;;; release ;;; throw error).

Definition register_catch {A} (error : Exn) : M A :=
  if instanceof error ValidationError then throw error
  else throw (new_error DatabaseError "Failed to register user").

Definition register (userData : UserData) : M (gmap string JsVal) :=
  try_catch (register_body userData) register_catch.

Definition updatePassword_body (token newPassword : string) : M bool :=
  user <- conn_query (select (creds_by_reset_token token)) ;;
  match user with
  | [] => throw (new_error NotFoundError "Credenciales de usuario no encontradas")
  | u0 :: _ =>
      (* the SELECT names [user_id] only: [user[0].password] is undefined *)
      isMatch <- bcrypt_compare_m newPassword JUndefined ;;
      if negb isMatch then
        throw (new_error ValidationError "La contraseña debe ser distinta a una vieja")
      else
        hashedPassword <- bcrypt_hash_m newPassword ;;
        conn_query (exec (set_password_by_key (c_user_id u0) hashedPassword)) ;;;
        ret true
  end.

Definition updatePassword_catch {A} (error : Exn) : M A :=
  if instanceof error ValidationError || instanceof error NotFoundError
  then throw error
  else throw (new_error DatabaseError "Error al actualizar la contraseña").

Definition updatePassword (token newPassword : string) : M bool :=
  if String.eqb newPassword "" then
    throw (new_error ValidationError "Nueva contraseña es requerida")
  else if (String.length newPassword <? 8)%nat then
    throw (new_error ValidationError
             "La nueva contraseña debe tener al menos 8 caracteres")
  else
    getConnection ;;;
    finally (try_catch (updatePassword_body token newPassword) updatePassword_catch)
            release.

Record LoginResult : Type := mkLoginResult {
  user : gmap string JsVal;
  accessToken : string;
  refreshToken_of : string
}.

Definition login_body (email password : string) : M LoginResult :=
  users <- pool_query (select (users_by_email email)) ;;
  match users with
  | [] => throw (new_error AuthenticationError "Invalid email or password")
  | u :: _ =>
      let user := user_columns u in
      authCredentials <- pool_query (select (creds_by_user_key (u_id u))) ;;
      match authCredentials with
      | [] => throw (new_error AuthenticationError
                       "No authentication credentials found")
      | c :: _ =>
          isPasswordValid <- bcrypt_compare_m password (JStr (c_password c)) ;;
          if negb isPasswordValid then
            throw (new_error AuthenticationError "Invalid email or password")
          else
            accessToken <- generateAccessToken user ;;
            refreshToken <- generateRefreshToken user ;;
            pool_query (exec_at (set_refresh_token (u_id u) (Some refreshToken))) ;;;
            ret (mkLoginResult (delete "password" user) accessToken refreshToken)
      end
  end.

Definition login_catch {A} (error : Exn) : M A :=
  if instanceof error AuthenticationError then throw error
  else throw (new_error DatabaseError "Failed to process login").

Definition login (email password : string) : M LoginResult :=
  try_catch (login_body email password) login_catch.

Definition logout_body (userId : JsVal) : M bool :=
  pool_query (exec (clear_refresh_token userId)) ;;; ret true.

Definition logout_catch {A} (error : Exn) : M A :=
  throw (new_error DatabaseError "Failed to process logout").

Definition logout (userId : JsVal) : M bool :=
  try_catch (logout_body userId) logout_catch.

Definition refreshToken_body (refreshToken : string) : M string :=
  decoded <- jwt_verify_m refreshToken (env_or "JWT_REFRESH_SECRET" "1234") ;;
  users <- pool_query (select (users_by_id_and_refresh (get decoded "id") refreshToken)) ;;
  match users with
  | [] => throw (new_error AuthenticationError "Invalid refresh token")
  | u :: _ => generateAccessToken (user_all_columns u)
  end.

Definition refreshToken_catch {A} (error : Exn) : M A :=
  throw (new_error AuthenticationError "Invalid refresh token").

Definition refreshToken (refreshToken : string) : M string :=
  try_catch (refreshToken_body refreshToken) refreshToken_catch.

Definition requestPasswordReset_body (email : string) : M string :=
  users <- pool_query (select (users_by_email email)) ;;
  match users with
  | [] => throw (new_error NotFoundError "User not found")
  | u :: _ =>
      resetToken <- (r <- draw ;; ret (hex_of_random r)) ;;
      resetExpires <- gets (fun w => hour_later (now w)) ;;
      pool_query (exec (set_reset_token (u_id u) resetToken resetExpires)) ;;;
      ret resetToken
  end.

Definition requestPasswordReset_catch {A} (error : Exn) : M A :=
  throw (new_error DatabaseError "Failed to process password reset request").

Definition requestPasswordReset (email : string) : M string :=
  try_catch (requestPasswordReset_body email) requestPasswordReset_catch.

Definition resetPassword_body (token newPassword : string) : M bool :=
  credentials <- pool_query (select (creds_by_reset_token token)) ;;
  match credentials with
  | [] => throw (new_error ValidationError "Invalid or expired reset token")
  | credential :: _ =>
      hashedPassword <- bcrypt_hash_m newPassword ;;
      pool_query (exec_at (consume_reset_token (c_id credential) hashedPassword)) ;;;
      ret true
  end.

Definition resetPassword_catch {A} (error : Exn) : M A :=
  if instanceof error ValidationError then throw error
  else throw (new_error DatabaseError "Failed to reset password").

Definition resetPassword (token newPassword : string) : M bool :=
  try_catch (resetPassword_body token newPassword) resetPassword_catch.

Definition changePassword_body (userId : JsVal) (currentPassword newPassword : string)
  : M bool :=
  credentials <- pool_query (select (creds_by_user_id userId)) ;;
  match credentials with
  | [] => throw (new_error NotFoundError "User credentials not found")
  | credential :: _ =>
      isPasswordValid <- bcrypt_compare_m currentPassword (JStr (c_password credential)) ;;
      if negb isPasswordValid then
        throw (new_error ValidationError "Current password is incorrect")
      else
        hashedPassword <- bcrypt_hash_m newPassword ;;
        pool_query (exec (set_password_by_id userId hashedPassword)) ;;;
        ret true
  end.

Definition changePassword_catch {A} (error : Exn) : M A :=
  if instanceof error ValidationError || instanceof error NotFoundError
  then throw error
  else throw (new_error DatabaseError "Failed to change password").

Definition changePassword (userId : JsVal) (currentPassword newPassword : string)
  : M bool :=
  try_catch (changePassword_body userId currentPassword newPassword)
            changePassword_catch.

End AuthService.
End AuthService.

(** ** The persistence models of events and blogs *)

Module Model.
Section Model.
Context `{P : Platform}.
Local Open Scope eff_scope.

(** Modelled from the spec: [src/models/mysql/event.model.js] and
    [src/models/mysql/blog.model.js], which the services call but which
    are not among the source files.  A table is a finite map from the
    key to the row; [findById] yields the row or [null]; [create]
    persists the object under a new key and returns the key; [update]
    writes every field of the patch into the row; [delete] removes the
    row; the flag mutators write one column.  Each is one awaited call,
    and each call that writes is recorded with its arguments. *)
Definition findById (table : World -> gmap Z (gmap string JsVal)) (id : JsVal)
  : M (option (gmap string JsVal)) :=
  await_env ;;;
  gets (fun w => match sql_key id with
                 | Some k => table w !! k
                 | None => None
                 end).

(** Modelled from the spec: a write to the row with key [id], if there
    is one: [f] gives the new row, or [None] to delete it; the result
    tells whether a row was affected. *)
Definition write_row (table : World -> gmap Z (gmap string JsVal))
    (set_table : gmap Z (gmap string JsVal) -> World -> World)
    (id : JsVal) (f : gmap string JsVal -> option (gmap string JsVal))
    (c : ModelCall) : M JsVal :=
  await_env ;;;
  modify (record_call c) ;;;
  (fun w => match sql_key id with
            | Some k =>
                match table w !! k with
                | Some row =>
                    (Ok (JBool true),
                     set_table (match f row with
                                | Some row' => <[k := row']> (table w)
                                | None => delete k (table w)
                                end) w)
                | None => (Ok (JBool false), w)
                end
            | None => (Ok (JBool false), w)
            end).

(** Modelled from the spec: an INSERT; the row gets the next key, which
    is returned. *)
Definition create_row (table : World -> gmap Z (gmap string JsVal))
    (set_table : gmap Z (gmap string JsVal) -> World -> World)
    (data : gmap string JsVal) (c : ModelCall) : M JsVal :=
  await_env ;;;
  modify (record_call c) ;;;
  k <- fresh_id ;;
  modify (fun w => set_table (<[k := <["id" := JNum k]> data]> (table w)) w) ;;;
  ret (JNum k).

Definition Event_create (data : gmap string JsVal) : M JsVal :=
  create_row events set_events data (EventCreate data).
Definition Event_findById (id : JsVal) : M (option (gmap string JsVal)) :=
  findById events id.
Definition Event_update (id : JsVal) (patch : gmap string JsVal) : M JsVal :=
  write_row events set_events id (fun row => Some (patch ∪ row)) (EventUpdate id patch).
Definition Event_delete (id : JsVal) : M JsVal :=
  write_row events set_events id (fun _ => None) (EventDelete id).
Definition Event_updateFeaturedStatus (id v : JsVal) : M JsVal :=
  write_row events set_events id (fun row => Some (<["is_featured" := v]> row))
            (EventUpdateFeaturedStatus id v).
Definition Event_updateHomeStatus (id v : JsVal) : M JsVal :=
  write_row events set_events id (fun row => Some (<["is_home" := v]> row))
            (EventUpdateHomeStatus id v).
Definition Event_updateStatus (id v : JsVal) : M JsVal :=
  write_row events set_events id (fun row => Some (<["status" := v]> row))
            (EventUpdateStatus id v).

Definition Blog_create (data : gmap string JsVal) : M JsVal :=
  create_row blogs set_blogs data (BlogCreate data).
Definition Blog_findById (id : JsVal) : M (option (gmap string JsVal)) :=
  findById blogs id.
Definition Blog_update (id : JsVal) (patch : gmap string JsVal) : M JsVal :=
  write_row blogs set_blogs id (fun row => Some (patch ∪ row)) (BlogUpdate id patch).
Definition Blog_updateActiveStatus (id v : JsVal) : M JsVal :=
  write_row blogs set_blogs id (fun row => Some (<["active" := v]> row))
            (BlogUpdateActiveStatus id v).
Definition Blog_delete (id : JsVal) : M JsVal :=
  write_row blogs set_blogs id (fun _ => None) (BlogDelete id).
Definition Blog_updateFeaturedStatus (id v : JsVal) : M JsVal :=
  write_row blogs set_blogs id (fun row => Some (<["is_featured" := v]> row))
            (BlogUpdateFeaturedStatus id v).

End Model.
End Model.
Export Model.

(** ** src/services/event.service.js *)

Module EventService.
Section EventService.
Context `{P : Platform}.
Local Open Scope eff_scope.

Fixpoint count_char (c : ascii) (s : string) : nat :=
  match s with
  | String c' s' => (if Ascii.eqb c c' then 1 else 0) + count_char c s'
  | EmptyString => 0
  end%nat.

(** [v.split(':').length]; a truthy value that is not a string has no
    [split] method. *)
Definition split_colon_length (v : JsVal) : M nat :=
  match v with
  | JStr s => ret (S (count_char ":" s))
  | _ => throw (Unclassified "TypeError: eventData.event_time.split is not a function")
  end.

(** [if (eventData.event_time && eventData.event_time.split(':').length
    === 2) eventData.event_time = `${eventData.event_time}:00`] *)
Definition normalize_event_time (eventData : gmap string JsVal)
  : M (gmap string JsVal) :=
  if truthy (get eventData "event_time") then
    n <- split_colon_length (get eventData "event_time") ;;
    if (n =? 2)%nat then
      ret (<["event_time" := JStr (to_string (get eventData "event_time") ++ ":00")]>
             eventData)
    else ret eventData
  else ret eventData.

(** [v === true || v === 'true'] *)
Definition is_true_flag (v : JsVal) : bool :=
  strict_eq v (JBool true) || strict_eq v (JStr "true").

Definition required_event_fields : list string :=
  ["event_name"; "event_date"; "event_time"; "location"; "event_type"].

Definition createEvent_catch {A} (error : Exn) : M A :=
  if instanceof error ValidationError then throw error
  else throw (new_error DatabaseError
                ("Error al crear el evento: " ++ exn_message error)).

Definition createEvent (eventData : gmap string JsVal) (userId : JsVal) : M JsVal :=
  if negb (truthy (get eventData "event_name"))
     || negb (truthy (get eventData "event_date"))
     || negb (truthy (get eventData "event_time"))
     || negb (truthy (get eventData "location"))
     || negb (truthy (get eventData "event_type"))
  then
    throw (new_error_with ValidationError "Datos de evento incompletos"
             ["event_name"; "event_date"; "event_time"; "location"; "event_type"])
  else
    eventData <- normalize_event_time eventData ;;
    getConnection ;;;
    finally
      (try_catch
         (Event_create
            (<["is_featured" := JBool (is_true_flag (get eventData "is_featured"))]>
               (<["created_by" := userId]> eventData)))
         createEvent_catch)
      release.

(** What [updateEvent] hands to [Event.update]: the patch without the
    three server-managed fields, then normalized. *)
Definition strip_managed (eventData : gmap string JsVal) : gmap string JsVal :=
  delete "updated_at" (delete "created_at" (delete "created_by" eventData)).

Definition normalize_featured (eventData : gmap string JsVal) : gmap string JsVal :=
  if strict_neq (get eventData "is_featured") JUndefined then
    <["is_featured" := JBool (is_true_flag (get eventData "is_featured"))]> eventData
  else eventData.

(** The [catch] shared by the methods that check ownership; [wrap] builds
    the message of the [DatabaseError]. *)
Definition owner_catch {A} (wrap : Exn -> string) (error : Exn) : M A :=
  if instanceof error ValidationError
     || instanceof error NotFoundError
     || instanceof error AuthorizationError
  then throw error
  else throw (new_error DatabaseError (wrap error)).

Definition updateEvent_body (id : JsVal) (eventData : gmap string JsVal)
    (userId : JsVal) : M JsVal :=
  event <- Event_findById id ;;
  match event with
  | None => throw (new_error NotFoundError "Evento no encontrado")
  | Some event =>
      if strict_neq (get event "created_by") (parseInt userId) then
        throw (new_error AuthorizationError "No autorizado para actualizar este evento")
      else
        eventData <- normalize_event_time (strip_managed eventData) ;;
        Event_update id (normalize_featured eventData)
  end.

Definition updateEvent (id : JsVal) (eventData : gmap string JsVal) (userId : JsVal)
  : M JsVal :=
  if negb (truthy id) then
    throw (new_error ValidationError "ID de evento es requerido")
  else
    getConnection ;;;
    finally
      (try_catch (updateEvent_body id eventData userId)
         (owner_catch (fun error =>
            "Error al actualizar el evento: " ++ exn_message error)))
      release.

Definition deleteEvent_body (id userId : JsVal) : M JsVal :=
  event <- Event_findById id ;;
  match event with
  | None => throw (new_error NotFoundError "Evento no encontrado")
  | Some event =>
      if strict_neq (get event "created_by") (parseInt userId) then
        throw (new_error AuthorizationError "No autorizado para eliminar este evento")
      else Event_delete id
  end.

Definition deleteEvent (id userId : JsVal) : M JsVal :=
  if negb (truthy id) then
    throw (new_error ValidationError "ID de evento es requerido")
  else
    getConnection ;;;
    finally
      (try_catch (deleteEvent_body id userId)
         (owner_catch (fun _ => "Error al eliminar el evento")))
      release.

Definition updateFeaturedStatus_body (id isFeatured userId : JsVal) : M JsVal :=
  event <- Event_findById id ;;
  match event with
  | None => throw (new_error NotFoundError "Evento no encontrado")
  | Some event =>
      if strict_neq (get event "created_by") (parseInt userId) then
        throw (new_error AuthorizationError "No autorizado para actualizar este evento")
      else Event_updateFeaturedStatus id isFeatured
  end.

Definition updateFeaturedStatus (id isFeatured userId : JsVal) : M JsVal :=
  if negb (truthy id) then
    throw (new_error ValidationError "ID de evento es requerido")
  else
    getConnection ;;;
    finally
      (try_catch (updateFeaturedStatus_body id isFeatured userId)
         (owner_catch (fun _ => "Error al actualizar el estado destacado del evento")))
      release.

Definition updateHomeStatus_body (id isHome userId : JsVal) : M JsVal :=
  event <- Event_findById id ;;
  match event with
  | None => throw (new_error NotFoundError "Evento no encontrado")
  | Some event =>
      if strict_neq (get event "created_by") (parseInt userId) then
        throw (new_error AuthorizationError "No autorizado para actualizar este evento")
      else Event_updateHomeStatus id isHome
  end.

Definition updateHomeStatus (id isHome userId : JsVal) : M JsVal :=
  if negb (truthy id) then
    throw (new_error ValidationError "ID de evento es requerido")
  else
    getConnection ;;;
    finally
      (try_catch (updateHomeStatus_body id isHome userId)
         (owner_catch (fun _ => "Error al actualizar el estado de inicio del evento")))
      release.

(** [['activo', 'cancelado', 'pospuesto', 'completado'].includes(status)] *)
Definition event_statuses : list string :=
  ["activo"; "cancelado"; "pospuesto"; "completado"].

Definition includes (l : list string) (v : JsVal) : bool :=
  existsb (fun s => strict_eq (JStr s) v) l.

Definition updateEventStatus_body (id status userId : JsVal) : M JsVal :=
  event <- Event_findById id ;;
  match event with
  | None => throw (new_error NotFoundError "Evento no encontrado")
  | Some event =>
      if strict_neq (get event "created_by") (parseInt userId) then
        throw (new_error AuthorizationError "No autorizado para actualizar este evento")
      else Event_updateStatus id status
  end.

Definition updateEventStatus (id status userId : JsVal) : M JsVal :=
  if negb (truthy id) then
    throw (new_error ValidationError "ID de evento es requerido")
  else if negb (truthy status) || negb (includes event_statuses status) then
    throw (new_error ValidationError "Estado de evento inválido")
  else
    getConnection ;;;
    finally
      (try_catch (updateEventStatus_body id status userId)
         (owner_catch (fun _ => "Error al actualizar el estado del evento")))
      release.

End EventService.
End EventService.

(** ** src/services/blog.service.js *)

Module BlogService.
Section BlogService.
Context `{P : Platform}.
Local Open Scope eff_scope.

Definition required_blog_fields : list string := ["title"; "category"; "content"].

Definition createBlog_catch {A} (error : Exn) : M A :=
  if instanceof error ValidationError then throw error
  else throw (new_error DatabaseError "Error al crear el blog").

Definition createBlog (blogData : gmap string JsVal) (userId : JsVal) : M JsVal :=
  if negb (truthy (get blogData "title"))
     || negb (truthy (get blogData "category"))
     || negb (truthy (get blogData "content"))
  then
    throw (new_error_with ValidationError "Datos de blog incompletos"
             ["title"; "category"; "content"])
  else
    getConnection ;;;
    finally
      (try_catch
         (Blog_create
            (<["is_featured" := js_or (get blogData "is_featured") (JBool false)]>
               (<["author_id" := userId]> blogData)))
         createBlog_catch)
      release.

Definition owner_catch {A} (msg : string) (error : Exn) : M A :=
  if instanceof error ValidationError
     || instanceof error NotFoundError
     || instanceof error AuthorizationError
  then throw error
  else throw (new_error DatabaseError msg).

Definition updateBlog_body (id : JsVal) (blogData : gmap string JsVal)
    (userId : JsVal) : M JsVal :=
  blog <- Blog_findById id ;;
  match blog with
  | None => throw (new_error NotFoundError "Blog no encontrado")
  | Some blog =>
      if strict_neq (get blog "author_id") (parseInt userId) then
        throw (new_error AuthorizationError "No autorizado para actualizar este blog")
      else Blog_update id blogData
  end.

Definition updateBlog (id : JsVal) (blogData : gmap string JsVal) (userId : JsVal)
  : M JsVal :=
  if negb (truthy id) then
    throw (new_error ValidationError "ID de blog es requerido")
  else
    getConnection ;;;
    finally
      (try_catch (updateBlog_body id blogData userId)
         (owner_catch "Error al actualizar el blog"))
      release.

Definition updateBlogStatus_body (id isActive userId : JsVal) : M JsVal :=
  blog <- Blog_findById id ;;
  match blog with
  | None => throw (new_error NotFoundError "Blog no encontrado")
  | Some blog =>
      if strict_neq (get blog "author_id") (parseInt userId) then
        throw (new_error AuthorizationError "No autorizado para actualizar este blog")
      else Blog_updateActiveStatus id isActive
  end.

Definition updateBlogStatus (id isActive userId : JsVal) : M JsVal :=
  if negb (truthy id) then
    throw (new_error ValidationError "ID de blog es requerido")
  else
    getConnection ;;;
    finally
      (try_catch (updateBlogStatus_body id isActive userId)
         (owner_catch "Error al actualizar el estado del blog"))
      release.

Definition deleteBlog_body (id userId : JsVal) : M JsVal :=
  blog <- Blog_findById id ;;
  match blog with
  | None => throw (new_error NotFoundError "Blog no encontrado")
  | Some blog =>
      if strict_neq (get blog "author_id") (parseInt userId) then
        throw (new_error AuthorizationError "No autorizado para eliminar este blog")
      else Blog_delete id
  end.

Definition deleteBlog (id userId : JsVal) : M JsVal :=
  if negb (truthy id) then
    throw (new_error ValidationError "ID de blog es requerido")
  else
    getConnection ;;;
    finally
      (try_catch (deleteBlog_body id userId)
         (owner_catch "Error al eliminar el blog"))
      release.

Definition updateFeaturedStatus_body (id isFeatured userId : JsVal) : M JsVal :=
  blog <- Blog_findById id ;;
  match blog with
  | None => throw (new_error NotFoundError "Blog no encontrado")
  | Some blog =>
      userRows <- conn_query (select (users_by_id userId)) ;;
      let isAdmin :=
        match userRows with
        | u :: _ => String.eqb (u_role u) "admin"
        | [] => false
        end in
      if strict_neq (get blog "author_id") (parseInt userId) && negb isAdmin then
        throw (new_error AuthorizationError "No autorizado para actualizar este blog")
      else Blog_updateFeaturedStatus id isFeatured
  end.

Definition updateFeaturedStatus (id isFeatured userId : JsVal) : M JsVal :=
  if negb (truthy id) then
    throw (new_error ValidationError "ID de blog es requerido")
  else
    getConnection ;;;
    finally
      (try_catch (updateFeaturedStatus_body id isFeatured userId)
         (owner_catch "Error al actualizar el estado destacado del blog"))
      release.

End BlogService.
End BlogService.

(** ** The read methods of the event and blog services *)

Module Listing.

(** A number as a listing reports it: an integer (exact below 2^53),
    [NaN], or an infinity of either sign. *)
Inductive JsNumber : Type :=
| Finite (n : Z)
| NotANumber
| Infinite.

(** [if (filters.x) filters.x = parseInt(filters.x)]: what the field
    holds afterwards. *)
Definition parse_if_truthy (v : JsVal) : JsVal :=
  if truthy v then parseInt v else v.

(** The number the field then denotes in an arithmetic expression:
    [parseInt] of it when it was truthy; when it was falsy it was left
    alone, and [undefined] and [NaN] read as [NaN], while [null],
    [false], [0] and the empty string read as 0. *)
Definition number_read (v : JsVal) : JsNumber :=
  if truthy v then
    match parseInt v with
    | JNum n => Finite n
    | _ => NotANumber
    end
  else
    match v with
    | JUndefined | JNaN => NotANumber
    | _ => Finite 0
    end.

(** [Math.floor(offset / limit) + 1] for a non-zero integer [offset].
    The code divides doubles; for safe integers the floor of the
    rounded quotient is the floor of the exact one. *)
Definition floor_quotient_plus_one (offset : Z) (limit : JsNumber) : JsNumber :=
  match limit with
  | Finite 0 => Infinite
  | Finite l => Finite (offset / l + 1)
  | NotANumber => NotANumber
  | Infinite => Finite 1
  end.

(** [filters.offset ? Math.floor(filters.offset / filters.limit) + 1 : 1]
    on the filters as the caller gave them. *)
Definition page_of (filters : gmap string JsVal) : JsNumber :=
  match parse_if_truthy (get filters "offset") with
  | JNum o => if o =? 0 then Finite 1
              else floor_quotient_plus_one o (number_read (get filters "limit"))
  | _ => Finite 1
  end.

(** [filters.limit ? filters.limit : rows.length] *)
Definition limit_of {A} (filters : gmap string JsVal) (rows : list A) : JsVal :=
  if truthy (parse_if_truthy (get filters "limit"))
  then parse_if_truthy (get filters "limit")
  else JNum (Z.of_nat (length rows)).

(** The filters after the two conditional assignments. *)
Definition parsed_filters (filters : gmap string JsVal) : gmap string JsVal :=
  let filters :=
    if truthy (get filters "limit")
    then <["limit" := parseInt (get filters "limit")]> filters else filters in
  if truthy (get filters "offset")
  then <["offset" := parseInt (get filters "offset")]> filters else filters.

(** What a listing returns. *)
Record Page : Type := mkPage {
  rows : list (gmap string JsVal);
  total : JsVal;
  page : JsNumber;
  limit : JsVal
}.

End Listing.
Export Listing.

Module EventQueries.
Section EventQueries.
Context `{P : Platform}.
(** Modelled from the spec: the SELECTs of [Event.findAll] and
    [Event.count] ([src/models/mysql/event.model.js] is not among the
    source files) are parameters: what rows, and what total, the
    filters select from the table. *)
Context (find_rows : gmap string JsVal -> gmap Z (gmap string JsVal) ->
                     list (gmap string JsVal)).
Context (count_rows : gmap string JsVal -> gmap Z (gmap string JsVal) -> JsVal).
Local Open Scope eff_scope.

(** Modelled from the spec: [Event.findAll(filters)] and
    [Event.count(filters)] are one awaited call each and write
    nothing. *)
Definition Event_findAll (filters : gmap string JsVal)
  : M (list (gmap string JsVal)) :=
  await_env ;;; gets (fun w => find_rows filters (events w)).
Definition Event_count (filters : gmap string JsVal) : M JsVal :=
  await_env ;;; gets (fun w => count_rows filters (events w)).

Definition getEvents_body (filters : gmap string JsVal) : M Page :=
  let parsed := parsed_filters filters in
  let isAdminPanel := js_or (get parsed "isAdminPanel") (JBool false) in
  events <- Event_findAll (<["isAdminPanel" := isAdminPanel]> parsed) ;;
  total <- Event_count (<["isAdminPanel" := isAdminPanel]> parsed) ;;
  ret (mkPage events total (page_of filters) (limit_of filters events)).

Definition getEvents (filters : gmap string JsVal) : M Page :=
  try_catch (getEvents_body filters)
    (fun _ => throw (new_error DatabaseError "Error al obtener los eventos")).

Definition getAdminEvents (filters : gmap string JsVal) : M Page :=
  try_catch (getEvents (<["isAdminPanel" := JBool true]> filters))
    (fun _ => throw (new_error DatabaseError
                       "Error al obtener los eventos para administración")).

Definition getEventById_body (id isAdmin : JsVal) : M (gmap string JsVal) :=
  event <- Event_findById id ;;
  match event with
  | None => throw (new_error NotFoundError "Evento no encontrado")
  | Some event =>
      if negb (truthy isAdmin) && strict_neq (get event "status") (JStr "activo")
      then throw (new_error NotFoundError "Evento no encontrado")
      else ret event
  end.

Definition getEventById_catch {A} (error : Exn) : M A :=
  if instanceof error ValidationError || instanceof error NotFoundError
  then throw error
  else throw (new_error DatabaseError "Error al obtener el evento").

Definition getEventById (id isAdmin : JsVal) : M (gmap string JsVal) :=
  if negb (truthy id) then
    throw (new_error ValidationError "ID de evento es requerido")
  else try_catch (getEventById_body id isAdmin) getEventById_catch.

End EventQueries.
End EventQueries.

Module BlogQueries.
Section BlogQueries.
Context `{P : Platform}.
(** Modelled from the spec: the SELECTs of [Blog.findAll] and
    [Blog.count] ([src/models/mysql/blog.model.js] is not among the
    source files) are parameters. *)
Context (find_rows : gmap string JsVal -> gmap Z (gmap string JsVal) ->
                     list (gmap string JsVal)).
Context (count_rows : gmap string JsVal -> gmap Z (gmap string JsVal) -> JsVal).
Local Open Scope eff_scope.

(** Modelled from the spec: [Blog.findAll(filters)] and
    [Blog.count(filters)] are one awaited call each and write nothing. *)
Definition Blog_findAll (filters : gmap string JsVal)
  : M (list (gmap string JsVal)) :=
  await_env ;;; gets (fun w => find_rows filters (blogs w)).
Definition Blog_count (filters : gmap string JsVal) : M JsVal :=
  await_env ;;; gets (fun w => count_rows filters (blogs w)).

Definition getBlogs_body (filters : gmap string JsVal) : M Page :=
  let parsed := parsed_filters filters in
  blogs <- Blog_findAll parsed ;;
  total <- Blog_count parsed ;;
  ret (mkPage blogs total (page_of filters) (limit_of filters blogs)).

Definition getBlogs (filters : gmap string JsVal) : M Page :=
  try_catch (getBlogs_body filters)
    (fun _ => throw (new_error DatabaseError "Error al obtener los blogs")).

Definition getAdminBlogs (filters : gmap string JsVal) : M Page :=
  try_catch (getBlogs_body filters)
    (fun _ => throw (new_error DatabaseError
                       "Error al obtener los blogs para administración")).

Definition getBlogById_body (id : JsVal) : M (gmap string JsVal) :=
  blog <- Blog_findById id ;;
  match blog with
  | None => throw (new_error NotFoundError "Blog no encontrado")
  | Some blog => ret blog
  end.

Definition getBlogById_catch {A} (error : Exn) : M A :=
  if instanceof error ValidationError || instanceof error NotFoundError
  then throw error
  else throw (new_error DatabaseError "Error al obtener el blog").

Definition getBlogById (id : JsVal) : M (gmap string JsVal) :=
  if negb (truthy id) then
    throw (new_error ValidationError "ID de blog es requerido")
  else try_catch (getBlogById_body id) getBlogById_catch.

End BlogQueries.
End BlogQueries.

(** ** A concrete platform and world, for evaluating the services *)

Module Demo.

Definition demo_sql_key (v : JsVal) : option Z :=
  match v with
  | JNum n => Some n
  | JStr s => match parseInt_string s with JNum n => Some n | _ => None end
  | _ => None
  end.

Definition demo_jwt_verify (token secret : string) (t : Z)
  : option (gmap string JsVal) :=
  if String.eqb token "refresh-7" then Some {["id" := JNum 7]} else None.

(** The store and the application share one clock, in a zone without
    clock changes: the next hour is sixty minutes away. *)
Definition demo : Platform := {|
  sql_key := demo_sql_key;
  sql_text_eq := String.eqb;
  sql_text_eq_refl := String.eqb_refl;
  bcrypt_hash := fun password _ => "$2a$10$" ++ password;
  bcrypt_compare := fun password hash => String.eqb hash ("$2a$10$" ++ password);
  jwt_sign := fun payload _ _ _ => "jwt:" ++ to_string (get payload "id");
  jwt_verify := demo_jwt_verify;
  hex_of_random := fun _ => "c0ffee";
  hour_later := fun t => t + 3600000;
  env := ∅;
  default_role := "user"
|}.

Definition alice : UserRow :=
  mkUser 7 "Alice" "A" "alice@example.com" None "active" "user" None
         (Some "refresh-7") None 0 0.
Definition bob : UserRow :=
  mkUser 8 "Bob" "B" "bob@example.com" None "active" "admin" None None None 0 0.
Definition carol : UserRow :=
  mkUser 9 "Carol" "C" "carol@example.com" None "active" "user" None None None 0 0.

(** Alice holds a reset token that expired at time 1000. *)
Definition alice_cred : CredRow :=
  mkCred 1 7 "$2a$10$secret" (Some "tok-7") (Some 1000).
Definition bob_cred : CredRow :=
  mkCred 2 8 "$2a$10$hunter22" None None.

(** Carol has no row in [auth_credentials]. *)
Definition demo_db : Db := mkDb [alice; bob; carol] [alice_cred; bob_cred].

Definition demo_event : gmap string JsVal :=
  list_to_map [("id", JNum 1); ("event_name", JStr "Feria"); ("created_by", JNum 7);
               ("created_at", JNum 10); ("status", JStr "activo")].
Definition demo_blog : gmap string JsVal :=
  list_to_map [("id", JNum 1); ("title", JStr "Hola"); ("author_id", JNum 7);
               ("created_at", JNum 10)].

Definition demo_world (steps : list Step) : World :=
  mkWorld demo_db None {[1 := demo_event]} {[1 := demo_blog]} 100 5000 steps [] 0 [].

Definition ok_step : Step := mkStep 1 None.
Definition bad_step : Step := mkStep 1 (Some "ECONNRESET").

End Demo.


(** ** The vocabulary of the statements *)

Module Spec.

(** [hoare Pre m Post]: from a world satisfying [Pre], whatever [m]
    does, its outcome and the world it leaves satisfy [Post]. *)
Definition hoare {A} (Pre : World -> Prop) (m : M A)
    (Post : Result A -> World -> Prop) : Prop :=
  forall w r w', Pre w -> m w = (r, w') -> Post r w'.

(** [m] keeps [Inv], however it ends. *)
Definition preserves {A} (Inv : World -> Prop) (m : M A) : Prop :=
  hoare Inv m (fun _ => Inv).

(** [Inv] looks at nothing an awaited call, the random source, the
    connection pool or the key counter change. *)
Record stable (Inv : World -> Prop) : Prop := mkStable {
  stable_tick : forall w, Inv w -> Inv (tick w);
  stable_entropy : forall w r, Inv w -> Inv (set_entropy r w);
  stable_pool_out : forall w n, Inv w -> Inv (set_pool_out n w);
  stable_next_id : forall w n, Inv w -> Inv (set_next_id n w)
}.

(** The value of a decimal numeral read after [acc]. *)
Fixpoint uint_val (d : Decimal.uint) (acc : Z) : Z :=
  match d with
  | Decimal.Nil => acc
  | Decimal.D0 l => uint_val l (10 * acc + 0)
  | Decimal.D1 l => uint_val l (10 * acc + 1)
  | Decimal.D2 l => uint_val l (10 * acc + 2)
  | Decimal.D3 l => uint_val l (10 * acc + 3)
  | Decimal.D4 l => uint_val l (10 * acc + 4)
  | Decimal.D5 l => uint_val l (10 * acc + 5)
  | Decimal.D6 l => uint_val l (10 * acc + 6)
  | Decimal.D7 l => uint_val l (10 * acc + 7)
  | Decimal.D8 l => uint_val l (10 * acc + 8)
  | Decimal.D9 l => uint_val l (10 * acc + 9)
  end.

(** The required fields the input lacks: absent, or present with a
    falsy value, which is what [!data.field] tests. *)
Definition missing_fields (required : list string) (data : gmap string JsVal)
  : list string :=
  List.filter (fun f => negb (truthy (get data f))) required.

(** Row [i] of [auth_credentials] is [c], and the clock has not gone
    back behind [t0]. *)
Definition row_kept (i : nat) (c : CredRow) (t0 : Z) (w : World) : Prop :=
  auth_credentials (db w) !! i = Some c /\ t0 <= now w.

(** The awaited call to come does not reject. *)
Definition next_call_ok (w : World) : bool :=
  match script w with
  | s :: _ => match rejects s with None => true | Some _ => false end
  | [] => true
  end.

(** The committed rows are [d0]. *)
Definition committed (d0 : Db) (w : World) : Prop := db w = d0.

(** The committed rows are [d0] and a transaction is open whose rows
    satisfy [Phi]. *)
Definition in_tx (d0 : Db) (Phi : Db -> Prop) (w : World) : Prop :=
  db w = d0 /\ exists t, tx w = Some t /\ Phi t.

(** What a failed step must leave. *)
Definition unless_thrown {A} (d0 : Db) (Q : A -> World -> Prop)
  : Result A -> World -> Prop :=
  fun r w => match r with Ok a => Q a w | Throw _ => committed d0 w end.

(** The transaction's rows hold a user with key [k]. *)
Definition has_user (k : Z) (d : Db) : Prop := users_by_key k d <> [].

(** Every classified error [m] raises has a kind in [K]. *)
Definition raises_only {A} (K : ErrorKind -> Prop) (m : M A) : Prop :=
  hoare (fun _ => True) m
        (fun r _ => match r with
                    | Throw (Domain d) => K (kind d)
                    | _ => True
                    end).

(** [op] is [body] under a handler that rethrows classified errors
    unchanged and wraps anything else as [DatabaseError(msg)]. *)
Definition surfaces {A} (body op : M A) (msg : string) : Prop :=
  forall w,
    op w = match body w with
           | (Ok a, w') => (Ok a, w')
           | (Throw (Domain d), w') => (Throw (Domain d), w')
           | (Throw (Unclassified _), w') =>
               (Throw (new_error DatabaseError msg), w')
           end.

(** [op] is [body] under a handler that turns every exception into
    [AuthenticationError(msg)]. *)
Definition fails_closed {A} (body op : M A) (msg : string) : Prop :=
  forall w,
    op w = match body w with
           | (Ok a, w') => (Ok a, w')
           | (Throw _, w') => (Throw (new_error AuthenticationError msg), w')
           end.

(** The call was refused as unauthorized and wrote nothing. *)
Definition refused {A} (msg : string) (w : World) (out : Result A * World) : Prop :=
  fst out = Throw (new_error AuthorizationError msg) /\
  calls (snd out) = calls w /\
  events (snd out) = events w /\
  blogs (snd out) = blogs w.

(** The patch carries none of the server-managed fields. *)
Definition stripped (p : gmap string JsVal) : Prop :=
  p !! "created_by" = None /\ p !! "created_at" = None /\ p !! "updated_at" = None.

(** Every patch handed to [Event.update] beyond the calls [c0] is
    stripped, and every event row has the owner reference and creation
    timestamp it has in [e0]. *)
Definition owners_kept (c0 : list ModelCall) (e0 : gmap Z (gmap string JsVal))
    (w : World) : Prop :=
  (forall id p, In (EventUpdate id p) (calls w) ->
                In (EventUpdate id p) c0 \/ stripped p) /\
  (forall k row, events w !! k = Some row ->
     exists row0, e0 !! k = Some row0 /\
                  get row "created_by" = get row0 "created_by" /\
                  get row "created_at" = get row0 "created_at").

Section Roles.
Context `{P : Platform}.

(** Whether the requester's row in [users] says [admin], as the query
    on the connection sees it. *)
Definition is_admin (userId : JsVal) (w : World) : bool :=
  match users_by_id userId (match tx w with Some t => t | None => db w end) with
  | u :: _ => String.eqb (u_role u) "admin"
  | [] => false
  end.

End Roles.

End Spec.
Export Spec.

(** ** Inputs the statements are tried on *)

Module Inputs.
Import AuthService.

(** An event body that lacks only [event_name]. *)
Definition event_without_name : gmap string JsVal :=
  list_to_map [("event_date", JStr "2025-06-01"); ("event_time", JStr "14:30");
               ("location", JStr "Plaza"); ("event_type", JStr "feria")].

(** Registering with an email that is free, when the INSERT into
    [auth_credentials] rejects. *)
Definition dan : UserData :=
  mkUserData "Dan" "D" "dan@example.com" (Some "") "pw".
Definition credential_insert_fails : World :=
  Demo.demo_world [Demo.ok_step; Demo.ok_step; Demo.ok_step; Demo.ok_step;
                   Demo.ok_step; Demo.bad_step].

(** A blog patch that names another author. *)
Definition patch_with_author : gmap string JsVal :=
  list_to_map [("title", JStr "Adios"); ("author_id", JNum 99)].

(** A platform like [Demo.demo] whose refresh tokens verify: a token is
    the numeral of the id it was signed for. *)
Definition signing : Platform := {|
  sql_key := Demo.demo_sql_key;
  sql_text_eq := String.eqb;
  sql_text_eq_refl := String.eqb_refl;
  bcrypt_hash := fun password _ => "$2a$10$" ++ password;
  bcrypt_compare := fun password hash => String.eqb hash ("$2a$10$" ++ password);
  jwt_sign := fun payload _ _ _ => to_string (get payload "id");
  jwt_verify := fun token _ _ =>
    match parseInt_string token with
    | JNum n => Some {["id" := JNum n]}
    | _ => None
    end;
  hex_of_random := fun _ => "c0ffee";
  hour_later := fun t => t + 3600000;
  env := ∅;
  default_role := "user"
|}.

End Inputs.
Export Inputs.

(** ** Further vocabulary *)

Module MoreSpec.

(** When [m] throws, the committed rows are those it started from. *)
Definition writes_nothing_on_failure {A} (m : M A) : Prop :=
  forall w e w', m w = (Throw e, w') -> db w' = db w.

(** However [m] ends, the committed rows are those it started from. *)
Definition read_only {A} (m : M A) : Prop :=
  forall w r w', m w = (r, w') -> db w' = db w.

(** However [m] ends, as many connections are out of the pool as
    before. *)
Definition releases {A} (m : M A) : Prop :=
  forall w, pool_out (snd (m w)) = pool_out w.

(** The time the awaited calls of a script take together. *)
Definition total_elapsed (steps : list Step) : Z :=
  fold_right (fun s acc => Z.of_N (elapsed s) + acc) 0 steps.

(** The latest time the clock can show while the script lasts. *)
Definition horizon (w : World) : Z := now w + total_elapsed (script w).

(** An [event_time] as the services store it: [:00] is appended when
    the text has exactly one colon. *)
Definition normalized_time (s : string) : string :=
  if (EventService.count_char ":" s =? 1)%nat then s ++ ":00" else s.

(** [v] is the integer [n], given as a number or as its decimal
    numeral. *)
Definition numeral (v : JsVal) (n : Z) : Prop :=
  v = JNum n \/ v = JStr (decimal n).

Section Tokens.
Context `{P : Platform}.

(** The row carries the reset token, as [WHERE reset_token = ?] sees
    it. *)
Definition matches (token : string) (c : CredRow) : bool :=
  match c_reset_token c with
  | Some t => sql_text_eq token t
  | None => false
  end.

End Tokens.

(** The call went through: it returned [true], made exactly the model
    call [c], and gave the connection back. *)
Definition went_through (c : ModelCall) (w : World) (out : Result JsVal * World)
  : Prop :=
  fst out = Ok (JBool true) /\ calls (snd out) = c :: calls w /\
  pool_out (snd out) = pool_out w.

(** A table read in key order, whatever the filters, and its size: the
    simplest [findAll] and [count]. *)
Definition all_rows (filters : gmap string JsVal)
    (table : gmap Z (gmap string JsVal)) : list (gmap string JsVal) :=
  (map_to_list table).*2.
Definition row_count (filters : gmap string JsVal)
    (table : gmap Z (gmap string JsVal)) : JsVal :=
  JNum (Z.of_nat (size table)).

End MoreSpec.
Export MoreSpec.

(** * Properties *)

(** ** Reasoning about computations *)

Module EffFacts.


Lemma hoare_conseq {A} (Pre Pre' : World -> Prop) (m : M A)
    (Post Post' : Result A -> World -> Prop) :
  hoare Pre' m Post' ->
  (forall w, Pre w -> Pre' w) ->
  (forall r w, Post' r w -> Post r w) ->
  hoare Pre m Post.
Proof. unfold hoare. intros Hm Hpre Hpost w r w' Hw E. eauto. Qed.

Lemma hoare_ret {A} (Pre : World -> Prop) (a : A) Post :
  (forall w, Pre w -> Post (Ok a) w) -> hoare Pre (ret a) Post.
Proof. intros H w r w' Hw E. inversion E; subst. auto. Qed.

Lemma hoare_throw {A} (Pre : World -> Prop) (e : Exn) (Post : Result A -> _) :
  (forall w, Pre w -> Post (Throw e) w) -> hoare Pre (throw e) Post.
Proof. intros H w r w' Hw E. inversion E; subst. auto. Qed.

Lemma hoare_bind {A B} (Pre : World -> Prop) (m : M A) (k : A -> M B)
    (Mid : Result A -> World -> Prop) (Post : Result B -> World -> Prop) :
  hoare Pre m Mid ->
  (forall a, hoare (Mid (Ok a)) (k a) Post) ->
  (forall e w, Mid (Throw e) w -> Post (Throw e) w) ->
  hoare Pre (bind m k) Post.
Proof.
  intros Hm Hk He w r w' Hw E. unfold bind in E.
  destruct (m w) as [[a|e] w1] eqn:Em.
  - eapply Hk; [eapply Hm; eauto | exact E].
  - inversion E; subst. eapply He, Hm; eauto.
Qed.

Lemma hoare_try_catch {A} (Pre : World -> Prop) (m : M A) (h : Exn -> M A)
    (Mid : Result A -> World -> Prop) (Post : Result A -> World -> Prop) :
  hoare Pre m Mid ->
  (forall e, hoare (Mid (Throw e)) (h e) Post) ->
  (forall a w, Mid (Ok a) w -> Post (Ok a) w) ->
  hoare Pre (try_catch m h) Post.
Proof.
  intros Hm Hh Hok w r w' Hw E. unfold try_catch in E.
  destruct (m w) as [[a|e] w1] eqn:Em.
  - inversion E; subst. eapply Hok, Hm; eauto.
  - eapply Hh; [eapply Hm; eauto | exact E].
Qed.

Lemma hoare_finally {A} (Pre : World -> Prop) (m : M A) (f : M unit)
    (Mid : Result A -> World -> Prop) (Post : Result A -> World -> Prop) :
  hoare Pre m Mid ->
  (forall r, hoare (Mid r) f
     (fun r' w => match r' with Ok _ => Post r w | Throw e => Post (Throw e) w end)) ->
  hoare Pre (finally m f) Post.
Proof.
  intros Hm Hf w r w' Hw E. unfold finally in E.
  destruct (m w) as [r1 w1] eqn:Em.
  destruct (f w1) as [[u|e] w2] eqn:Ef; inversion E; subst.
  - exact (Hf r w1 (Ok u) w' (Hm _ _ _ Hw Em) Ef).
  - exact (Hf r1 w1 (Throw e) w' (Hm _ _ _ Hw Em) Ef).
Qed.

Lemma hoare_gets {A} (Pre : World -> Prop) (f : World -> A) Post :
  (forall w, Pre w -> Post (Ok (f w)) w) -> hoare Pre (gets f) Post.
Proof. intros H w r w' Hw E. inversion E; subst. auto. Qed.

Lemma hoare_modify (Pre : World -> Prop) (f : World -> World) Post :
  (forall w, Pre w -> Post (Ok tt) (f w)) -> hoare Pre (modify f) Post.
Proof. intros H w r w' Hw E. inversion E; subst. auto. Qed.

(** A fact that does not depend on the world can be taken out of the
    precondition. *)
Lemma hoare_pure {A} (phi : Prop) (Pre : World -> Prop) (m : M A) Post :
  (phi -> hoare Pre m Post) -> hoare (fun w => phi /\ Pre w) m Post.
Proof. intros H w r w' [Hphi Hw] E. exact (H Hphi w r w' Hw E). Qed.

Lemma hoare_pure_r {A} (phi : Prop) (Pre : World -> Prop) (m : M A) Post :
  (phi -> hoare Pre m Post) -> hoare (fun w => Pre w /\ phi) m Post.
Proof. intros H w r w' [Hw Hphi] E. exact (H Hphi w r w' Hw E). Qed.

(** An awaited call leaves the world ticked, whether it rejects or not,
    and what it rejects with is unclassified. *)
Lemma hoare_await_env (Pre : World -> Prop) Post :
  (forall w, Pre w -> Post (Ok tt) (tick w)) ->
  (forall w msg, Pre w -> Post (Throw (Unclassified msg)) (tick w)) ->
  hoare Pre await_env Post.
Proof.
  intros Hok Hrej w r w' Hw E. unfold await_env in E.
  inversion E; subst.
  destruct (script w) as [|s rest]; auto.
  destruct (rejects s); auto.
Qed.

Lemma hoare_draw (Pre : World -> Prop) Post :
  (forall w n, Pre w -> Post (Ok n) (set_entropy (tail (entropy w)) w)) ->
  hoare Pre draw Post.
Proof. intros H w r w' Hw E. inversion E; subst. auto. Qed.

(** On a calm world an awaited call succeeds. *)
Lemma await_env_calm w : calm w = true -> await_env w = (Ok tt, tick w).
Proof.
  unfold calm, await_env. destruct (script w) as [|s rest]; [reflexivity|].
  simpl. destruct (rejects s); [discriminate | reflexivity].
Qed.

Lemma calm_tick w : calm w = true -> calm (tick w) = true.
Proof.
  unfold calm, tick. simpl. destruct (script w) as [|s rest]; [reflexivity|].
  simpl. intros H. apply andb_prop in H. tauto.
Qed.

Lemma now_tick w : now w <= now (tick w).
Proof. unfold tick. simpl. lia. Qed.

(** *** Running a computation on a calm world *)

Ltac calm_tac :=
  lazymatch goal with
  | |- calm (tick ?w) = true => apply calm_tick; calm_tac
  | |- calm (set_db _ ?w) = true => change (calm w = true); calm_tac
  | |- calm (set_tx _ ?w) = true => change (calm w = true); calm_tac
  | |- calm (set_events _ ?w) = true => change (calm w = true); calm_tac
  | |- calm (set_blogs _ ?w) = true => change (calm w = true); calm_tac
  | |- calm (set_next_id _ ?w) = true => change (calm w = true); calm_tac
  | |- calm (set_entropy _ ?w) = true => change (calm w = true); calm_tac
  | |- calm (set_pool_out _ ?w) = true => change (calm w = true); calm_tac
  | |- calm (record_call _ ?w) = true => change (calm w = true); calm_tac
  | |- _ => assumption
  end.

Ltac unfold_eff :=
  cbv beta iota zeta delta
    [bind ret throw try_catch finally gets modify draw
     pool_query conn_query getConnection release beginTransaction commit rollback
     select exec exec_at fresh_id bcrypt_hash_m bcrypt_compare_m
     findById write_row create_row fst snd].

(** Reads a field of a world built by ticks and setters. *)
Ltac wsimpl_proj p :=
  repeat match goal with
  | |- context [p ?g] =>
      tryif is_var g then fail else
        (let t := eval cbn [db tx events blogs next_id script entropy pool_out calls
                            tick set_clock set_db set_tx set_events set_blogs
                            set_next_id set_entropy set_pool_out record_call]
                  in (p g) in
         progress change (p g) with t)
  end.

Ltac wsimpl :=
  wsimpl_proj db; wsimpl_proj tx; wsimpl_proj events; wsimpl_proj blogs;
  wsimpl_proj calls; wsimpl_proj entropy; wsimpl_proj pool_out; wsimpl_proj next_id.

(** Unfolds the combinators and lets every awaited call succeed. *)
Ltac run :=
  unfold_eff; wsimpl;
  repeat (rewrite await_env_calm by calm_tac; unfold_eff; wsimpl).

End EffFacts.
Import EffFacts.

(** ** parseInt on decimal numerals *)

Module ParseIntFacts.


Lemma parse_digits_uint d acc :
  parse_digits 10 (NilEmpty.string_of_uint d) (Some acc) = Some (uint_val d acc).
Proof.
  revert acc. induction d; intros acc; simpl; try reflexivity;
    rewrite IHd; reflexivity.
Qed.

Lemma parse_digits_uint_start d :
  d <> Decimal.Nil ->
  parse_digits 10 (NilEmpty.string_of_uint d) None = Some (uint_val d 0).
Proof.
  destruct d; intros Hd; try congruence; simpl;
    rewrite parse_digits_uint; reflexivity.
Qed.

Lemma uint_val_pos d (acc : positive) :
  uint_val d (Z.pos acc) = Z.pos (Pos.of_uint_acc d acc).
Proof.
  revert acc. induction d; intros acc; simpl; try reflexivity;
    match goal with
    | |- uint_val _ ?z = Z.pos (Pos.of_uint_acc _ ?p) =>
        replace z with (Z.pos p) by lia
    end; apply IHd.
Qed.

Lemma uint_val_zero d : uint_val d 0 = Z.of_N (Pos.of_uint d).
Proof.
  induction d; simpl; try reflexivity; try exact IHd;
    match goal with
    | |- uint_val _ ?z = _ => change z with (Z.pos 1)
    | |- uint_val _ ?z = _ => change z with (Z.pos 2)
    | |- uint_val _ ?z = _ => change z with (Z.pos 3)
    | |- uint_val _ ?z = _ => change z with (Z.pos 4)
    | |- uint_val _ ?z = _ => change z with (Z.pos 5)
    | |- uint_val _ ?z = _ => change z with (Z.pos 6)
    | |- uint_val _ ?z = _ => change z with (Z.pos 7)
    | |- uint_val _ ?z = _ => change z with (Z.pos 8)
    | |- uint_val _ ?z = _ => change z with (Z.pos 9)
    end; apply uint_val_pos.
Qed.

(** A numeral starts with a digit: nothing to trim, no sign, and no
    [0x] prefix since its second character, if any, is a digit too. *)
Lemma numeral_prefix d :
  d <> Decimal.Nil ->
  let s := NilEmpty.string_of_uint d in
  trim_start s = s /\ strip_sign s = (1, s) /\ strip_radix s = (10, s).
Proof.
  intros Hd. destruct d; try congruence; simpl;
    (split; [reflexivity | split; [reflexivity |]]);
    try reflexivity; destruct d; reflexivity.
Qed.

Lemma parseInt_string_uint d :
  d <> Decimal.Nil ->
  parseInt_string (NilEmpty.string_of_uint d) = JNum (uint_val d 0).
Proof.
  intros Hd. destruct (numeral_prefix d Hd) as (Ht & Hs & Hr).
  unfold parseInt_string. rewrite Ht, Hs, Hr.
  rewrite (parse_digits_uint_start d Hd). f_equal; lia.
Qed.

Lemma parseInt_string_neg_uint d :
  d <> Decimal.Nil ->
  parseInt_string (String "-" (NilEmpty.string_of_uint d)) = JNum (- uint_val d 0).
Proof.
  intros Hd. destruct (numeral_prefix d Hd) as (Ht & Hs & Hr).
  unfold parseInt_string.
  change (trim_start (String "-" ?s)) with (String "-" s).
  cbn [strip_sign]. rewrite Hr.
  rewrite (parse_digits_uint_start d Hd). f_equal; lia.
Qed.

Lemma to_uint_not_nil p : Pos.to_uint p <> Decimal.Nil.
Proof.
  intros H. pose proof (DecimalPos.Unsigned.of_to p) as E.
  rewrite H in E. discriminate.
Qed.

Lemma nilzero_nilempty d :
  d <> Decimal.Nil -> NilZero.string_of_uint d = NilEmpty.string_of_uint d.
Proof. destruct d; [congruence | reflexivity ..]. Qed.

(** [parseInt] of the decimal numeral of [n] is [n]. *)
Lemma parseInt_decimal (n : Z) : parseInt_string (decimal n) = JNum n.
Proof.
  unfold decimal. destruct n as [|p|p]; [reflexivity | |].
  - simpl. pose proof (to_uint_not_nil p) as Hp.
    rewrite (nilzero_nilempty _ Hp).
    rewrite (parseInt_string_uint _ Hp), uint_val_zero.
    rewrite DecimalPos.Unsigned.of_to. reflexivity.
  - simpl. pose proof (to_uint_not_nil p) as Hp.
    rewrite (nilzero_nilempty _ Hp).
    rewrite (parseInt_string_neg_uint _ Hp), uint_val_zero.
    rewrite DecimalPos.Unsigned.of_to. reflexivity.
Qed.

(** [parseInt(n)] of an integer number is that number. *)
Lemma parseInt_JNum (n : Z) : parseInt (JNum n) = JNum n.
Proof. apply parseInt_decimal. Qed.

Example parseInt_of_numeral : parseInt (JStr "7") = JNum 7.
Proof. reflexivity. Qed.

(** [parseInt] stops at the first character that is no digit, skips
    leading blanks, reads a sign and a [0x] prefix, and gives [NaN] when
    there is no digit to read. *)
Example parseInt_lenient :
  parseInt (JStr " -7abc") = JNum (-7) /\
  parseInt (JStr "0x1f") = JNum 31 /\
  parseInt (JStr "abc") = JNaN /\
  parseInt JUndefined = JNaN /\
  parseInt (JNum 1204) = JNum 1204.
Proof. repeat split. Qed.

(** The blanks skipped include those of more than one byte: a no-break
    space (U+00A0), a byte order mark (U+FEFF) and a line separator
    (U+2028) before the digits; a byte that only starts like one of
    them is no blank. *)
Example parseInt_unicode_blanks :
  parseInt (JStr (String (ascii_of_nat 194) (String (ascii_of_nat 160) "7"))) = JNum 7 /\
  parseInt (JStr (String (ascii_of_nat 239) (String (ascii_of_nat 187)
                    (String (ascii_of_nat 191) " 42")))) = JNum 42 /\
  parseInt (JStr (String (ascii_of_nat 226) (String (ascii_of_nat 128)
                    (String (ascii_of_nat 168) "-3")))) = JNum (-3) /\
  parseInt (JStr (String (ascii_of_nat 194) (String (ascii_of_nat 161) "7"))) = JNaN.
Proof. repeat split. Qed.

(** What [parses_exactly] admits and what it leaves out. *)
Example parses_exactly_range :
  parses_exactly (JNum 7) = true /\
  parses_exactly (JStr " 7") = true /\
  parses_exactly (JStr "abc") = true /\
  parses_exactly (JNum (10 ^ 21)) = false /\
  parses_exactly (JStr "9007199254740993") = false.
Proof. repeat split. Qed.

End ParseIntFacts.

(** ** Input validation of the resource services *)

Module Validation.
Import EventService BlogService.


Lemma strict_eq_true a b : strict_eq a b = true -> a = b.
Proof.
  destruct a, b; simpl; try discriminate; try reflexivity; intros H.
  - apply Bool.eqb_prop in H. congruence.
  - apply Z.eqb_eq in H. congruence.
  - apply String.eqb_eq in H. congruence.
Qed.

Lemma includes_false (l : list string) (v : JsVal) :
  (forall s, In s l -> v <> JStr s) -> includes l v = false.
Proof.
  induction l as [|s l IH]; intros H; [reflexivity|].
  change (includes (s :: l) v) with (strict_eq (JStr s) v || includes l v).
  destruct (strict_eq (JStr s) v) eqn:E.
  - apply strict_eq_true in E. exfalso. apply (H s); [left; reflexivity | congruence].
  - apply IH. intros s' Hs'. apply H. right. exact Hs'.
Qed.

Lemma includes_true (l : list string) (s : string) :
  In s l -> includes l (JStr s) = true.
Proof.
  induction l as [|s' l IH]; intros H; [destruct H|].
  change (includes (s' :: l) (JStr s)) with ((s' =? s)%string || includes l (JStr s)).
  destruct H as [->|H].
  - rewrite String.eqb_refl. reflexivity.
  - rewrite (IH H). apply orb_true_r.
Qed.

Lemma missing_event_field (eventData : gmap string JsVal) :
  missing_fields required_event_fields eventData <> [] ->
  negb (truthy (get eventData "event_name"))
  || negb (truthy (get eventData "event_date"))
  || negb (truthy (get eventData "event_time"))
  || negb (truthy (get eventData "location"))
  || negb (truthy (get eventData "event_type")) = true.
Proof.
  unfold missing_fields, required_event_fields. simpl.
  destruct (truthy (get eventData "event_name")); [|reflexivity].
  destruct (truthy (get eventData "event_date")); [|reflexivity].
  destruct (truthy (get eventData "event_time")); [|reflexivity].
  destruct (truthy (get eventData "location")); [|reflexivity].
  destruct (truthy (get eventData "event_type")); [|reflexivity].
  simpl. congruence.
Qed.

Lemma missing_blog_field (blogData : gmap string JsVal) :
  missing_fields required_blog_fields blogData <> [] ->
  negb (truthy (get blogData "title"))
  || negb (truthy (get blogData "category"))
  || negb (truthy (get blogData "content")) = true.
Proof.
  unfold missing_fields, required_blog_fields. simpl.
  destruct (truthy (get blogData "title")); [|reflexivity].
  destruct (truthy (get blogData "category")); [|reflexivity].
  destruct (truthy (get blogData "content")); [|reflexivity].
  simpl. congruence.
Qed.

Lemma missing_incl required data : incl (missing_fields required data) required.
Proof. intros f Hf. apply filter_In in Hf. tauto. Qed.


(** C3, as stated, fails: for a body that lacks only [event_name],
    [createEvent] raises a ValidationError whose field list also holds
    [event_date], a field that was supplied. *)
Lemma createEvent_lists_supplied_fields :
  missing_fields required_event_fields event_without_name = ["event_name"] /\
  truthy (get event_without_name "event_date") = true /\
  exists fs,
    fst (createEvent event_without_name (JNum 7) (Demo.demo_world [])) =
      Throw (new_error_with ValidationError "Datos de evento incompletos" fs) /\
    In "event_date" fs.
Proof.
  split; [vm_compute; reflexivity|]. split; [vm_compute; reflexivity|].
  eexists. split; [vm_compute; reflexivity|]. simpl. tauto.
Qed.

(** C3, amended: when a required field is missing, [createEvent] and
    [createBlog] fail with a ValidationError whose field list is the
    fixed list of all required fields of the resource; so every missing
    field is listed, along with the required fields that were supplied.
    Nothing is persisted and no awaited call is made. *)
Theorem create_lists_all_required_fields
    (data : gmap string JsVal) (userId : JsVal) (w : World) :
  (missing_fields required_event_fields data <> [] ->
     createEvent data userId w =
       (Throw (new_error_with ValidationError "Datos de evento incompletos"
                 required_event_fields), w) /\
     incl (missing_fields required_event_fields data) required_event_fields) /\
  (missing_fields required_blog_fields data <> [] ->
     createBlog data userId w =
       (Throw (new_error_with ValidationError "Datos de blog incompletos"
                 required_blog_fields), w) /\
     incl (missing_fields required_blog_fields data) required_blog_fields).
Proof.
  split; intros H; (split; [|apply missing_incl]).
  - unfold createEvent. rewrite (missing_event_field data H). reflexivity.
  - unfold createBlog. rewrite (missing_blog_field data H). reflexivity.
Qed.

Lemma create_lists_all_required_fields_witness :
  missing_fields required_event_fields event_without_name <> [] /\
  createEvent event_without_name (JNum 7) (Demo.demo_world []) =
    (Throw (new_error_with ValidationError "Datos de evento incompletos"
              required_event_fields), Demo.demo_world []).
Proof.
  assert (H : missing_fields required_event_fields event_without_name <> [])
    by (vm_compute; discriminate).
  split; [exact H|].
  exact (proj1 (proj1 (create_lists_all_required_fields
                         event_without_name (JNum 7) (Demo.demo_world [])) H)).
Defined.

Section Status.
Context `{P : Platform}.

(** A status outside the four values the code lists is rejected with
    ValidationError, and the world is left as it was. *)
Lemma status_outside_enumeration (id status userId : JsVal) (w : World) :
  (forall s, In s ["activo"; "cancelado"; "pospuesto"; "completado"] ->
             status <> JStr s) ->
  exists msg,
    updateEventStatus id status userId w =
      (Throw (new_error ValidationError msg), w) /\
    (truthy id = true -> msg = "Estado de evento inválido").
Proof.
  intros H. unfold updateEventStatus.
  rewrite (includes_false event_statuses status H), orb_true_r.
  destruct (truthy id); cbn [negb].
  - eexists. split; [reflexivity | reflexivity].
  - eexists. split; [reflexivity | discriminate].
Qed.

(** One of the four values passes the validation: for an existing event
    whose owner reference is [parseInt(userId)], on a world where no
    awaited call fails, the call goes through. *)
Lemma status_in_enumeration (id userId : JsVal) (w : World) (k : Z)
    (event : gmap string JsVal) (s : string) :
  In s ["activo"; "cancelado"; "pospuesto"; "completado"] ->
  calm w = true -> truthy id = true -> sql_key id = Some k ->
  events w !! k = Some event ->
  strict_neq (get event "created_by") (parseInt userId) = false ->
  went_through (EventUpdateStatus id (JStr s)) w
               (updateEventStatus id (JStr s) userId w).
Proof.
  intros Hs Hc Hid Hk Hrow Hown. unfold went_through.
  assert (Ht : truthy (JStr s) = true)
    by (cbn in Hs; destruct Hs as [<-|[<-|[<-|[<-|[]]]]]; reflexivity).
  unfold updateEventStatus, updateEventStatus_body, Event_findById,
    Event_updateStatus, EventService.owner_catch.
  rewrite Ht, (includes_true event_statuses s Hs), Hid. cbn [negb orb].
  run. rewrite Hk. run. rewrite Hrow. run. rewrite Hown. run.
  rewrite ?Hk, ?Hrow. run. repeat split; reflexivity.
Qed.

(** C7, amended: the status is accepted only if it is one of the four
    values [activo], [cancelado], [pospuesto], [completado]: any other
    value, [archived] and the English [active] included, is rejected
    with ValidationError and the world is left as it was (no connection
    is taken and the event is not looked up, so neither existence nor
    ownership has been checked); and each of the four passes the
    validation: for an existing event and its owner, on a world where
    no awaited call fails, the call returns [true] and makes the one
    model call. *)
Theorem updateEventStatus_accepts_exactly_its_values
    (id userId : JsVal) (w : World) :
  (forall status,
     (forall s, In s ["activo"; "cancelado"; "pospuesto"; "completado"] ->
                status <> JStr s) ->
     exists msg,
       updateEventStatus id status userId w =
         (Throw (new_error ValidationError msg), w) /\
       (truthy id = true -> msg = "Estado de evento inválido")) /\
  (forall s k event,
     In s ["activo"; "cancelado"; "pospuesto"; "completado"] ->
     calm w = true -> truthy id = true -> sql_key id = Some k ->
     events w !! k = Some event ->
     strict_neq (get event "created_by") (parseInt userId) = false ->
     went_through (EventUpdateStatus id (JStr s)) w
                  (updateEventStatus id (JStr s) userId w)).
Proof.
  split.
  - intros status. apply status_outside_enumeration.
  - intros s k event Hs. apply status_in_enumeration, Hs.
Qed.

End Status.

Lemma updateEventStatus_accepts_exactly_its_values_witness :
  (exists msg,
     updateEventStatus (P := Demo.demo) (JNum 1) (JStr "archived") (JNum 7)
         (Demo.demo_world []) =
       (Throw (new_error ValidationError msg), Demo.demo_world []) /\
     (truthy (JNum 1) = true -> msg = "Estado de evento inválido")) /\
  went_through (EventUpdateStatus (JNum 1) (JStr "cancelado")) (Demo.demo_world [])
    (updateEventStatus (P := Demo.demo) (JNum 1) (JStr "cancelado") (JNum 7)
       (Demo.demo_world [])).
Proof.
  destruct (updateEventStatus_accepts_exactly_its_values (P := Demo.demo)
              (JNum 1) (JNum 7) (Demo.demo_world [])) as [Hout Hin].
  split.
  - apply Hout. intros s Hs. simpl in Hs.
    destruct Hs as [<-|[<-|[<-|[<-|[]]]]]; discriminate.
  - apply (Hin "cancelado" 1 Demo.demo_event);
      [right; left; reflexivity | reflexivity ..].
Defined.

(** C7, as stated, fails: [active], the first of the four values the
    claim names, is rejected with ValidationError, and [activo], which
    is none of them, is accepted. *)
Lemma updateEventStatus_active_is_rejected :
  fst (updateEventStatus (P := Demo.demo) (JNum 1) (JStr "active") (JNum 7)
         (Demo.demo_world [])) =
    Throw (new_error ValidationError "Estado de evento inválido") /\
  fst (updateEventStatus (P := Demo.demo) (JNum 1) (JStr "activo") (JNum 7)
         (Demo.demo_world [])) = Ok (JBool true).
Proof. split; vm_compute; reflexivity. Qed.

End Validation.

(** ** The credential subsystem *)

Module Credentials.
Import AuthService.

Section Login.
Context `{P : Platform}.

Lemma login_unknown_email (email password : string) (w : World) :
  calm w = true ->
  users_by_email email (db w) = [] ->
  fst (login email password w) =
    Throw (new_error AuthenticationError "Invalid email or password").
Proof.
  intros Hc Hu. unfold login, login_body. run. rewrite Hu. run.
  reflexivity.
Qed.

Lemma login_wrong_password (email password : string) (w : World) u us c cs :
  calm w = true ->
  users_by_email email (db w) = u :: us ->
  creds_by_user_key (u_id u) (db w) = c :: cs ->
  bcrypt_compare password (c_password c) = false ->
  fst (login email password w) =
    Throw (new_error AuthenticationError "Invalid email or password").
Proof.
  intros Hc Hu Hcr Hpw. unfold login, login_body. run. rewrite Hu. run.
  rewrite Hcr. run. rewrite Hpw. run. reflexivity.
Qed.

(** C1, what the code does: when the email matches a user that has no
    row in [auth_credentials], [login] raises an AuthenticationError
    whose message is not the one raised for an unknown email or a wrong
    password. *)
Theorem login_missing_credentials_message
    (email password : string) (w : World) u us :
  calm w = true ->
  users_by_email email (db w) = u :: us ->
  creds_by_user_key (u_id u) (db w) = [] ->
  fst (login email password w) =
    Throw (new_error AuthenticationError "No authentication credentials found") /\
  forall email' password',
    users_by_email email' (db w) = [] ->
    fst (login email' password' w) <> fst (login email password w).
Proof.
  intros Hc Hu Hcr.
  assert (E : fst (login email password w) =
              Throw (new_error AuthenticationError
                       "No authentication credentials found")).
  { unfold login, login_body. run. rewrite Hu. run. rewrite Hcr. run.
    reflexivity. }
  split; [exact E|].
  intros email' password' Hu'.
  rewrite E, (login_unknown_email email' password' w Hc Hu'). discriminate.
Qed.

End Login.

Lemma login_missing_credentials_message_witness :
  fst (login (P := Demo.demo) "carol@example.com" "x" (Demo.demo_world [])) =
    Throw (new_error AuthenticationError "No authentication credentials found") /\
  fst (login (P := Demo.demo) "nobody@example.com" "x" (Demo.demo_world [])) <>
  fst (login (P := Demo.demo) "carol@example.com" "x" (Demo.demo_world [])).
Proof.
  destruct (login_missing_credentials_message (P := Demo.demo)
              "carol@example.com" "x" (Demo.demo_world []) Demo.carol [])
    as [E D]; [reflexivity | reflexivity | reflexivity |].
  split; [exact E|]. apply D. reflexivity.
Defined.

End Credentials.

(** ** Invariants kept by every outcome *)

Module Invariants.
Section Invariants.
Context `{P : Platform}.
Context (Inv : World -> Prop).


Lemma preserves_ret {A} (a : A) : preserves Inv (ret a).
Proof. apply hoare_ret. auto. Qed.

Lemma preserves_throw {A} (e : Exn) : preserves Inv (throw (A := A) e).
Proof. apply hoare_throw. auto. Qed.

Lemma preserves_gets {A} (f : World -> A) : preserves Inv (gets f).
Proof. apply hoare_gets. auto. Qed.

Lemma preserves_bind {A B} (m : M A) (k : A -> M B) :
  preserves Inv m -> (forall a, preserves Inv (k a)) -> preserves Inv (bind m k).
Proof. intros Hm Hk. eapply hoare_bind with (Mid := fun _ => Inv); eauto. Qed.

Lemma preserves_try_catch {A} (m : M A) (h : Exn -> M A) :
  preserves Inv m -> (forall e, preserves Inv (h e)) ->
  preserves Inv (try_catch m h).
Proof. intros Hm Hh. eapply hoare_try_catch with (Mid := fun _ => Inv); eauto. Qed.

Lemma preserves_finally {A} (m : M A) (f : M unit) :
  preserves Inv m -> preserves Inv f -> preserves Inv (finally m f).
Proof.
  intros Hm Hf. eapply hoare_finally with (Mid := fun _ => Inv); [exact Hm|].
  intros r w r' w' Hw E. specialize (Hf w r' w' Hw E). destruct r'; exact Hf.
Qed.

Lemma preserves_await_env : stable Inv -> preserves Inv await_env.
Proof. intros S. apply hoare_await_env; intros; apply S; auto. Qed.

Lemma preserves_draw : stable Inv -> preserves Inv draw.
Proof. intros S. apply hoare_draw. intros. apply S; auto. Qed.

Lemma preserves_fresh_id : stable Inv -> preserves Inv fresh_id.
Proof. intros S w r w' Hw E. inversion E; subst. apply S; auto. Qed.

Lemma preserves_release : stable Inv -> preserves Inv release.
Proof. intros S. apply hoare_modify. intros. apply S; auto. Qed.

Lemma preserves_getConnection : stable Inv -> preserves Inv getConnection.
Proof.
  intros S. apply preserves_bind; [apply preserves_await_env; exact S|].
  intros _. apply hoare_modify. intros. apply S; auto.
Qed.

Lemma preserves_bcrypt_hash_m password : stable Inv -> preserves Inv (bcrypt_hash_m password).
Proof.
  intros S. apply preserves_bind; [apply preserves_await_env; exact S|].
  intros _. apply preserves_bind; [apply preserves_draw; exact S|].
  intros salt. apply preserves_ret.
Qed.

Lemma preserves_bcrypt_compare_m password hash :
  stable Inv -> preserves Inv (bcrypt_compare_m password hash).
Proof.
  intros S. apply preserves_bind; [apply preserves_await_env; exact S|].
  intros _. destruct hash; first [apply preserves_ret | apply preserves_throw].
Qed.

(** A pooled statement keeps [Inv] when writing its resulting rows
    does. *)
Lemma preserves_pool_query {A} (q : Z -> Db -> A * Db) :
  stable Inv ->
  (forall w, Inv w -> Inv (set_db (snd (q (now w) (db w))) w)) ->
  preserves Inv (pool_query q).
Proof.
  intros S Hq. apply preserves_bind; [apply preserves_await_env; exact S|].
  intros _ w r w' Hw E. specialize (Hq w Hw).
  destruct (q (now w) (db w)) as [a d]. inversion E; subst. exact Hq.
Qed.

End Invariants.
End Invariants.

(** ** Password reset *)

Module Reset.
Import AuthService Invariants.
Section Reset.
Context `{P : Platform}.


Lemma expires_after_mono (c : CredRow) (t0 t : Z) :
  t0 <= t -> expires_after t0 c = false -> expires_after t c = false.
Proof.
  unfold expires_after. destruct (c_reset_token_expires c) as [e|]; [|reflexivity].
  intros Ht H. apply Z.ltb_ge in H. apply Z.ltb_ge. lia.
Qed.

Lemma row_kept_stable i c t0 : stable (row_kept i c t0).
Proof.
  split; unfold row_kept; intros w; intros; [|assumption..].
  cbn [db tick set_clock]. split; [tauto|].
  pose proof (now_tick w). lia.
Qed.

Lemma row_kept_set_same i c t0 w : row_kept i c t0 w -> row_kept i c t0 (set_db (db w) w).
Proof. unfold row_kept. cbn [db set_db now]. tauto. Qed.

(** The conditional UPDATE leaves a row alone whose expiry is not in the
    future. *)
Lemma consume_reset_token_keeps i c t0 k hash w :
  expires_after t0 c = false ->
  row_kept i c t0 w ->
  row_kept i c t0 (set_db (consume_reset_token k hash (now w) (db w)) w).
Proof.
  intros Hexp [Hrow Ht]. unfold row_kept. cbn [db set_db now].
  split; [|exact Ht].
  unfold consume_reset_token, map_creds. cbn [auth_credentials].
  rewrite list_lookup_fmap, Hrow. cbn [fmap option_fmap option_map].
  rewrite (expires_after_mono c t0 (now w) Ht Hexp), andb_false_r. reflexivity.
Qed.

(** Whatever [resetPassword] does, with whatever token, a row whose
    expiry is not in the future is the same afterwards. *)
Lemma resetPassword_keeps_expired_row (token newPassword : string) i c t0 :
  expires_after t0 c = false ->
  preserves (row_kept i c t0) (resetPassword token newPassword).
Proof.
  intros Hexp. pose proof (row_kept_stable i c t0) as S.
  unfold resetPassword, resetPassword_body.
  apply preserves_try_catch.
  - apply preserves_bind.
    + apply preserves_pool_query; [exact S|]. intros w Hw. apply row_kept_set_same, Hw.
    + intros [|credential rest]; [apply preserves_throw|].
      apply preserves_bind; [apply preserves_bcrypt_hash_m, S|].
      intros hashedPassword.
      apply preserves_bind; [|intros _; apply preserves_ret].
      apply preserves_pool_query; [exact S|]. intros w Hw.
      apply consume_reset_token_keeps; assumption.
  - intros e. unfold resetPassword_catch.
    destruct (instanceof e ValidationError); apply preserves_throw.
Qed.

(** C6: if a row of [auth_credentials] carries the token and its expiry
    is in the past, then after [resetPassword] with that token, however
    the call ends, the row is as it was: same password hash, same reset
    token, same expiry. *)
Theorem resetPassword_expired_token_no_effect
    (token newPassword : string) (w : World) (i : nat) (c : CredRow) (e : Z)
    (r : Result bool) (w' : World) :
  auth_credentials (db w) !! i = Some c ->
  c_reset_token c = Some token ->
  c_reset_token_expires c = Some e ->
  e < now w ->
  resetPassword token newPassword w = (r, w') ->
  auth_credentials (db w') !! i = Some c.
Proof.
  intros Hrow _ He Hpast E.
  assert (Hexp : expires_after (now w) c = false).
  { unfold expires_after. rewrite He. apply Z.ltb_ge. lia. }
  apply (resetPassword_keeps_expired_row token newPassword i c (now w) Hexp w r w').
  - split; [exact Hrow | lia].
  - exact E.
Qed.

(** When a row carries the token, the lookup finds a row. *)
Lemma creds_by_reset_token_found (token : string) (d : Db) (c : CredRow) :
  In c (auth_credentials d) ->
  c_reset_token c = Some token ->
  exists c0 rest, creds_by_reset_token token d = c0 :: rest.
Proof.
  intros Hin Htok.
  assert (H : In c (creds_by_reset_token token d)).
  { unfold creds_by_reset_token. apply filter_In. split; [exact Hin|].
    rewrite Htok. apply sql_text_eq_refl. }
  destruct (creds_by_reset_token token d) as [|c0 rest]; [destruct H | eauto].
Qed.

(** The conditional UPDATE changes no row when every row with the key
    has an expiry that is not in the future. *)
Lemma consume_reset_token_noop k hash t d :
  (forall c, In c (auth_credentials d) -> c_id c = k -> expires_after t c = false) ->
  consume_reset_token k hash t d = d.
Proof.
  intros H. destruct d as [us cs]. unfold consume_reset_token, map_creds.
  cbn [users auth_credentials] in *. f_equal.
  rewrite <- (map_id cs) at 2. apply map_ext_in. intros c Hin.
  destruct (c_id c =? k) eqn:E; [|reflexivity].
  rewrite (H c Hin (proj1 (Z.eqb_eq _ _) E)). reflexivity.
Qed.

(** The row the lookup finds first is a row of the table and carries a
    token that compares equal to the one supplied. *)
Lemma creds_by_reset_token_head token d c0 rest :
  creds_by_reset_token token d = c0 :: rest ->
  In c0 (auth_credentials d) /\
  exists t, c_reset_token c0 = Some t /\ sql_text_eq token t = true.
Proof.
  intros Hf.
  assert (H : In c0 (creds_by_reset_token token d)) by (rewrite Hf; left; reflexivity).
  unfold creds_by_reset_token in H. apply filter_In in H. destruct H as [Hin Hm].
  split; [exact Hin|]. destruct (c_reset_token c0) as [t|]; [eauto | discriminate].
Qed.

(** C9: when some row carries the token and no awaited call fails,
    [resetPassword] returns [true], whatever the row's expiry; if that
    expiry is not in the future, the row is nevertheless left as it was;
    and if the keys are unique and every row the token matches has an
    expiry that is not in the future, no row at all is changed. *)
Theorem resetPassword_reports_success_when_expired
    (token newPassword : string) (w : World) (i : nat) (c : CredRow) :
  calm w = true ->
  auth_credentials (db w) !! i = Some c ->
  c_reset_token c = Some token ->
  fst (resetPassword token newPassword w) = Ok true /\
  (expires_after (now w) c = false ->
   auth_credentials (db (snd (resetPassword token newPassword w))) !! i = Some c) /\
  ((forall c1 c2, In c1 (auth_credentials (db w)) -> In c2 (auth_credentials (db w)) ->
                  c_id c1 = c_id c2 -> c1 = c2) ->
   (forall c' t, In c' (auth_credentials (db w)) -> c_reset_token c' = Some t ->
                 sql_text_eq token t = true -> expires_after (now w) c' = false) ->
   db (snd (resetPassword token newPassword w)) = db w).
Proof.
  intros Hc Hrow Htok.
  destruct (creds_by_reset_token_found token (db w) c) as (c0 & rest & Hf);
    [apply list_elem_of_In, list_elem_of_lookup; eauto | exact Htok |].
  split; [|split].
  - unfold resetPassword, resetPassword_body. run. rewrite Hf. run. reflexivity.
  - intros Hexp.
    destruct (resetPassword token newPassword w) as [r w'] eqn:E.
    apply (resetPassword_keeps_expired_row token newPassword i c (now w) Hexp w r w').
    + split; [exact Hrow | lia].
    + exact E.
  - intros Huniq Hexp.
    destruct (creds_by_reset_token_head token (db w) c0 rest Hf) as (Hin0 & t0 & Ht0 & Hm0).
    unfold resetPassword, resetPassword_body. run. rewrite Hf. run.
    match goal with
    | |- consume_reset_token _ _ ?T _ = _ => assert (Hnow : now w <= T)
    end.
    { repeat first [ apply Z.le_refl
                   | (etransitivity; [|apply now_tick]); cbn [now set_db set_entropy] ]. }
    apply consume_reset_token_noop. intros c' Hin' Hid'.
    rewrite (Huniq c' c0 Hin' Hin0 Hid').
    eapply expires_after_mono; [exact Hnow|]. eapply Hexp; eauto.
Qed.

End Reset.

Lemma resetPassword_expired_token_no_effect_witness :
  auth_credentials
    (db (snd (resetPassword (P := Demo.demo) "tok-7" "newsecret" (Demo.demo_world []))))
    !! 0%nat = Some Demo.alice_cred.
Proof.
  eapply (resetPassword_expired_token_no_effect (P := Demo.demo)
            "tok-7" "newsecret" (Demo.demo_world []) 0 Demo.alice_cred 1000).
  - reflexivity.
  - reflexivity.
  - reflexivity.
  - vm_compute. reflexivity.
  - apply surjective_pairing.
Defined.

Lemma resetPassword_reports_success_when_expired_witness :
  fst (resetPassword (P := Demo.demo) "tok-7" "newsecret" (Demo.demo_world [])) = Ok true /\
  auth_credentials
    (db (snd (resetPassword (P := Demo.demo) "tok-7" "newsecret" (Demo.demo_world []))))
    !! 0%nat = Some Demo.alice_cred.
Proof.
  destruct (resetPassword_reports_success_when_expired (P := Demo.demo)
              "tok-7" "newsecret" (Demo.demo_world []) 0 Demo.alice_cred)
    as (H1 & H2 & _); [reflexivity | reflexivity | reflexivity |].
  split; [exact H1 | apply H2; reflexivity].
Defined.

End Reset.

(** ** Registration *)

Module Registration.
Import AuthService Invariants.
Section Registration.
Context `{P : Platform}.


Lemma await_env_ok w : next_call_ok w = true -> await_env w = (Ok tt, tick w).
Proof.
  unfold next_call_ok, await_env. destruct (script w) as [|s rest]; [reflexivity|].
  destruct (rejects s); [discriminate | reflexivity].
Qed.


Lemma committed_stable d0 : stable (committed d0).
Proof. split; unfold committed; intros; assumption. Qed.

Lemma in_tx_stable d0 Phi : stable (in_tx d0 Phi).
Proof. split; unfold in_tx; intros; assumption. Qed.

Lemma in_tx_committed d0 Phi w : in_tx d0 Phi w -> committed d0 w.
Proof. unfold in_tx, committed. tauto. Qed.

Lemma beginTransaction_opens d0 :
  hoare (committed d0) beginTransaction
        (unless_thrown d0 (fun _ => in_tx d0 (fun _ => True))).
Proof.
  unfold beginTransaction.
  eapply hoare_bind with (Mid := fun _ => committed d0).
  - apply preserves_await_env, committed_stable.
  - intros _. apply hoare_modify. intros w Hw. unfold unless_thrown, in_tx.
    cbn [db tx set_tx]. split; [exact Hw | eauto].
  - intros e w Hw. exact Hw.
Qed.

(** A statement on the connection, inside the transaction, changes the
    transaction's rows only. *)
Lemma conn_query_in_tx {A} d0 (q : Z -> Db -> A * Db)
    (Phi : Db -> Prop) (Psi : A -> Db -> Prop) :
  (forall t d, Phi d -> Psi (fst (q t d)) (snd (q t d))) ->
  hoare (in_tx d0 Phi) (conn_query q)
        (unless_thrown d0 (fun a => in_tx d0 (Psi a))).
Proof.
  intros Hq. unfold conn_query.
  eapply hoare_bind with (Mid := fun _ => in_tx d0 Phi).
  - apply preserves_await_env, in_tx_stable.
  - intros _ w r w' (Hdb & t & Ht & Hphi) E. rewrite Ht in E.
    specialize (Hq (now w) t Hphi).
    destruct (q (now w) t) as [a d]. inversion E; subst.
    unfold unless_thrown, in_tx. cbn [db tx set_tx]. eauto.
  - intros e w Hw. eapply in_tx_committed, Hw.
Qed.

Lemma commit_or_committed d0 Phi :
  hoare (in_tx d0 Phi) commit (unless_thrown d0 (fun _ _ => True)).
Proof.
  unfold commit.
  eapply hoare_bind with (Mid := fun _ => in_tx d0 Phi).
  - apply preserves_await_env, in_tx_stable.
  - intros _. apply hoare_modify. intros; exact I.
  - intros e w Hw. eapply in_tx_committed, Hw.
Qed.

(** The handler of the transaction: roll back, release, rethrow. *)
Lemma rollback_handler_committed {A} d0 (error : Exn) :
  hoare (committed d0)
        (bind rollback (fun _ => bind release (fun _ => throw (A := A) error)))
        (fun _ => committed d0).
Proof.
  pose proof (committed_stable d0) as S.
  apply preserves_bind.
  - unfold rollback. apply preserves_bind; [apply preserves_await_env, S|].
    intros _. apply hoare_modify. intros w Hw. exact Hw.
  - intros _. apply preserves_bind; [apply preserves_release, S|].
    intros _. apply preserves_throw.
Qed.


Lemma insert_user_has_user k first last email phone status t d :
  has_user k (insert_user k first last email phone status t d).
Proof.
  unfold has_user, users_by_key, insert_user. cbn [users].
  rewrite List.filter_app. cbn [List.filter u_id]. rewrite Z.eqb_refl.
  intros H. apply app_eq_nil in H. destruct H as [_ H]. discriminate.
Qed.

Lemma register_transaction_atomic (userData : UserData) (hashedPassword : string) d0 :
  hoare (in_tx d0 (fun _ => True))
        (register_transaction userData hashedPassword)
        (unless_thrown d0 (fun _ _ => True)).
Proof.
  unfold register_transaction.
  eapply hoare_bind with (Mid := unless_thrown d0 (fun k => in_tx d0 (has_user k))).
  - (* INSERT INTO users *)
    eapply hoare_bind with (Mid := fun _ => in_tx d0 (fun _ => True)).
    + apply preserves_fresh_id, in_tx_stable.
    + intros k.
      eapply hoare_bind
        with (Mid := unless_thrown d0 (fun _ => in_tx d0 (has_user k))).
      * apply (conn_query_in_tx d0 _ (fun _ => True) (fun _ => has_user k)).
        intros t d ?. apply insert_user_has_user.
      * intros ?. apply hoare_ret. intros w Hw. exact Hw.
      * intros e w Hw. exact Hw.
    + intros e w Hw. eapply in_tx_committed, Hw.
  - intros userId.
    eapply hoare_bind
      with (Mid := unless_thrown d0 (fun _ => in_tx d0 (has_user userId))).
    + (* INSERT INTO auth_credentials *)
      eapply hoare_bind with (Mid := fun _ => in_tx d0 (has_user userId)).
      * apply preserves_fresh_id, in_tx_stable.
      * intros k.
        apply (conn_query_in_tx d0 _ (has_user userId) (fun _ => has_user userId)).
        intros t d Hd. exact Hd.
      * intros e w Hw. eapply in_tx_committed, Hw.
    + intros ?.
      eapply hoare_bind
        with (Mid := unless_thrown d0
                       (fun users w => users <> [] /\ in_tx d0 (fun _ => True) w)).
      * (* SELECT the created user *)
        eapply hoare_conseq.
        -- apply (conn_query_in_tx d0 (select (users_by_key userId))
                    (has_user userId) (fun users _ => users <> [])).
           intros t d Hd. exact Hd.
        -- intros w Hw. exact Hw.
        -- intros [users|e] w Hw; [|exact Hw].
           destruct Hw as (Hdb & t & Ht & Hu). split; [exact Hu|].
           split; [exact Hdb | eauto].
      * intros users. apply hoare_pure. intros Hu.
        eapply hoare_bind with (Mid := unless_thrown d0 (fun _ _ => True)).
        -- apply commit_or_committed.
        -- intros ?.
           eapply hoare_bind
             with (Mid := fun r _ => match r with Ok _ => True | Throw _ => False end).
           ++ apply hoare_modify. intros; exact I.
           ++ intros ?. destruct users as [|newUser rest]; [congruence|].
              apply hoare_ret. intros; exact I.
           ++ intros e w [].
        -- intros e w Hw. exact Hw.
      * intros e w Hw. exact Hw.
    + intros e w Hw. exact Hw.
  - intros e w Hw. exact Hw.
Qed.

(** However [register] fails, the committed rows are those it started
    from. *)
Lemma register_atomic (userData : UserData) d0 :
  hoare (committed d0) (register userData) (unless_thrown d0 (fun _ _ => True)).
Proof.
  pose proof (committed_stable d0) as S.
  unfold register.
  eapply hoare_try_catch with (Mid := unless_thrown d0 (fun _ _ => True)).
  - unfold register_body.
    eapply hoare_bind with (Mid := fun _ => committed d0).
    + apply preserves_pool_query; [exact S|]. intros w Hw. exact Hw.
    + intros existingUsers.
      destruct (0 <? length existingUsers)%nat.
      { apply hoare_throw. intros w Hw. exact Hw. }
      eapply hoare_bind with (Mid := fun _ => committed d0);
        [apply preserves_bcrypt_hash_m, S | | intros e w Hw; exact Hw].
      intros hashedPassword.
      eapply hoare_bind with (Mid := fun _ => committed d0);
        [apply preserves_getConnection, S | | intros e w Hw; exact Hw].
      intros [].
      eapply hoare_bind;
        [apply beginTransaction_opens | | intros e w Hw; exact Hw].
      intros [].
      eapply hoare_try_catch with (Mid := unless_thrown d0 (fun _ _ => True)).
      * apply register_transaction_atomic.
      * intros error. eapply hoare_conseq.
        -- apply (rollback_handler_committed d0 error).
        -- intros w Hw. exact Hw.
        -- intros [?|?] w Hw; [exact I | exact Hw].
      * intros a w Hw. exact I.
    + intros e w Hw. exact Hw.
  - intros error. unfold register_catch.
    destruct (instanceof error ValidationError);
      apply hoare_throw; intros w Hw; exact Hw.
  - intros a w Hw. exact I.
Qed.

Lemma users_by_email_found (email : string) (d : Db) (u : UserRow) :
  In u (users d) -> u_email u = email ->
  (0 <? length (users_by_email email d))%nat = true.
Proof.
  intros Hin He.
  assert (H : In u (users_by_email email d)).
  { unfold users_by_email. apply filter_In. split; [exact Hin|].
    rewrite He. apply sql_text_eq_refl. }
  destruct (users_by_email email d); [destruct H | reflexivity].
Qed.

(** [register] when the email is free, the INSERT into [users] has
    succeeded and the INSERT into [auth_credentials] rejects, the
    awaited ROLLBACK not rejecting in its turn. *)
Lemma register_credential_insert_rejects (userData : UserData) (w : World)
    (s1 s2 s3 s4 s5 s6 : Step) (rest : list Step) (msg : string) :
  users_by_email (email userData) (db w) = [] ->
  script w = s1 :: s2 :: s3 :: s4 :: s5 :: s6 :: rest ->
  rejects s1 = None -> rejects s2 = None -> rejects s3 = None ->
  rejects s4 = None -> rejects s5 = None ->
  rejects s6 = Some msg ->
  (forall s7 rest', rest = s7 :: rest' -> rejects s7 = None) ->
  fst (register userData w) = Throw (new_error DatabaseError "Failed to register user") /\
  db (snd (register userData w)) = db w /\
  tx (snd (register userData w)) = None /\
  pool_out (snd (register userData w)) = pool_out w.
Proof.
  intros Hfree Hs H1 H2 H3 H4 H5 H6 H7.
  unfold register, register_body, register_transaction. unfold_eff. unfold await_env.
  destruct w as [d t ev bl nid nw sc en po ca]. cbn [script db] in Hs, Hfree.
  subst sc.
  cbn [script db tx events blogs next_id now entropy pool_out calls
       tick set_clock set_db set_tx set_events set_blogs set_next_id set_entropy
       set_pool_out record_call tail].
  rewrite H1, Hfree. cbn [length Nat.ltb Nat.leb].
  cbn [script db tx events blogs next_id now entropy pool_out calls
       tick set_clock set_db set_tx set_events set_blogs set_next_id set_entropy
       set_pool_out record_call tail].
  rewrite H2.
  cbn [script db tx events blogs next_id now entropy pool_out calls
       tick set_clock set_db set_tx set_events set_blogs set_next_id set_entropy
       set_pool_out record_call tail].
  rewrite H3.
  cbn [script db tx events blogs next_id now entropy pool_out calls
       tick set_clock set_db set_tx set_events set_blogs set_next_id set_entropy
       set_pool_out record_call tail].
  rewrite H4.
  cbn [script db tx events blogs next_id now entropy pool_out calls
       tick set_clock set_db set_tx set_events set_blogs set_next_id set_entropy
       set_pool_out record_call tail].
  rewrite H5.
  cbn [script db tx events blogs next_id now entropy pool_out calls
       tick set_clock set_db set_tx set_events set_blogs set_next_id set_entropy
       set_pool_out record_call tail insert_user exec_at exec].
  rewrite H6.
  cbn [script db tx events blogs next_id now entropy pool_out calls
       tick set_clock set_db set_tx set_events set_blogs set_next_id set_entropy
       set_pool_out record_call tail].
  destruct rest as [|s7 rest'].
  - unfold register_catch. cbn. auto.
  - rewrite (H7 s7 rest' eq_refl). unfold register_catch. cbn. auto.
Qed.

(** C4: when a user with the email exists and the lookup itself does
    not fail, [register] raises ValidationError and leaves the world as
    it was but for the time spent; however [register] fails, the
    committed rows are those it started from: no user row is added; and
    when the INSERT into [auth_credentials] rejects after the INSERT
    into [users], the awaited ROLLBACK not rejecting in its turn, the
    caller gets DatabaseError, the transaction that held the new user
    row is closed and the connection is back in the pool. *)
Theorem register_duplicate_email_and_rollback (userData : UserData) (w : World) :
  (forall u,
     In u (users (db w)) -> u_email u = email userData ->
     next_call_ok w = true ->
     register userData w =
       (Throw (new_error ValidationError "Email is already registered"), tick w)) /\
  (forall e w', register userData w = (Throw e, w') -> db w' = db w) /\
  (forall s1 s2 s3 s4 s5 s6 rest msg,
     users_by_email (email userData) (db w) = [] ->
     script w = s1 :: s2 :: s3 :: s4 :: s5 :: s6 :: rest ->
     rejects s1 = None -> rejects s2 = None -> rejects s3 = None ->
     rejects s4 = None -> rejects s5 = None ->
     rejects s6 = Some msg ->
     (forall s7 rest', rest = s7 :: rest' -> rejects s7 = None) ->
     fst (register userData w) =
       Throw (new_error DatabaseError "Failed to register user") /\
     db (snd (register userData w)) = db w /\
     tx (snd (register userData w)) = None /\
     pool_out (snd (register userData w)) = pool_out w).
Proof.
  split; [|split].
  - intros u Hin He Hok.
    unfold register, register_body. unfold_eff.
    rewrite (await_env_ok w Hok). unfold_eff. wsimpl.
    rewrite (users_by_email_found (email userData) (db w) u Hin He).
    reflexivity.
  - intros e w' E.
    exact (register_atomic userData (db w) w (Throw e) w' eq_refl E).
  - exact (register_credential_insert_rejects userData w).
Qed.

End Registration.


Example register_credential_insert_fails :
  fst (register (P := Demo.demo) dan credential_insert_fails) =
    Throw (new_error DatabaseError "Failed to register user") /\
  tx (snd (register (P := Demo.demo) dan credential_insert_fails)) = None /\
  pool_out (snd (register (P := Demo.demo) dan credential_insert_fails)) = 0%nat.
Proof. vm_compute. auto. Qed.

Example register_succeeds :
  match fst (register (P := Demo.demo) dan (Demo.demo_world [])) with
  | Ok row => get row "email" = JStr "dan@example.com"
  | Throw _ => False
  end /\
  length (users (db (snd (register (P := Demo.demo) dan (Demo.demo_world []))))) = 4%nat /\
  length (auth_credentials
            (db (snd (register (P := Demo.demo) dan (Demo.demo_world []))))) = 3%nat.
Proof. vm_compute. repeat split. Qed.

Lemma register_duplicate_email_and_rollback_witness :
  register (P := Demo.demo)
      (mkUserData "Al" "A" "alice@example.com" None "pw") (Demo.demo_world []) =
    (Throw (new_error ValidationError "Email is already registered"),
     tick (Demo.demo_world [])) /\
  db (snd (register (P := Demo.demo) dan credential_insert_fails)) = Demo.demo_db /\
  tx (snd (register (P := Demo.demo) dan credential_insert_fails)) = None /\
  pool_out (snd (register (P := Demo.demo) dan credential_insert_fails)) = 0%nat.
Proof.
  destruct (register_duplicate_email_and_rollback (P := Demo.demo)
              (mkUserData "Al" "A" "alice@example.com" None "pw") (Demo.demo_world []))
    as (Hdup & _).
  destruct (register_duplicate_email_and_rollback (P := Demo.demo)
              dan credential_insert_fails)
    as (_ & Hkept & Hrolled).
  split; [|split].
  - apply (Hdup Demo.alice); [left; reflexivity | reflexivity | reflexivity].
  - apply (Hkept (new_error DatabaseError "Failed to register user")).
    vm_compute. reflexivity.
  - destruct (Hrolled Demo.ok_step Demo.ok_step Demo.ok_step Demo.ok_step
                Demo.ok_step Demo.bad_step [] "ECONNRESET"
                eq_refl eq_refl eq_refl eq_refl eq_refl eq_refl eq_refl eq_refl)
      as (_ & _ & Htx & Hpool); [intros s7 rest' H; discriminate H|].
    split; [exact Htx | exact Hpool].
Defined.

End Registration.

(** ** Error propagation in the credential subsystem *)

Module Propagation.
Import AuthService.
Section Propagation.
Context `{P : Platform}.


Section Rules.
Context (K : ErrorKind -> Prop).

Lemma raises_ret {A} (a : A) : raises_only K (ret a).
Proof. apply hoare_ret. intros; exact I. Qed.

Lemma raises_throw {A} (k : ErrorKind) (msg : string) :
  K k -> raises_only K (throw (A := A) (new_error k msg)).
Proof. intros Hk. apply hoare_throw. intros; exact Hk. Qed.

Lemma raises_throw_unclassified {A} (msg : string) :
  raises_only K (throw (A := A) (Unclassified msg)).
Proof. apply hoare_throw. intros; exact I. Qed.

Lemma raises_bind {A B} (m : M A) (k : A -> M B) :
  raises_only K m -> (forall a, raises_only K (k a)) -> raises_only K (bind m k).
Proof.
  intros Hm Hk. eapply hoare_bind; [exact Hm | | intros e w H; exact H].
  intros a. eapply hoare_conseq; [apply Hk | intros; exact I | intros r w H; exact H].
Qed.

Lemma raises_await_env : raises_only K await_env.
Proof. apply hoare_await_env; intros; exact I. Qed.

Lemma raises_gets {A} (f : World -> A) : raises_only K (gets f).
Proof. apply hoare_gets. intros; exact I. Qed.

Lemma raises_modify (f : World -> World) : raises_only K (modify f).
Proof. apply hoare_modify. intros; exact I. Qed.

Lemma raises_draw : raises_only K draw.
Proof. apply hoare_draw. intros; exact I. Qed.

Lemma raises_fresh_id : raises_only K fresh_id.
Proof. intros w r w' _ E. inversion E; subst. exact I. Qed.

Lemma raises_pool_query {A} (q : Z -> Db -> A * Db) : raises_only K (pool_query q).
Proof.
  apply raises_bind; [apply raises_await_env|].
  intros _ w r w' _ E. destruct (q (now w) (db w)). inversion E; subst. exact I.
Qed.

Lemma raises_conn_query {A} (q : Z -> Db -> A * Db) : raises_only K (conn_query q).
Proof.
  apply raises_bind; [apply raises_await_env|].
  intros _ w r w' _ E. destruct (tx w) as [t|].
  - destruct (q (now w) t). inversion E; subst. exact I.
  - destruct (q (now w) (db w)). inversion E; subst. exact I.
Qed.

Lemma raises_getConnection : raises_only K getConnection.
Proof. apply raises_bind; [apply raises_await_env | intros; apply raises_modify]. Qed.

Lemma raises_beginTransaction : raises_only K beginTransaction.
Proof. apply raises_bind; [apply raises_await_env | intros; apply raises_modify]. Qed.

Lemma raises_commit : raises_only K commit.
Proof. apply raises_bind; [apply raises_await_env | intros; apply raises_modify]. Qed.

Lemma raises_rollback : raises_only K rollback.
Proof. apply raises_bind; [apply raises_await_env | intros; apply raises_modify]. Qed.

Lemma raises_bcrypt_hash_m password : raises_only K (bcrypt_hash_m password).
Proof.
  apply raises_bind; [apply raises_await_env|]. intros _.
  apply raises_bind; [apply raises_draw | intros; apply raises_ret].
Qed.

Lemma raises_bcrypt_compare_m password hash :
  raises_only K (bcrypt_compare_m password hash).
Proof.
  apply raises_bind; [apply raises_await_env|]. intros _.
  destruct hash; first [apply raises_ret | apply raises_throw_unclassified].
Qed.

Lemma raises_jwt_verify_m token secret : raises_only K (jwt_verify_m token secret).
Proof.
  intros w r w' _ E. unfold jwt_verify_m in E.
  destruct (jwt_verify token secret (now w)); inversion E; subst; exact I.
Qed.

Lemma raises_rethrow {A} (e : Exn) :
  match e with Domain d => K (kind d) | Unclassified _ => True end ->
  raises_only K (throw (A := A) e).
Proof. intros He. apply hoare_throw. intros; exact He. Qed.

(** A handler adds no kind if it raises none beyond that of the
    exception it caught. *)
Lemma raises_try_catch {A} (m : M A) (h : Exn -> M A) :
  raises_only K m ->
  (forall e, match e with Domain d => K (kind d) | Unclassified _ => True end ->
             raises_only K (h e)) ->
  raises_only K (try_catch m h).
Proof.
  intros Hm Hh. eapply hoare_try_catch; [exact Hm | | intros a w H; exact H].
  intros e w r w' He E. exact (Hh e He w r w' I E).
Qed.

End Rules.

(** *** What each try block can raise *)

Lemma getUserById_body_raises userId :
  raises_only (fun k => k = NotFoundError) (getUserById_body userId).
Proof.
  unfold getUserById_body. apply raises_bind; [apply raises_pool_query|].
  intros [|u us]; [apply raises_throw; reflexivity | apply raises_ret].
Qed.

Lemma register_body_raises userData :
  raises_only (fun k => k = ValidationError) (register_body userData).
Proof.
  unfold register_body. apply raises_bind; [apply raises_pool_query|].
  intros existingUsers. destruct (0 <? length existingUsers)%nat;
    [apply raises_throw; reflexivity|].
  apply raises_bind; [apply raises_bcrypt_hash_m|]. intros hashedPassword.
  apply raises_bind; [apply raises_getConnection|]. intros _.
  apply raises_bind; [apply raises_beginTransaction|]. intros _.
  apply raises_try_catch.
  - unfold register_transaction.
    apply raises_bind.
    { apply raises_bind; [apply raises_fresh_id|]. intros k.
      apply raises_bind; [apply raises_conn_query | intros; apply raises_ret]. }
    intros userId.
    apply raises_bind.
    { apply raises_bind; [apply raises_fresh_id | intros; apply raises_conn_query]. }
    intros _. apply raises_bind; [apply raises_conn_query|]. intros users.
    apply raises_bind; [apply raises_commit|]. intros _.
    apply raises_bind; [apply raises_modify|]. intros _.
    destruct users; [apply raises_throw_unclassified | apply raises_ret].
  - intros error He.
    apply raises_bind; [apply raises_rollback|]. intros _.
    apply raises_bind; [apply raises_modify|]. intros _.
    apply raises_rethrow, He.
Qed.

Lemma login_body_raises email password :
  raises_only (fun k => k = AuthenticationError) (login_body email password).
Proof.
  unfold login_body. apply raises_bind; [apply raises_pool_query|].
  intros [|u us]; [apply raises_throw; reflexivity|].
  apply raises_bind; [apply raises_pool_query|].
  intros [|c cs]; [apply raises_throw; reflexivity|].
  apply raises_bind; [apply raises_bcrypt_compare_m|].
  intros isPasswordValid. destruct (negb isPasswordValid);
    [apply raises_throw; reflexivity|].
  apply raises_bind; [apply raises_gets|]. intros accessToken.
  apply raises_bind; [apply raises_gets|]. intros refreshToken.
  apply raises_bind; [apply raises_pool_query | intros; apply raises_ret].
Qed.

Lemma logout_body_raises userId : raises_only (fun _ => False) (logout_body userId).
Proof.
  unfold logout_body.
  apply raises_bind; [apply raises_pool_query | intros; apply raises_ret].
Qed.

Lemma resetPassword_body_raises token newPassword :
  raises_only (fun k => k = ValidationError) (resetPassword_body token newPassword).
Proof.
  unfold resetPassword_body. apply raises_bind; [apply raises_pool_query|].
  intros [|credential rest]; [apply raises_throw; reflexivity|].
  apply raises_bind; [apply raises_bcrypt_hash_m|]. intros hashedPassword.
  apply raises_bind; [apply raises_pool_query | intros; apply raises_ret].
Qed.

Lemma changePassword_body_raises userId currentPassword newPassword :
  raises_only (fun k => k = ValidationError \/ k = NotFoundError)
              (changePassword_body userId currentPassword newPassword).
Proof.
  unfold changePassword_body. apply raises_bind; [apply raises_pool_query|].
  intros [|credential rest]; [apply raises_throw; right; reflexivity|].
  apply raises_bind; [apply raises_bcrypt_compare_m|].
  intros isPasswordValid. destruct (negb isPasswordValid);
    [apply raises_throw; left; reflexivity|].
  apply raises_bind; [apply raises_bcrypt_hash_m|]. intros hashedPassword.
  apply raises_bind; [apply raises_pool_query | intros; apply raises_ret].
Qed.

Lemma updatePassword_body_raises token newPassword :
  raises_only (fun k => k = ValidationError \/ k = NotFoundError)
              (updatePassword_body token newPassword).
Proof.
  unfold updatePassword_body. apply raises_bind; [apply raises_conn_query|].
  intros [|u0 rest]; [apply raises_throw; right; reflexivity|].
  apply raises_bind; [apply raises_bcrypt_compare_m|].
  intros isMatch. destruct (negb isMatch);
    [apply raises_throw; left; reflexivity|].
  apply raises_bind; [apply raises_bcrypt_hash_m|]. intros hashedPassword.
  apply raises_bind; [apply raises_conn_query | intros; apply raises_ret].
Qed.

Lemma surfaces_intro {A} (K : ErrorKind -> Prop) (body : M A) (h : Exn -> M A)
    (msg : string) :
  raises_only K body ->
  (forall d, K (kind d) -> h (Domain d) = throw (Domain d)) ->
  (forall m, h (Unclassified m) = throw (new_error DatabaseError msg)) ->
  surfaces body (try_catch body h) msg.
Proof.
  intros Hraise Hd Hu w. unfold try_catch.
  destruct (body w) as [[a|[d|m]] w'] eqn:E.
  - reflexivity.
  - rewrite (Hd d (Hraise w _ w' I E)). reflexivity.
  - rewrite Hu. reflexivity.
Qed.

Lemma instanceof_kind d k : kind d = k -> instanceof (Domain d) k = true.
Proof. intros H. unfold instanceof. apply bool_decide_eq_true_2, H. Qed.

(** The handlers of the credential subsystem, each as it is written:
    in [getUserById], [register], [login], [logout], [resetPassword],
    [changePassword] and the try block of [updatePassword], a
    classified error raised inside the try block reaches the caller
    unchanged and any other exception reaches it as DatabaseError;
    [requestPasswordReset] turns every unclassified exception into
    DatabaseError; [refreshToken] and [validateToken] turn every
    exception into AuthenticationError. *)
Theorem credential_errors_surface :
  (forall userId,
     surfaces (getUserById_body userId) (getUserById userId)
              "Error al obtener usuario") /\
  (forall userData,
     surfaces (register_body userData) (register userData)
              "Failed to register user") /\
  (forall email password,
     surfaces (login_body email password) (login email password)
              "Failed to process login") /\
  (forall userId,
     surfaces (logout_body userId) (logout userId) "Failed to process logout") /\
  (forall token newPassword,
     surfaces (resetPassword_body token newPassword)
              (resetPassword token newPassword) "Failed to reset password") /\
  (forall userId currentPassword newPassword,
     surfaces (changePassword_body userId currentPassword newPassword)
              (changePassword userId currentPassword newPassword)
              "Failed to change password") /\
  (forall token newPassword,
     surfaces (updatePassword_body token newPassword)
              (try_catch (updatePassword_body token newPassword)
                         updatePassword_catch)
              "Error al actualizar la contraseña") /\
  (forall email w m w',
     requestPasswordReset_body email w = (Throw (Unclassified m), w') ->
     requestPasswordReset email w =
       (Throw (new_error DatabaseError "Failed to process password reset request"),
        w')) /\
  (forall token,
     fails_closed (refreshToken_body token) (refreshToken token)
                  "Invalid refresh token") /\
  (forall token,
     fails_closed (jwt_verify_m token (env_or "JWT_SECRET" "1234"))
                  (validateToken token) "Invalid token").
Proof.
  repeat apply conj.
  - intros userId.
    apply (surfaces_intro (fun k => k = NotFoundError));
      [apply getUserById_body_raises | |reflexivity].
    intros d Hd. unfold getUserById_catch. rewrite (instanceof_kind d _ Hd). reflexivity.
  - intros userData.
    apply (surfaces_intro (fun k => k = ValidationError));
      [apply register_body_raises | |reflexivity].
    intros d Hd. unfold register_catch. rewrite (instanceof_kind d _ Hd). reflexivity.
  - intros email password.
    apply (surfaces_intro (fun k => k = AuthenticationError));
      [apply login_body_raises | |reflexivity].
    intros d Hd. unfold login_catch. rewrite (instanceof_kind d _ Hd). reflexivity.
  - intros userId.
    apply (surfaces_intro (fun _ => False));
      [apply logout_body_raises | intros d [] | reflexivity].
  - intros token newPassword.
    apply (surfaces_intro (fun k => k = ValidationError));
      [apply resetPassword_body_raises | |reflexivity].
    intros d Hd. unfold resetPassword_catch. rewrite (instanceof_kind d _ Hd). reflexivity.
  - intros userId currentPassword newPassword.
    apply (surfaces_intro (fun k => k = ValidationError \/ k = NotFoundError));
      [apply changePassword_body_raises | |reflexivity].
    intros d [Hd|Hd]; unfold changePassword_catch;
      rewrite (instanceof_kind d _ Hd), ?orb_true_r; reflexivity.
  - intros token newPassword.
    apply (surfaces_intro (fun k => k = ValidationError \/ k = NotFoundError));
      [apply updatePassword_body_raises | |reflexivity].
    intros d [Hd|Hd]; unfold updatePassword_catch;
      rewrite (instanceof_kind d _ Hd), ?orb_true_r; reflexivity.
  - intros email w m w' E. unfold requestPasswordReset, try_catch. rewrite E.
    reflexivity.
  - intros token w. unfold refreshToken, try_catch.
    destruct (refreshToken_body token w) as [[a|e] w']; reflexivity.
  - intros token w. unfold validateToken, try_catch.
    destruct (jwt_verify_m token (env_or "JWT_SECRET" "1234") w) as [[a|e] w'];
      reflexivity.
Qed.

(** What [requestPasswordReset] does with an email no user has: the
    NotFoundError raised in the try block is caught by the same
    function's handler, which has no [instanceof] test, and reaches the
    caller as DatabaseError. *)
Lemma requestPasswordReset_unknown_email (email : string) (w : World) :
  calm w = true ->
  users_by_email email (db w) = [] ->
  fst (requestPasswordReset_body email w) = Throw (new_error NotFoundError "User not found") /\
  fst (requestPasswordReset email w) =
    Throw (new_error DatabaseError "Failed to process password reset request").
Proof.
  intros Hc Hu. split.
  - unfold requestPasswordReset_body. run. rewrite Hu. reflexivity.
  - unfold requestPasswordReset, requestPasswordReset_body. run. rewrite Hu.
    reflexivity.
Qed.

(** What [refreshToken] does when its token verifies and its query
    rejects: the failure raised in the try block reaches the caller as
    AuthenticationError. *)
Lemma refreshToken_query_rejects (token : string) (w : World) decoded s rest msg :
  jwt_verify token (env_or "JWT_REFRESH_SECRET" "1234") (now w) = Some decoded ->
  script w = s :: rest ->
  rejects s = Some msg ->
  fst (refreshToken_body token w) = Throw (Unclassified msg) /\
  fst (refreshToken token w) =
    Throw (new_error AuthenticationError "Invalid refresh token").
Proof.
  intros Hv Hs Hr.
  unfold refreshToken, refreshToken_body, refreshToken_catch, jwt_verify_m.
  unfold_eff. rewrite Hv. unfold await_env. rewrite Hs, Hr. split; reflexivity.
Qed.

(** C2, what the code does: two handlers of the credential subsystem
    break the rule that a classified error is rethrown unchanged and
    anything else is wrapped as DatabaseError.  For an email no user
    has, on a world where no awaited call fails, the try block of
    [requestPasswordReset] raises NotFoundError and the caller gets
    DatabaseError; and when the token verifies and the query rejects,
    the try block of [refreshToken] raises that unclassified failure
    and the caller gets AuthenticationError. *)
Theorem credential_errors_misclassified :
  (forall email w,
     calm w = true ->
     users_by_email email (db w) = [] ->
     fst (requestPasswordReset_body email w) =
       Throw (new_error NotFoundError "User not found") /\
     fst (requestPasswordReset email w) =
       Throw (new_error DatabaseError "Failed to process password reset request")) /\
  (forall token w decoded s rest msg,
     jwt_verify token (env_or "JWT_REFRESH_SECRET" "1234") (now w) = Some decoded ->
     script w = s :: rest ->
     rejects s = Some msg ->
     fst (refreshToken_body token w) = Throw (Unclassified msg) /\
     fst (refreshToken token w) =
       Throw (new_error AuthenticationError "Invalid refresh token")).
Proof.
  split.
  - exact requestPasswordReset_unknown_email.
  - exact refreshToken_query_rejects.
Qed.

End Propagation.

Lemma credential_errors_misclassified_witness :
  fst (requestPasswordReset (P := Demo.demo) "nobody@example.com"
         (Demo.demo_world [])) =
    Throw (new_error DatabaseError "Failed to process password reset request") /\
  fst (refreshToken (P := Demo.demo) "refresh-7"
         (Demo.demo_world [Demo.bad_step])) =
    Throw (new_error AuthenticationError "Invalid refresh token").
Proof.
  destruct (credential_errors_misclassified (P := Demo.demo)) as [Hreset Hrefresh].
  split.
  - exact (proj2 (Hreset "nobody@example.com" (Demo.demo_world []) eq_refl eq_refl)).
  - exact (proj2 (Hrefresh "refresh-7" (Demo.demo_world [Demo.bad_step])
                    {["id" := JNum 7]} Demo.bad_step [] "ECONNRESET"
                    eq_refl eq_refl eq_refl)).
Defined.

Lemma credential_errors_surface_witness :
  requestPasswordReset (P := Demo.demo) "alice@example.com"
      (Demo.demo_world [Demo.bad_step]) =
    (Throw (new_error DatabaseError "Failed to process password reset request"),
     tick (Demo.demo_world [Demo.bad_step])) /\
  login (P := Demo.demo) "nobody@example.com" "x" (Demo.demo_world []) =
    (Throw (new_error AuthenticationError "Invalid email or password"),
     tick (Demo.demo_world [])).
Proof.
  destruct (credential_errors_surface (P := Demo.demo))
    as (_ & _ & Hlogin & _ & _ & _ & _ & Hreset & _).
  split.
  - apply (Hreset "alice@example.com" _ "ECONNRESET"). reflexivity.
  - rewrite (Hlogin "nobody@example.com" "x" (Demo.demo_world [])). reflexivity.
Defined.

(** When the query of [refreshToken] rejects (the token itself
    verifies), the caller gets an AuthenticationError, not a
    DatabaseError. *)
Lemma refreshToken_persistence_failure_is_authentication_error :
  fst (refreshToken_body (P := Demo.demo) "refresh-7"
         (Demo.demo_world [Demo.bad_step])) =
    Throw (Unclassified "ECONNRESET") /\
  fst (refreshToken (P := Demo.demo) "refresh-7"
         (Demo.demo_world [Demo.bad_step])) =
    Throw (new_error AuthenticationError "Invalid refresh token").
Proof. split; vm_compute; reflexivity. Qed.

Example requestPasswordReset_unknown_email_example :
  fst (requestPasswordReset (P := Demo.demo) "nobody@example.com"
         (Demo.demo_world [])) =
    Throw (new_error DatabaseError "Failed to process password reset request").
Proof. vm_compute. reflexivity. Qed.

End Propagation.

(** ** Ownership checks of the resource services *)

Module Ownership.
Import Invariants.


Section Ownership.
Context `{P : Platform}.


Ltac refuse Hid Hk Hrow Hne :=
  rewrite Hid; cbn [negb orb]; run; rewrite Hk; run; rewrite Hrow; run;
  rewrite Hne; run;
  repeat split; reflexivity.

Lemma status_truthy (s : string) :
  In s EventService.event_statuses -> truthy (JStr s) = true.
Proof.
  intros H. cbn in H. destruct H as [<-|[<-|[<-|[<-|[]]]]]; reflexivity.
Qed.

Lemma event_owner_enforced (id userId : JsVal) (w : World) (k : Z)
    (event : gmap string JsVal) :
  calm w = true -> truthy id = true -> sql_key id = Some k ->
  events w !! k = Some event ->
  strict_neq (get event "created_by") (parseInt userId) = true ->
  (forall data,
     refused "No autorizado para actualizar este evento" w
             (EventService.updateEvent id data userId w)) /\
  refused "No autorizado para eliminar este evento" w
          (EventService.deleteEvent id userId w) /\
  (forall v,
     refused "No autorizado para actualizar este evento" w
             (EventService.updateFeaturedStatus id v userId w)) /\
  (forall v,
     refused "No autorizado para actualizar este evento" w
             (EventService.updateHomeStatus id v userId w)) /\
  (forall s, In s EventService.event_statuses ->
     refused "No autorizado para actualizar este evento" w
             (EventService.updateEventStatus id (JStr s) userId w)).
Proof.
  intros Hc Hid Hk Hrow Hne. unfold refused.
  split; [|split; [|split; [|split]]].
  - intros data.
    unfold EventService.updateEvent, EventService.updateEvent_body,
      Event_findById, EventService.owner_catch.
    refuse Hid Hk Hrow Hne.
  - unfold EventService.deleteEvent, EventService.deleteEvent_body,
      Event_findById, EventService.owner_catch.
    refuse Hid Hk Hrow Hne.
  - intros v.
    unfold EventService.updateFeaturedStatus, EventService.updateFeaturedStatus_body,
      Event_findById, EventService.owner_catch.
    refuse Hid Hk Hrow Hne.
  - intros v.
    unfold EventService.updateHomeStatus, EventService.updateHomeStatus_body,
      Event_findById, EventService.owner_catch.
    refuse Hid Hk Hrow Hne.
  - intros s Hs.
    unfold EventService.updateEventStatus, EventService.updateEventStatus_body,
      Event_findById, EventService.owner_catch.
    rewrite (status_truthy s Hs), (Validation.includes_true _ s Hs).
    refuse Hid Hk Hrow Hne.
Qed.

Lemma blog_owner_enforced (id userId : JsVal) (w : World) (k : Z)
    (blog : gmap string JsVal) :
  calm w = true -> truthy id = true -> sql_key id = Some k ->
  blogs w !! k = Some blog ->
  strict_neq (get blog "author_id") (parseInt userId) = true ->
  (forall data,
     refused "No autorizado para actualizar este blog" w
             (BlogService.updateBlog id data userId w)) /\
  refused "No autorizado para eliminar este blog" w
          (BlogService.deleteBlog id userId w) /\
  (forall v,
     refused "No autorizado para actualizar este blog" w
             (BlogService.updateBlogStatus id v userId w)) /\
  (forall v, is_admin userId w = false ->
     refused "No autorizado para actualizar este blog" w
             (BlogService.updateFeaturedStatus id v userId w)) /\
  (forall v, is_admin userId w = true ->
     fst (BlogService.updateFeaturedStatus id v userId w) = Ok (JBool true) /\
     calls (snd (BlogService.updateFeaturedStatus id v userId w)) =
       BlogUpdateFeaturedStatus id v :: calls w).
Proof.
  intros Hc Hid Hk Hrow Hne. unfold refused.
  split; [|split; [|split; [|split]]].
  - intros data.
    unfold BlogService.updateBlog, BlogService.updateBlog_body,
      Blog_findById, BlogService.owner_catch.
    refuse Hid Hk Hrow Hne.
  - unfold BlogService.deleteBlog, BlogService.deleteBlog_body,
      Blog_findById, BlogService.owner_catch.
    refuse Hid Hk Hrow Hne.
  - intros v.
    unfold BlogService.updateBlogStatus, BlogService.updateBlogStatus_body,
      Blog_findById, BlogService.owner_catch.
    refuse Hid Hk Hrow Hne.
  - intros v Hadm. unfold is_admin in Hadm.
    unfold BlogService.updateFeaturedStatus, BlogService.updateFeaturedStatus_body,
      Blog_findById, BlogService.owner_catch.
    rewrite Hid; cbn [negb]; run; rewrite Hk; run; rewrite Hrow; run.
    rewrite Hne.
    destruct (tx w) as [t|]; run;
      [destruct (users_by_id userId t) as [|u us]
      |destruct (users_by_id userId (db w)) as [|u us]];
      try rewrite Hadm; cbn [andb negb]; run; repeat split; reflexivity.
  - intros v Hadm. unfold is_admin in Hadm.
    unfold BlogService.updateFeaturedStatus, BlogService.updateFeaturedStatus_body,
      Blog_findById, Blog_updateFeaturedStatus, BlogService.owner_catch.
    rewrite Hid; cbn [negb]; run; rewrite Hk; run; rewrite Hrow; run.
    rewrite Hne.
    destruct (tx w) as [t|]; run;
      [destruct (users_by_id userId t) as [|u us]
      |destruct (users_by_id userId (db w)) as [|u us]];
      try discriminate Hadm; rewrite Hadm; cbn [andb negb]; run; rewrite ?Hk;
      run; rewrite ?Hrow; split; reflexivity.
Qed.

(** C8, amended: on a calm world, for a requester id that [parseInt]
    reads exactly (a safe integer, a text whose digits denote one, or a
    value in which no digit is read) and an existing event or blog
    whose owner reference is not strictly equal to [parseInt(userId)],
    every update, delete and flag mutator fails with AuthorizationError
    and writes nothing, whatever the patch or flag value supplied, with
    two exceptions: [BlogService.updateFeaturedStatus] goes through
    when the requester's role is [admin], and [updateEventStatus] is
    only refused as unauthorized when the status is one of the four
    values of the enumeration (any other status has already been
    rejected with ValidationError). *)
Theorem non_owner_is_refused (id userId : JsVal) (w : World) (k : Z) :
  calm w = true -> truthy id = true -> sql_key id = Some k ->
  parses_exactly userId = true ->
  (forall event,
     events w !! k = Some event ->
     strict_neq (get event "created_by") (parseInt userId) = true ->
     (forall data,
        refused "No autorizado para actualizar este evento" w
                (EventService.updateEvent id data userId w)) /\
     refused "No autorizado para eliminar este evento" w
             (EventService.deleteEvent id userId w) /\
     (forall v,
        refused "No autorizado para actualizar este evento" w
                (EventService.updateFeaturedStatus id v userId w)) /\
     (forall v,
        refused "No autorizado para actualizar este evento" w
                (EventService.updateHomeStatus id v userId w)) /\
     (forall s, In s EventService.event_statuses ->
        refused "No autorizado para actualizar este evento" w
                (EventService.updateEventStatus id (JStr s) userId w))) /\
  (forall blog,
     blogs w !! k = Some blog ->
     strict_neq (get blog "author_id") (parseInt userId) = true ->
     (forall data,
        refused "No autorizado para actualizar este blog" w
                (BlogService.updateBlog id data userId w)) /\
     refused "No autorizado para eliminar este blog" w
             (BlogService.deleteBlog id userId w) /\
     (forall v,
        refused "No autorizado para actualizar este blog" w
                (BlogService.updateBlogStatus id v userId w)) /\
     (forall v, is_admin userId w = false ->
        refused "No autorizado para actualizar este blog" w
                (BlogService.updateFeaturedStatus id v userId w)) /\
     (forall v, is_admin userId w = true ->
        fst (BlogService.updateFeaturedStatus id v userId w) = Ok (JBool true) /\
        calls (snd (BlogService.updateFeaturedStatus id v userId w)) =
          BlogUpdateFeaturedStatus id v :: calls w)).
Proof.
  intros Hc Hid Hk _. split.
  - intros event Hrow Hne. exact (event_owner_enforced id userId w k event Hc Hid Hk Hrow Hne).
  - intros blog Hrow Hne. exact (blog_owner_enforced id userId w k blog Hc Hid Hk Hrow Hne).
Qed.

Ltac allow Hid Hk Hrow Hown :=
  rewrite Hid; cbn [negb orb]; run; rewrite Hk; run; rewrite Hrow; run;
  rewrite Hown; run; rewrite ?Hk, ?Hrow; run;
  repeat split; reflexivity.

(** The owner's calls go through. *)
Lemma event_owner_allowed (id userId : JsVal) (w : World) (k : Z)
    (event : gmap string JsVal) :
  calm w = true -> truthy id = true -> sql_key id = Some k ->
  events w !! k = Some event ->
  strict_neq (get event "created_by") (parseInt userId) = false ->
  went_through (EventDelete id) w (EventService.deleteEvent id userId w) /\
  (forall v,
     went_through (EventUpdateFeaturedStatus id v) w
                  (EventService.updateFeaturedStatus id v userId w)) /\
  (forall v,
     went_through (EventUpdateHomeStatus id v) w
                  (EventService.updateHomeStatus id v userId w)) /\
  (forall s, In s EventService.event_statuses ->
     went_through (EventUpdateStatus id (JStr s)) w
                  (EventService.updateEventStatus id (JStr s) userId w)).
Proof.
  intros Hc Hid Hk Hrow Hown. unfold went_through.
  split; [|split; [|split]].
  - unfold EventService.deleteEvent, EventService.deleteEvent_body,
      Event_findById, Event_delete, EventService.owner_catch.
    allow Hid Hk Hrow Hown.
  - intros v.
    unfold EventService.updateFeaturedStatus, EventService.updateFeaturedStatus_body,
      Event_findById, Event_updateFeaturedStatus, EventService.owner_catch.
    allow Hid Hk Hrow Hown.
  - intros v.
    unfold EventService.updateHomeStatus, EventService.updateHomeStatus_body,
      Event_findById, Event_updateHomeStatus, EventService.owner_catch.
    allow Hid Hk Hrow Hown.
  - intros s Hs.
    unfold EventService.updateEventStatus, EventService.updateEventStatus_body,
      Event_findById, Event_updateStatus, EventService.owner_catch.
    rewrite (status_truthy s Hs), (Validation.includes_true _ s Hs).
    allow Hid Hk Hrow Hown.
Qed.

Lemma blog_owner_allowed (id userId : JsVal) (w : World) (k : Z)
    (blog : gmap string JsVal) :
  calm w = true -> truthy id = true -> sql_key id = Some k ->
  blogs w !! k = Some blog ->
  strict_neq (get blog "author_id") (parseInt userId) = false ->
  (forall data,
     went_through (BlogUpdate id data) w (BlogService.updateBlog id data userId w)) /\
  went_through (BlogDelete id) w (BlogService.deleteBlog id userId w) /\
  (forall v,
     went_through (BlogUpdateActiveStatus id v) w
                  (BlogService.updateBlogStatus id v userId w)) /\
  (forall v,
     went_through (BlogUpdateFeaturedStatus id v) w
                  (BlogService.updateFeaturedStatus id v userId w)).
Proof.
  intros Hc Hid Hk Hrow Hown. unfold went_through.
  split; [|split; [|split]].
  - intros data.
    unfold BlogService.updateBlog, BlogService.updateBlog_body,
      Blog_findById, Blog_update, BlogService.owner_catch.
    allow Hid Hk Hrow Hown.
  - unfold BlogService.deleteBlog, BlogService.deleteBlog_body,
      Blog_findById, Blog_delete, BlogService.owner_catch.
    allow Hid Hk Hrow Hown.
  - intros v.
    unfold BlogService.updateBlogStatus, BlogService.updateBlogStatus_body,
      Blog_findById, Blog_updateActiveStatus, BlogService.owner_catch.
    allow Hid Hk Hrow Hown.
  - intros v.
    unfold BlogService.updateFeaturedStatus, BlogService.updateFeaturedStatus_body,
      Blog_findById, Blog_updateFeaturedStatus, BlogService.owner_catch.
    rewrite Hid; cbn [negb orb]; run; rewrite Hk; run; rewrite Hrow; run.
    destruct (tx w); run; rewrite Hown; cbn [andb]; run; rewrite ?Hk, ?Hrow; run;
      repeat split; reflexivity.
Qed.



End Ownership.


(** C8, as stated, fails: Bob (user 8) is not the owner of event 1
    (created by user 7); his [updateEventStatus] call with the status
    ["archived"] fails with ValidationError, not AuthorizationError. *)
Lemma updateEventStatus_non_owner_invalid_status :
  events (Demo.demo_world []) !! 1 = Some Demo.demo_event /\
  strict_neq (get Demo.demo_event "created_by") (parseInt (JNum 8)) = true /\
  fst (EventService.updateEventStatus (P := Demo.demo)
         (JNum 1) (JStr "archived") (JNum 8) (Demo.demo_world [])) =
    Throw (new_error ValidationError "Estado de evento inválido").
Proof. repeat split; vm_compute; reflexivity. Qed.

Lemma non_owner_is_refused_witness :
  refused "No autorizado para actualizar este evento" (Demo.demo_world [])
    (EventService.updateEvent (P := Demo.demo) (JNum 1)
       {["event_name" := JStr "Fiesta"]} (JNum 8) (Demo.demo_world [])) /\
  refused "No autorizado para actualizar este blog" (Demo.demo_world [])
    (BlogService.updateFeaturedStatus (P := Demo.demo) (JNum 1) (JBool true)
       (JNum 9) (Demo.demo_world [])) /\
  fst (BlogService.updateFeaturedStatus (P := Demo.demo) (JNum 1) (JBool true)
         (JNum 8) (Demo.demo_world [])) = Ok (JBool true).
Proof.
  assert (Hc : calm (Demo.demo_world []) = true) by reflexivity.
  assert (Hid : truthy (JNum 1) = true) by reflexivity.
  assert (Hk : sql_key (Platform := Demo.demo) (JNum 1) = Some 1) by reflexivity.
  assert (Hev : events (Demo.demo_world []) !! 1 = Some Demo.demo_event)
    by (vm_compute; reflexivity).
  assert (Hbl : blogs (Demo.demo_world []) !! 1 = Some Demo.demo_blog)
    by (vm_compute; reflexivity).
  assert (He8 : strict_neq (get Demo.demo_event "created_by") (parseInt (JNum 8)) = true)
    by (vm_compute; reflexivity).
  assert (Hb8 : strict_neq (get Demo.demo_blog "author_id") (parseInt (JNum 8)) = true)
    by (vm_compute; reflexivity).
  assert (Hb9 : strict_neq (get Demo.demo_blog "author_id") (parseInt (JNum 9)) = true)
    by (vm_compute; reflexivity).
  assert (Ha8 : is_admin (P := Demo.demo) (JNum 8) (Demo.demo_world []) = true)
    by (vm_compute; reflexivity).
  assert (Ha9 : is_admin (P := Demo.demo) (JNum 9) (Demo.demo_world []) = false)
    by (vm_compute; reflexivity).
  destruct (non_owner_is_refused (P := Demo.demo) (JNum 1) (JNum 8)
              (Demo.demo_world []) 1 Hc Hid Hk eq_refl) as [E8 B8].
  destruct (non_owner_is_refused (P := Demo.demo) (JNum 1) (JNum 9)
              (Demo.demo_world []) 1 Hc Hid Hk eq_refl) as [_ B9].
  destruct (E8 Demo.demo_event Hev He8) as (Hupd & _).
  destruct (B8 Demo.demo_blog Hbl Hb8) as (_ & _ & _ & _ & Hadm).
  destruct (B9 Demo.demo_blog Hbl Hb9) as (_ & _ & _ & Hnot & _).
  split; [exact (Hupd _) | split; [exact (Hnot _ Ha9) | exact (proj1 (Hadm _ Ha8))]].
Defined.

End Ownership.

(** ** Server-managed fields on update *)

Module ManagedFields.
Import Invariants.


Section ManagedFields.
Context `{P : Platform}.

Lemma strip_managed_stripped (eventData : gmap string JsVal) :
  stripped (EventService.strip_managed eventData).
Proof.
  unfold stripped, EventService.strip_managed. repeat split.
  - rewrite !lookup_delete_ne by discriminate. apply lookup_delete_eq.
  - rewrite lookup_delete_ne by discriminate. apply lookup_delete_eq.
  - apply lookup_delete_eq.
Qed.

Lemma stripped_insert (p : gmap string JsVal) (key : string) (v : JsVal) :
  key <> "created_by" -> key <> "created_at" -> key <> "updated_at" ->
  stripped p -> stripped (<[key := v]> p).
Proof.
  intros H1 H2 H3 (Ha & Hb & Hc). unfold stripped.
  rewrite !lookup_insert_ne by assumption. auto.
Qed.

Lemma normalize_featured_stripped (p : gmap string JsVal) :
  stripped p -> stripped (EventService.normalize_featured p).
Proof.
  intros Hp. unfold EventService.normalize_featured.
  destruct (strict_neq (get p "is_featured") JUndefined); [|exact Hp].
  apply stripped_insert; [discriminate .. | exact Hp].
Qed.

Lemma owners_kept_stable c0 e0 : stable (owners_kept c0 e0).
Proof. split; unfold owners_kept; intros; assumption. Qed.

(** Normalizing the time touches no world and keeps the patch
    stripped. *)
Lemma normalize_event_time_stripped c0 e0 (p : gmap string JsVal) :
  stripped p ->
  hoare (owners_kept c0 e0) (EventService.normalize_event_time p)
        (fun r w => owners_kept c0 e0 w /\
                    match r with Ok p' => stripped p' | Throw _ => True end).
Proof.
  intros Hp. unfold EventService.normalize_event_time.
  destruct (truthy (get p "event_time")).
  - eapply hoare_bind with
      (Mid := fun (_ : Result nat) w => owners_kept c0 e0 w).
    + unfold EventService.split_colon_length.
      destruct (get p "event_time");
        first [apply hoare_ret | apply hoare_throw]; auto.
    + intros n. destruct (n =? 2)%nat; apply hoare_ret; intros w Hw;
        (split; [exact Hw|]); [|exact Hp].
      apply stripped_insert; [discriminate .. | exact Hp].
    + intros e w Hw. split; [exact Hw | exact I].
  - apply hoare_ret. intros w Hw. split; [exact Hw | exact Hp].
Qed.

Lemma get_union_stripped (p row : gmap string JsVal) (key : string) :
  p !! key = None -> get (p ∪ row) key = get row key.
Proof. intros H. unfold get. rewrite (lookup_union_r p row key H). reflexivity. Qed.

(** [Event.update] with a stripped patch keeps every row's owner
    reference and creation timestamp. *)
Lemma Event_update_stripped c0 e0 (id : JsVal) (p : gmap string JsVal) :
  stripped p -> preserves (owners_kept c0 e0) (Event_update id p).
Proof.
  intros Hp. pose proof (owners_kept_stable c0 e0) as S.
  unfold Event_update, write_row.
  apply preserves_bind; [apply preserves_await_env, S|]. intros _.
  eapply hoare_bind with (Mid := fun _ => owners_kept c0 e0).
  - apply hoare_modify. intros w [Hcalls Hrows]. split; [|exact Hrows].
    intros id' p' Hin. cbn [calls record_call] in Hin.
    destruct Hin as [E|Hin]; [inversion E; subst; right; exact Hp | auto].
  - intros _ w r w' [Hcalls Hrows] E.
    destruct (sql_key id) as [k|]; [|inversion E; subst; split; assumption].
    destruct (events w !! k) as [row|] eqn:Hrow;
      inversion E; subst; [|split; assumption].
    split; [exact Hcalls|]. cbn [events set_events].
    intros k' row' Hk'.
    destruct (decide (k = k')) as [<-|Hne].
    + rewrite lookup_insert_eq in Hk'. inversion Hk'; subst.
      destruct (Hrows k row Hrow) as (row0 & H0 & Hby & Hat).
      destruct Hp as (Pby & Pat & _).
      exists row0. rewrite !get_union_stripped by assumption. auto.
    + rewrite lookup_insert_ne in Hk' by assumption. eauto.
  - intros e w Hw. exact Hw.
Qed.

(** Whatever [updateEvent] does, with whatever patch and requester, on
    whatever world: the patch it hands to [Event.update] carries no
    owner reference and no created or updated timestamp, and no event's
    owner reference or creation timestamp changes. *)
Lemma updateEvent_keeps_owner (id : JsVal) (eventData : gmap string JsVal)
    (userId : JsVal) (w : World) r w' :
  EventService.updateEvent id eventData userId w = (r, w') ->
  owners_kept (calls w) (events w) w'.
Proof.
  assert (H : preserves (owners_kept (calls w) (events w))
                        (EventService.updateEvent id eventData userId)).
  { pose proof (owners_kept_stable (calls w) (events w)) as S.
    unfold EventService.updateEvent.
    destruct (truthy id); cbn [negb]; [|apply preserves_throw].
    apply preserves_bind; [apply preserves_getConnection, S|]. intros _.
    apply preserves_finally; [|apply preserves_release, S].
    apply preserves_try_catch.
    - unfold EventService.updateEvent_body.
      apply preserves_bind.
      + unfold Event_findById, findById.
        apply preserves_bind; [apply preserves_await_env, S|]. intros _.
        apply preserves_gets.
      + intros [event|]; [|apply preserves_throw].
        destruct (strict_neq (get event "created_by") (parseInt userId));
          [apply preserves_throw|].
        eapply hoare_bind.
        * apply normalize_event_time_stripped, strip_managed_stripped.
        * intros p. apply hoare_pure_r. intros Hp.
          apply Event_update_stripped, normalize_featured_stripped, Hp.
        * intros e w0 [Hw0 _]. exact Hw0.
    - intros e. unfold EventService.owner_catch.
      destruct (instanceof e ValidationError || instanceof e NotFoundError
                || instanceof e AuthorizationError); apply preserves_throw. }
  intros E. apply (H w r w'); [|exact E].
  split; [auto | eauto].
Qed.

(** C5, what the code does for blogs: [updateBlog] hands the patch to
    [Blog.update] as it received it; a patch that carries [author_id]
    reaches the model with it, and the row's owner reference becomes
    the value in the patch. *)
Theorem updateBlog_persists_owner_from_patch
    (id userId : JsVal) (blogData blog : gmap string JsVal) (w : World)
    (k : Z) (v : JsVal) :
  calm w = true -> truthy id = true -> sql_key id = Some k ->
  blogs w !! k = Some blog ->
  strict_neq (get blog "author_id") (parseInt userId) = false ->
  blogData !! "author_id" = Some v ->
  fst (BlogService.updateBlog id blogData userId w) = Ok (JBool true) /\
  calls (snd (BlogService.updateBlog id blogData userId w)) =
    BlogUpdate id blogData :: calls w /\
  exists row,
    blogs (snd (BlogService.updateBlog id blogData userId w)) !! k = Some row /\
    get row "author_id" = v.
Proof.
  intros Hc Hid Hk Hrow Hown Hv.
  unfold BlogService.updateBlog, BlogService.updateBlog_body, Blog_findById,
    Blog_update, BlogService.owner_catch.
  rewrite Hid; cbn [negb]; run; rewrite Hk; run; rewrite Hrow; run.
  rewrite Hown; run; rewrite ?Hrow.
  split; [reflexivity | split; [reflexivity|]].
  exists (blogData ∪ blog). cbn [blogs set_blogs]. split.
  - apply lookup_insert_eq.
  - unfold get. rewrite (lookup_union_Some_l blogData blog _ _ Hv). reflexivity.
Qed.

End ManagedFields.


Lemma updateBlog_persists_owner_from_patch_witness :
  fst (BlogService.updateBlog (P := Demo.demo) (JNum 1) patch_with_author (JNum 7)
         (Demo.demo_world [])) = Ok (JBool true) /\
  exists row,
    blogs (snd (BlogService.updateBlog (P := Demo.demo) (JNum 1) patch_with_author
                  (JNum 7) (Demo.demo_world []))) !! 1 = Some row /\
    get row "author_id" = JNum 99.
Proof.
  assert (Hrow : blogs (Demo.demo_world []) !! 1 = Some Demo.demo_blog)
    by (vm_compute; reflexivity).
  assert (Hown : strict_neq (get Demo.demo_blog "author_id") (parseInt (JNum 7)) = false)
    by (vm_compute; reflexivity).
  assert (Hv : patch_with_author !! "author_id" = Some (JNum 99))
    by (vm_compute; reflexivity).
  destruct (updateBlog_persists_owner_from_patch (P := Demo.demo)
              (JNum 1) (JNum 7) patch_with_author Demo.demo_blog
              (Demo.demo_world []) 1 (JNum 99)
              eq_refl eq_refl eq_refl Hrow Hown Hv) as (H1 & _ & H3).
  split; [exact H1 | exact H3].
Defined.

Example updateEvent_ignores_owner_in_patch :
  let out := EventService.updateEvent (P := Demo.demo) (JNum 1)
               (list_to_map [("event_name", JStr "Fiesta"); ("created_by", JNum 99)])
               (JNum 7) (Demo.demo_world []) in
  fst out = Ok (JBool true) /\
  match events (snd out) !! 1 with
  | Some row => get row "created_by" = JNum 7 /\
                get row "event_name" = JStr "Fiesta"
  | None => False
  end.
Proof. vm_compute. repeat split. Qed.

End ManagedFields.

(** * Further properties *)

(** ** What the credential operations write *)

Module CredentialWrites.
Import AuthService Invariants Registration.
Section CredentialWrites.
Context `{P : Platform}.

Lemma pool_query_select_committed {A} d0 (f : Db -> A) :
  preserves (committed d0) (pool_query (select f)).
Proof.
  apply preserves_pool_query; [apply committed_stable|]. intros w Hw. exact Hw.
Qed.

(** A pooled statement either rejects and writes nothing, or runs. *)
Lemma pool_query_last {A} d0 (q : Z -> Db -> A * Db) :
  hoare (committed d0) (pool_query q) (unless_thrown d0 (fun _ _ => True)).
Proof.
  unfold pool_query.
  eapply hoare_bind with (Mid := fun _ => committed d0).
  - apply preserves_await_env, committed_stable.
  - intros _ w r w' Hw E. destruct (q (now w) (db w)). inversion E; subst. exact I.
  - intros e w Hw. exact Hw.
Qed.

Lemma conn_query_select_committed {A} d0 (f : Db -> A) :
  preserves (committed d0) (conn_query (select f)).
Proof.
  unfold conn_query. apply preserves_bind;
    [apply preserves_await_env, committed_stable|].
  intros _ w r w' Hw E. unfold select in E.
  destruct (tx w); inversion E; subst; exact Hw.
Qed.

(** A step that keeps the committed rows, followed by steps that write
    nothing when they fail. *)
Lemma then_last {A B} d0 (m : M A) (k : A -> M B) :
  preserves (committed d0) m ->
  (forall a, hoare (committed d0) (k a) (unless_thrown d0 (fun _ _ => True))) ->
  hoare (committed d0) (bind m k) (unless_thrown d0 (fun _ _ => True)).
Proof.
  intros Hm Hk. eapply hoare_bind with (Mid := fun _ => committed d0);
    [exact Hm | exact Hk | intros e w Hw; exact Hw].
Qed.

Lemma throw_last {A} d0 (e : Exn) :
  hoare (committed d0) (throw (A := A) e) (unless_thrown d0 (fun _ _ => True)).
Proof. apply hoare_throw. intros w Hw. exact Hw. Qed.

Lemma ret_last {A} d0 (a : A) :
  hoare (committed d0) (ret a) (unless_thrown d0 (fun _ _ => True)).
Proof. apply hoare_ret. intros; exact I. Qed.

(** A handler that only throws keeps what a failed body left. *)
Lemma caught_last {A} d0 (m : M A) (h : Exn -> M A) :
  hoare (committed d0) m (unless_thrown d0 (fun _ _ => True)) ->
  (forall e, exists e', h e = throw e') ->
  hoare (committed d0) (try_catch m h) (unless_thrown d0 (fun _ _ => True)).
Proof.
  intros Hm Hh. eapply hoare_try_catch; [exact Hm | | intros a w _; exact I].
  intros e. destruct (Hh e) as [e' ->]. apply hoare_throw. intros w Hw. exact Hw.
Qed.

Lemma on_failure {A} (m : M A) :
  (forall d0, hoare (committed d0) m (unless_thrown d0 (fun _ _ => True))) ->
  writes_nothing_on_failure m.
Proof. intros H w e w' E. exact (H (db w) w (Throw e) w' eq_refl E). Qed.

Lemma always {A} (m : M A) :
  (forall d0, preserves (committed d0) m) -> read_only m.
Proof. intros H w r w' E. exact (H (db w) w r w' eq_refl E). Qed.

Lemma login_last d0 email password :
  hoare (committed d0) (login email password) (unless_thrown d0 (fun _ _ => True)).
Proof.
  pose proof (committed_stable d0) as S.
  unfold login. apply caught_last.
  - unfold login_body. apply then_last; [apply pool_query_select_committed|].
    intros [|u us]; [apply throw_last|].
    apply then_last; [apply pool_query_select_committed|].
    intros [|c cs]; [apply throw_last|].
    apply then_last; [apply preserves_bcrypt_compare_m, S|].
    intros ok. destruct (negb ok); [apply throw_last|].
    apply then_last; [apply preserves_gets|]. intros accessToken.
    apply then_last; [apply preserves_gets|]. intros refreshToken.
    eapply hoare_bind; [apply pool_query_last | | intros e w Hw; exact Hw].
    intros []. apply hoare_ret. intros; exact I.
  - intros e. unfold login_catch. destruct (instanceof e AuthenticationError); eauto.
Qed.

Lemma logout_last d0 userId :
  hoare (committed d0) (logout userId) (unless_thrown d0 (fun _ _ => True)).
Proof.
  unfold logout. apply caught_last; [|intros e; unfold logout_catch; eauto].
  unfold logout_body.
  eapply hoare_bind; [apply pool_query_last | | intros e w Hw; exact Hw].
  intros []. apply hoare_ret. intros; exact I.
Qed.

Lemma requestPasswordReset_last d0 email :
  hoare (committed d0) (requestPasswordReset email)
        (unless_thrown d0 (fun _ _ => True)).
Proof.
  pose proof (committed_stable d0) as S.
  unfold requestPasswordReset.
  apply caught_last; [|intros e; unfold requestPasswordReset_catch; eauto].
  unfold requestPasswordReset_body.
  apply then_last; [apply pool_query_select_committed|].
  intros [|u us]; [apply throw_last|].
  apply then_last.
  { apply preserves_bind; [apply preserves_draw, S | intros; apply preserves_ret]. }
  intros resetToken. apply then_last; [apply preserves_gets|]. intros resetExpires.
  eapply hoare_bind; [apply pool_query_last | | intros e w Hw; exact Hw].
  intros []. apply hoare_ret. intros; exact I.
Qed.

Lemma resetPassword_last d0 token newPassword :
  hoare (committed d0) (resetPassword token newPassword)
        (unless_thrown d0 (fun _ _ => True)).
Proof.
  pose proof (committed_stable d0) as S.
  unfold resetPassword. apply caught_last.
  - unfold resetPassword_body. apply then_last; [apply pool_query_select_committed|].
    intros [|credential rest]; [apply throw_last|].
    apply then_last; [apply preserves_bcrypt_hash_m, S|]. intros hashedPassword.
    eapply hoare_bind; [apply pool_query_last | | intros e w Hw; exact Hw].
    intros []. apply hoare_ret. intros; exact I.
  - intros e. unfold resetPassword_catch. destruct (instanceof e ValidationError); eauto.
Qed.

Lemma changePassword_last d0 userId currentPassword newPassword :
  hoare (committed d0) (changePassword userId currentPassword newPassword)
        (unless_thrown d0 (fun _ _ => True)).
Proof.
  pose proof (committed_stable d0) as S.
  unfold changePassword. apply caught_last.
  - unfold changePassword_body. apply then_last; [apply pool_query_select_committed|].
    intros [|credential rest]; [apply throw_last|].
    apply then_last; [apply preserves_bcrypt_compare_m, S|].
    intros ok. destruct (negb ok); [apply throw_last|].
    apply then_last; [apply preserves_bcrypt_hash_m, S|]. intros hashedPassword.
    eapply hoare_bind; [apply pool_query_last | | intros e w Hw; exact Hw].
    intros []. apply hoare_ret. intros; exact I.
  - intros e. unfold changePassword_catch.
    destruct (instanceof e ValidationError || instanceof e NotFoundError); eauto.
Qed.

Lemma refreshToken_reads d0 token : preserves (committed d0) (refreshToken token).
Proof.
  unfold refreshToken. apply preserves_try_catch.
  - unfold refreshToken_body. apply preserves_bind.
    + intros w r w' Hw E. unfold jwt_verify_m in E.
      destruct (jwt_verify _ _ _); inversion E; subst; exact Hw.
    + intros decoded. apply preserves_bind; [apply pool_query_select_committed|].
      intros [|u us]; [apply preserves_throw | apply preserves_gets].
  - intros e. apply preserves_throw.
Qed.

Lemma getUserById_reads d0 userId : preserves (committed d0) (getUserById userId).
Proof.
  unfold getUserById. apply preserves_try_catch.
  - unfold getUserById_body. apply preserves_bind; [apply pool_query_select_committed|].
    intros [|u us]; [apply preserves_throw | apply preserves_ret].
  - intros e. unfold getUserById_catch.
    destruct (instanceof e NotFoundError); apply preserves_throw.
Qed.

(** X1: a credential operation that fails has changed no committed row:
    a failed [login], [logout], [requestPasswordReset], [resetPassword]
    or [changePassword] leaves [users] and [auth_credentials] as they
    were, under every behaviour of the environment; [refreshToken] and
    [getUserById] change no row however they end (the refresh token is
    not rotated). *)
Theorem failed_credential_operations_write_nothing :
  (forall email password, writes_nothing_on_failure (login email password)) /\
  (forall userId, writes_nothing_on_failure (logout userId)) /\
  (forall email, writes_nothing_on_failure (requestPasswordReset email)) /\
  (forall token newPassword,
     writes_nothing_on_failure (resetPassword token newPassword)) /\
  (forall userId currentPassword newPassword,
     writes_nothing_on_failure (changePassword userId currentPassword newPassword)) /\
  (forall token, read_only (refreshToken token)) /\
  (forall userId, read_only (getUserById userId)).
Proof.
  repeat apply conj; intros.
  - apply on_failure. intros d0. apply login_last.
  - apply on_failure. intros d0. apply logout_last.
  - apply on_failure. intros d0. apply requestPasswordReset_last.
  - apply on_failure. intros d0. apply resetPassword_last.
  - apply on_failure. intros d0. apply changePassword_last.
  - apply always. intros d0. apply refreshToken_reads.
  - apply always. intros d0. apply getUserById_reads.
Qed.

(** [updatePassword] selects [user_id] only, so the hash it hands to
    [bcrypt.compare] is [undefined] and the comparison rejects. *)
Lemma updatePassword_body_fails d0 token newPassword :
  hoare (committed d0) (updatePassword_body token newPassword)
        (fun r w => committed d0 w /\ exists e, r = Throw e).
Proof.
  pose proof (committed_stable d0) as S.
  unfold updatePassword_body.
  eapply hoare_bind with (Mid := fun _ => committed d0).
  - apply conn_query_select_committed.
  - intros [|u0 rest]; [apply hoare_throw; eauto|].
    eapply hoare_bind with
      (Mid := fun (r : Result bool) w => committed d0 w /\ exists e, r = Throw e).
    + unfold bcrypt_compare_m.
      eapply hoare_bind with (Mid := fun _ => committed d0).
      * apply preserves_await_env, S.
      * intros _. apply hoare_throw. eauto.
      * intros e w Hw. eauto.
    + intros a w r w' [_ [e He]] _. discriminate He.
    + intros e w [Hw _]. eauto.
  - intros e w Hw. eauto.
Qed.

(** X2: [updatePassword] never succeeds and never changes a committed
    row: whatever the token, the new password and the environment, it
    ends in an exception. *)
Theorem updatePassword_never_succeeds
    (token newPassword : string) (w : World) (r : Result bool) (w' : World) :
  updatePassword token newPassword w = (r, w') ->
  (exists e, r = Throw e) /\ db w' = db w.
Proof.
  intros E.
  assert (H : hoare (committed (db w)) (updatePassword token newPassword)
                (fun r0 w0 => committed (db w) w0 /\ exists e, r0 = Throw e)).
  { pose proof (committed_stable (db w)) as S.
    unfold updatePassword.
    destruct (String.eqb newPassword ""); [apply hoare_throw; eauto|].
    destruct (String.length newPassword <? 8)%nat; [apply hoare_throw; eauto|].
    eapply hoare_bind with (Mid := fun _ => committed (db w)).
    - apply preserves_getConnection, S.
    - intros _.
      eapply hoare_finally
        with (Mid := fun r0 w0 => committed (db w) w0 /\ exists e, r0 = Throw e).
      + eapply hoare_try_catch
          with (Mid := fun r0 w0 => committed (db w) w0 /\ exists e, r0 = Throw e).
        * apply updatePassword_body_fails.
        * intros e. unfold updatePassword_catch.
          destruct (instanceof e ValidationError || instanceof e NotFoundError);
            apply hoare_throw; intros w0 [Hw0 _]; eauto.
        * intros a w0 [_ [e He]]. discriminate He.
      + intros r0. apply hoare_modify. intros w0 [Hw0 [e ->]]. eauto.
    - intros e w0 Hw0. eauto. }
  destruct (H w r w' eq_refl E) as [Hdb He]. split; [exact He | exact Hdb].
Qed.

End CredentialWrites.

Lemma failed_credential_operations_write_nothing_witness :
  db (snd (login (P := Demo.demo) "alice@example.com" "wrong" (Demo.demo_world []))) =
    Demo.demo_db /\
  db (snd (refreshToken (P := Demo.demo) "refresh-7" (Demo.demo_world []))) =
    Demo.demo_db.
Proof.
  destruct (failed_credential_operations_write_nothing (P := Demo.demo))
    as (Hlogin & _ & _ & _ & _ & Hrefresh & _).
  split.
  - apply (Hlogin "alice@example.com" "wrong" (Demo.demo_world [])
             (new_error AuthenticationError "Invalid email or password")).
    vm_compute. reflexivity.
  - eapply (Hrefresh "refresh-7" (Demo.demo_world [])). apply surjective_pairing.
Defined.

Lemma updatePassword_never_succeeds_witness :
  (exists e, fst (updatePassword (P := Demo.demo) "tok-7" "long-enough-password"
                    (Demo.demo_world [])) = Throw e) /\
  db (snd (updatePassword (P := Demo.demo) "tok-7" "long-enough-password"
             (Demo.demo_world []))) = Demo.demo_db.
Proof.
  apply (updatePassword_never_succeeds (P := Demo.demo) "tok-7" "long-enough-password"
           (Demo.demo_world [])).
  apply surjective_pairing.
Defined.

Example updatePassword_found_token :
  fst (updatePassword (P := Demo.demo) "tok-7" "long-enough-password"
         (Demo.demo_world [])) =
    Throw (new_error DatabaseError "Error al actualizar la contraseña").
Proof. vm_compute. reflexivity. Qed.

End CredentialWrites.

(** ** Sessions: login, refresh, logout, registration *)

Module Sessions.
Import AuthService.
Section Sessions.
Context `{P : Platform}.

(** X3: on a world where no awaited call fails, [login] with an email
    no user has and [login] with a wrong password for an existing
    account end in the very same exception. *)
Theorem login_failures_indistinguishable
    (email1 password1 email2 password2 : string) (w : World) u us c cs :
  calm w = true ->
  users_by_email email1 (db w) = [] ->
  users_by_email email2 (db w) = u :: us ->
  creds_by_user_key (u_id u) (db w) = c :: cs ->
  bcrypt_compare password2 (c_password c) = false ->
  fst (login email1 password1 w) = fst (login email2 password2 w).
Proof.
  intros Hc H1 H2 Hcr Hpw.
  rewrite (Credentials.login_unknown_email email1 password1 w Hc H1).
  rewrite (Credentials.login_wrong_password email2 password2 w u us c cs Hc H2 Hcr Hpw).
  reflexivity.
Qed.

(** What a successful [login] leaves: the refresh token it returns is
    the one stored on the user's row. *)
Lemma login_success (email password : string) (w : World) u us c cs :
  calm w = true ->
  users_by_email email (db w) = u :: us ->
  creds_by_user_key (u_id u) (db w) = c :: cs ->
  bcrypt_compare password (c_password c) = true ->
  exists res w1 t,
    login email password w = (Ok res, w1) /\
    calm w1 = true /\
    db w1 = set_refresh_token (u_id u) (Some (refreshToken_of res)) t (db w).
Proof.
  intros Hc Hu Hcr Hpw.
  unfold login, login_body, generateAccessToken, generateRefreshToken.
  run. rewrite Hu. run. rewrite Hcr. run. rewrite Hpw. cbn [negb]. run.
  eexists _, _, _. split; [reflexivity|]. split; [calm_tac | reflexivity].
Qed.

Lemma users_by_email_in (email : string) (d : Db) u us :
  users_by_email email d = u :: us -> In u (users d).
Proof.
  intros H.
  assert (Hin : In u (users_by_email email d)) by (rewrite H; left; reflexivity).
  unfold users_by_email in Hin. apply filter_In in Hin. tauto.
Qed.

(** The row that was given a refresh token is found by it. *)
Lemma stored_refresh_token_found (v : JsVal) (token : string) (t : Z) (d : Db) u :
  In u (users d) ->
  sql_key v = Some (u_id u) ->
  users_by_id_and_refresh v token (set_refresh_token (u_id u) (Some token) t d) <> [].
Proof.
  intros Hin Hk Hnil.
  set (u' := mkUser (u_id u) (u_first_name u) (u_last_name u) (u_email u) (u_phone u)
                    (u_status u) (u_role u) (u_profile_image u) (Some token) (Some t)
                    (u_created_at u) (u_updated_at u)).
  assert (H : In u' (users_by_id_and_refresh v token
                       (set_refresh_token (u_id u) (Some token) t d))).
  { unfold users_by_id_and_refresh, set_refresh_token, map_users. cbn [users].
    apply filter_In. split.
    - apply in_map_iff. exists u. split; [|exact Hin].
      rewrite Z.eqb_refl. reflexivity.
    - cbn [u_id u_refresh_token u']. rewrite sql_text_eq_refl, andb_true_r.
      apply bool_decide_eq_true_2. exact Hk. }
  rewrite Hnil in H. destruct H.
Qed.

(** X4: after a successful [login], [refreshToken] with the refresh
    token it returned yields an access token, provided the token
    verifies and the id it carries is read by the store as the user's
    key. *)
Theorem login_then_refreshToken
    (email password : string) (w : World) u us c cs :
  calm w = true ->
  users_by_email email (db w) = u :: us ->
  creds_by_user_key (u_id u) (db w) = c :: cs ->
  bcrypt_compare password (c_password c) = true ->
  exists res w1,
    login email password w = (Ok res, w1) /\
    forall decoded,
      jwt_verify (refreshToken_of res) (env_or "JWT_REFRESH_SECRET" "1234") (now w1)
        = Some decoded ->
      sql_key (get decoded "id") = Some (u_id u) ->
      exists access, fst (refreshToken (refreshToken_of res) w1) = Ok access.
Proof.
  intros Hc Hu Hcr Hpw.
  destruct (login_success email password w u us c cs Hc Hu Hcr Hpw)
    as (res & w1 & t & E & Hc1 & Hdb).
  exists res, w1. split; [exact E|].
  intros decoded Hv Hk.
  pose proof (stored_refresh_token_found (get decoded "id") (refreshToken_of res) t
                (db w) u (users_by_email_in email (db w) u us Hu) Hk) as Hfound.
  unfold refreshToken, refreshToken_body, jwt_verify_m, generateAccessToken.
  unfold_eff. rewrite Hv. run. rewrite Hdb.
  destruct (users_by_id_and_refresh (get decoded "id") (refreshToken_of res)
              (set_refresh_token (u_id u) (Some (refreshToken_of res)) t (db w)))
    as [|u1 us1]; [congruence|].
  run. eexists. reflexivity.
Qed.

Lemma logout_calm (userId : JsVal) (w : World) :
  calm w = true ->
  logout userId w = (Ok true, set_db (clear_refresh_token userId (db w)) (tick w)).
Proof. intros Hc. unfold logout, logout_body. run. reflexivity. Qed.

Lemma filter_map_nil {A} (p : A -> bool) (f : A -> A) (l : list A) :
  (forall x, In x l -> p (f x) = false) -> List.filter p (map f l) = [].
Proof.
  induction l as [|x l IH]; intros H; [reflexivity|]. cbn [map List.filter].
  rewrite (H x (or_introl eq_refl)). apply IH. intros y Hy. apply H. right. exact Hy.
Qed.

(** After the refresh token of the rows with key [k] has been cleared,
    no row with that key is found by any token. *)
Lemma cleared_refresh_token_not_found (v userId : JsVal) (token : string) (d : Db) k :
  sql_key userId = Some k -> sql_key v = Some k ->
  users_by_id_and_refresh v token (clear_refresh_token userId d) = [].
Proof.
  intros Hu Hv. unfold users_by_id_and_refresh, clear_refresh_token, map_users.
  cbn [users]. apply filter_map_nil. intros x _. rewrite Hu, Hv.
  destruct (bool_decide (Some k = Some (u_id x))) eqn:E; cbn [u_id u_refresh_token].
  - rewrite E. reflexivity.
  - rewrite E. reflexivity.
Qed.

Lemma clear_refresh_token_idem (userId : JsVal) (d : Db) :
  clear_refresh_token userId (clear_refresh_token userId d) =
  clear_refresh_token userId d.
Proof.
  unfold clear_refresh_token, map_users. cbn [users auth_credentials]. f_equal.
  rewrite map_map. apply map_ext. intros x.
  destruct (bool_decide (sql_key userId = Some (u_id x))) eqn:E;
    cbn [u_id]; rewrite E; reflexivity.
Qed.

(** X5: on a world where no awaited call fails, [logout] returns [true];
    afterwards [refreshToken] fails with AuthenticationError for every
    token that names the user, a second [logout] changes nothing more,
    and the rows of the other users are as before. *)
Theorem logout_revokes_refresh_tokens (userId : JsVal) (k : Z) (w : World) :
  calm w = true ->
  sql_key userId = Some k ->
  let w1 := snd (logout userId w) in
  fst (logout userId w) = Ok true /\
  (forall token,
     (forall decoded,
        jwt_verify token (env_or "JWT_REFRESH_SECRET" "1234") (now w1) = Some decoded ->
        sql_key (get decoded "id") = Some k) ->
     fst (refreshToken token w1) =
       Throw (new_error AuthenticationError "Invalid refresh token")) /\
  db (snd (logout userId w1)) = db w1 /\
  (forall u, In u (users (db w)) -> u_id u <> k -> In u (users (db w1))).
Proof.
  intros Hc Hk w1. subst w1. rewrite (logout_calm userId w Hc). cbn [fst snd].
  set (w1 := set_db (clear_refresh_token userId (db w)) (tick w)).
  assert (Hc1 : calm w1 = true) by (subst w1; calm_tac).
  split; [reflexivity|]. split; [|split].
  - intros token Htok.
    unfold refreshToken, refreshToken_body, jwt_verify_m. unfold_eff.
    destruct (jwt_verify token (env_or "JWT_REFRESH_SECRET" "1234") (now w1))
      as [decoded|] eqn:Hv; [|reflexivity].
    run. change (db w1) with (clear_refresh_token userId (db w)).
    rewrite (cleared_refresh_token_not_found _ userId token (db w) k Hk
               (Htok decoded eq_refl)).
    reflexivity.
  - rewrite (logout_calm userId w1 Hc1). cbn [snd db set_db].
    change (db w1) with (clear_refresh_token userId (db w)).
    apply clear_refresh_token_idem.
  - intros u Hin Hne. change (db w1) with (clear_refresh_token userId (db w)).
    unfold clear_refresh_token, map_users. cbn [users].
    apply in_map_iff. exists u. split; [|exact Hin].
    rewrite Hk. rewrite bool_decide_eq_false_2; [reflexivity|]. congruence.
Qed.

(** The transaction of [register] on a world where no awaited call
    fails: both rows are inserted and committed, and the new user's row
    is returned without a password field. *)
Lemma register_transaction_calm (userData : UserData) (hashedPassword : string)
    (w : World) (d : Db) :
  calm w = true ->
  tx w = Some d ->
  users_by_key (next_id w) d = [] ->
  exists t ph w1,
    register_transaction userData hashedPassword w =
      (Ok (delete "password"
             (user_all_columns
                (mkUser (next_id w) (first_name userData) (last_name userData)
                        (email userData) ph "active" default_role None None None t t))),
       w1) /\
    calm w1 = true /\
    db w1 = insert_cred (next_id w + 1) (next_id w) hashedPassword
              (insert_user (next_id w) (first_name userData) (last_name userData)
                 (email userData) ph "active" t d).
Proof.
  intros Hc Htx Hfresh.
  unfold register_transaction. run. rewrite Htx. repeat (progress run).
  unfold users_by_key, insert_cred, insert_user in *. cbn [users auth_credentials].
  rewrite List.filter_app, Hfresh. cbn [List.filter app u_id].
  rewrite Z.eqb_refl. unfold_eff.
  eexists _, _, _. split; [reflexivity|]. split; [calm_tac | reflexivity].
Qed.

(** What a successful [register] leaves: one more row in [users] and
    one more in [auth_credentials], linked by the new key. *)
Lemma register_success (userData : UserData) (w : World) :
  calm w = true ->
  users_by_email (email userData) (db w) = [] ->
  users_by_key (next_id w) (db w) = [] ->
  exists row w1 t salt ph,
    register userData w = (Ok row, w1) /\
    calm w1 = true /\
    db w1 = insert_cred (next_id w + 1) (next_id w)
              (bcrypt_hash (password userData) salt)
              (insert_user (next_id w) (first_name userData) (last_name userData)
                 (email userData) ph "active" t (db w)) /\
    get row "email" = JStr (email userData) /\
    get row "password" = JUndefined.
Proof.
  intros Hc Hfree Hfresh.
  unfold register, register_body. run.
  rewrite Hfree. change (0 <? length (@nil UserRow))%nat with false. run.
  match goal with
  | |- context [register_transaction ?u ?h ?W] =>
      destruct (register_transaction_calm u h W (db w))
        as (t & ph & w1 & E & Hc1 & Hdb);
        [calm_tac | reflexivity | exact Hfresh | rewrite E]
  end.
  unfold_eff.
  eexists _, w1, t, _, ph. split; [reflexivity|]. split; [exact Hc1|].
  split; [exact Hdb|]. split.
  - unfold get. rewrite lookup_delete_ne by discriminate.
    unfold user_all_columns. rewrite !lookup_insert_ne by discriminate.
    reflexivity.
  - unfold get. rewrite lookup_delete_eq. reflexivity.
Qed.

Lemma users_by_email_inserted e k1 k2 h first last ph st t d :
  users_by_email e (insert_cred k2 k1 h (insert_user k1 first last e ph st t d)) =
  (users_by_email e d ++
     [mkUser k1 first last e ph st default_role None None None t t])%list.
Proof.
  unfold users_by_email, insert_cred, insert_user. cbn [users].
  rewrite List.filter_app. cbn [List.filter u_email].
  rewrite sql_text_eq_refl. reflexivity.
Qed.

Lemma creds_by_user_key_inserted e k1 k2 h first last ph st t d :
  creds_by_user_key k1 (insert_cred k2 k1 h (insert_user k1 first last e ph st t d)) =
  (creds_by_user_key k1 d ++ [mkCred k2 k1 h None None])%list.
Proof.
  unfold creds_by_user_key, insert_cred, insert_user. cbn [auth_credentials].
  rewrite List.filter_app. cbn [List.filter c_user_id].
  rewrite Z.eqb_refl. reflexivity.
Qed.

(** X6: on a world where no awaited call fails, [register] with an
    email no user has succeeds and returns the new row without a
    password field, and [login] with the same email and password then
    succeeds too, provided bcrypt accepts a password against its own
    hash and the key the new user gets is not in use. *)
Theorem register_then_login (userData : UserData) (w : World) :
  calm w = true ->
  users_by_email (email userData) (db w) = [] ->
  users_by_key (next_id w) (db w) = [] ->
  creds_by_user_key (next_id w) (db w) = [] ->
  (forall salt, bcrypt_compare (password userData)
                  (bcrypt_hash (password userData) salt) = true) ->
  exists row w1,
    register userData w = (Ok row, w1) /\
    get row "email" = JStr (email userData) /\
    get row "password" = JUndefined /\
    exists res, fst (login (email userData) (password userData) w1) = Ok res.
Proof.
  intros Hc Hfree Hfresh Hkey Hbcrypt.
  destruct (register_success userData w Hc Hfree Hfresh)
    as (row & w1 & t & salt & ph & E & Hc1 & Hdb & Hemail & Hpw).
  exists row, w1. split; [exact E|]. split; [exact Hemail|]. split; [exact Hpw|].
  unfold login, login_body, generateAccessToken, generateRefreshToken. run.
  rewrite Hdb, users_by_email_inserted, Hfree. cbn [app]. run.
  rewrite ?Hdb. cbn [u_id]. rewrite creds_by_user_key_inserted, Hkey. cbn [app]. run.
  cbn [c_password]. rewrite Hbcrypt. cbn [negb]. run. eexists. reflexivity.
Qed.

End Sessions.

Lemma login_failures_indistinguishable_witness :
  fst (login (P := Demo.demo) "nobody@example.com" "x" (Demo.demo_world [])) =
  fst (login (P := Demo.demo) "alice@example.com" "wrong" (Demo.demo_world [])).
Proof.
  apply (login_failures_indistinguishable (P := Demo.demo)
           "nobody@example.com" "x" "alice@example.com" "wrong" (Demo.demo_world [])
           Demo.alice [] Demo.alice_cred []); reflexivity.
Defined.

Lemma login_then_refreshToken_witness :
  exists res w1,
    login (P := signing) "alice@example.com" "secret" (Demo.demo_world []) = (Ok res, w1) /\
    exists access, fst (refreshToken (P := signing) (refreshToken_of res) w1) = Ok access.
Proof.
  destruct (login_then_refreshToken (P := signing) "alice@example.com" "secret"
              (Demo.demo_world []) Demo.alice [] Demo.alice_cred [])
    as (res & w1 & E & H); [reflexivity | reflexivity | reflexivity | reflexivity |].
  exists res, w1. split; [exact E|].
  vm_compute in E. injection E as <- <-.
  apply (H {["id" := JNum 7]}); vm_compute; reflexivity.
Defined.

Lemma logout_revokes_refresh_tokens_witness :
  fst (logout (P := Demo.demo) (JNum 7) (Demo.demo_world [])) = Ok true /\
  fst (refreshToken (P := Demo.demo) "refresh-7"
         (snd (logout (P := Demo.demo) (JNum 7) (Demo.demo_world [])))) =
    Throw (new_error AuthenticationError "Invalid refresh token").
Proof.
  destruct (logout_revokes_refresh_tokens (P := Demo.demo) (JNum 7) 7
              (Demo.demo_world []) eq_refl eq_refl) as (H1 & H2 & _).
  split; [exact H1|]. apply H2.
  intros decoded Hv. vm_compute in Hv. injection Hv as <-. reflexivity.
Defined.

Lemma register_then_login_witness :
  exists row w1,
    register (P := Demo.demo) dan (Demo.demo_world []) = (Ok row, w1) /\
    get row "email" = JStr "dan@example.com" /\
    get row "password" = JUndefined /\
    exists res, fst (login (P := Demo.demo) "dan@example.com" "pw" w1) = Ok res.
Proof.
  apply (register_then_login (P := Demo.demo) dan (Demo.demo_world []));
    first [reflexivity | intros salt; apply String.eqb_refl].
Defined.

End Sessions.

(** ** The life of a reset token *)

Module ResetTokens.
Import AuthService.
Section ResetTokens.
Context `{P : Platform}.

Lemma total_elapsed_nonneg (steps : list Step) : 0 <= total_elapsed steps.
Proof.
  induction steps as [|s steps IH]; [reflexivity|].
  change (0 <= Z.of_N (elapsed s) + total_elapsed steps).
  pose proof (N2Z.is_nonneg (elapsed s)). lia.
Qed.

Lemma horizon_tick (w : World) : horizon (tick w) = horizon w.
Proof.
  unfold horizon, tick. cbn [now script set_clock].
  destruct (script w) as [|s rest]; [cbn; lia|].
  change (total_elapsed (s :: rest)) with (Z.of_N (elapsed s) + total_elapsed rest).
  cbn [tail]. lia.
Qed.

Lemma now_le_horizon (w : World) : now w <= horizon w.
Proof. unfold horizon. pose proof (total_elapsed_nonneg (script w)). lia. Qed.

(** The first row a filter keeps. *)
Lemma filter_first {A} (p : A -> bool) (l : list A) (i : nat) (x : A) :
  l !! i = Some x ->
  p x = true ->
  (forall j y, (j < i)%nat -> l !! j = Some y -> p y = false) ->
  exists rest, List.filter p l = x :: rest.
Proof.
  revert i. induction l as [|a l IH]; intros i Hi Hx Hbefore; [discriminate|].
  destruct i as [|i].
  - inversion Hi; subst. cbn [List.filter]. rewrite Hx. eauto.
  - cbn [List.filter]. rewrite (Hbefore 0%nat a (Nat.lt_0_succ i) eq_refl).
    apply (IH i Hi Hx). intros j y Hj Hy.
    apply (Hbefore (S j) y); [lia | exact Hy].
Qed.

(** [resetPassword] when the first row the token matches is row [i] and
    its expiry lies beyond everything the script can take: the row gets
    the new hash and loses the token. *)
Lemma resetPassword_effective (token newPassword : string) (w : World)
    (i : nat) (c : CredRow) (e : Z) :
  calm w = true ->
  auth_credentials (db w) !! i = Some c ->
  matches token c = true ->
  (forall j c', (j < i)%nat -> auth_credentials (db w) !! j = Some c' ->
                matches token c' = false) ->
  c_reset_token_expires c = Some e ->
  horizon w < e ->
  exists w2,
    resetPassword token newPassword w = (Ok true, w2) /\
    calm w2 = true /\
    auth_credentials (db w2) !! i =
      Some (mkCred (c_id c) (c_user_id c)
                   (bcrypt_hash newPassword (hd 0%N (entropy w))) None None).
Proof.
  intros Hc Hrow Hm Hbefore He Hlate.
  destruct (filter_first (matches token) (auth_credentials (db w)) i c Hrow Hm Hbefore)
    as [rest Hf].
  unfold resetPassword, resetPassword_body. run.
  change (creds_by_reset_token token (db w))
    with (List.filter (matches token) (auth_credentials (db w))).
  rewrite Hf. run.
  eexists. split; [reflexivity|]. split; [calm_tac|].
  cbn [db set_db]. unfold consume_reset_token, map_creds. cbn [auth_credentials].
  rewrite list_lookup_fmap, Hrow. cbn [fmap option_fmap option_map].
  rewrite Z.eqb_refl. unfold expires_after. rewrite He.
  match goal with
  | |- context [(?T <? e)] => assert (HT : T < e)
  end.
  { eapply Z.le_lt_trans; [|exact Hlate].
    etransitivity; [apply now_le_horizon|].
    rewrite !horizon_tick.
    change (horizon (set_entropy ?r ?x)) with (horizon x).
    rewrite !horizon_tick.
    change (horizon (set_db ?r ?x)) with (horizon x).
    rewrite !horizon_tick. lia. }
  rewrite (proj2 (Z.ltb_lt _ _) HT). reflexivity.
Qed.

(** What a successful [requestPasswordReset] leaves. *)
Lemma requestPasswordReset_success (email : string) (w : World) u us :
  calm w = true ->
  users_by_email email (db w) = u :: us ->
  exists w1,
    requestPasswordReset email w = (Ok (hex_of_random (hd 0%N (entropy w))), w1) /\
    calm w1 = true /\
    horizon w1 = horizon w /\
    entropy w1 = tail (entropy w) /\
    db w1 = set_reset_token (u_id u) (hex_of_random (hd 0%N (entropy w)))
              (hour_later (now (tick w))) (db w).
Proof.
  intros Hc Hu. unfold requestPasswordReset, requestPasswordReset_body. run.
  rewrite Hu. run.
  eexists. split; [reflexivity|]. split; [calm_tac|].
  split; [|split; reflexivity].
  change (horizon (set_db ?r ?x)) with (horizon x). rewrite horizon_tick.
  change (horizon (set_entropy ?r ?x)) with (horizon x).
  change (horizon (set_db ?r ?x)) with (horizon x). apply horizon_tick.
Qed.

(** X7: the reset round trip.  On a world where no awaited call fails,
    when the expiry the store is given (the next hour on the
    application's wall clock, read when the user has been found) lies
    beyond everything the awaited calls can take on the store's clock,
    and the token to be issued matches no row yet,
    [requestPasswordReset] returns a token and [resetPassword] with
    that token and a new password returns [true]; afterwards the user's
    first credential row holds the hash of the new password and no
    reset token or expiry. *)
Theorem requestPasswordReset_then_resetPassword
    (email newPassword : string) (w : World) u us (i : nat) (c : CredRow) :
  calm w = true ->
  users_by_email email (db w) = u :: us ->
  auth_credentials (db w) !! i = Some c ->
  c_user_id c = u_id u ->
  (forall j c', (j < i)%nat -> auth_credentials (db w) !! j = Some c' ->
                c_user_id c' <> u_id u) ->
  creds_by_reset_token (hex_of_random (hd 0%N (entropy w))) (db w) = [] ->
  horizon w < hour_later (now (tick w)) ->
  exists token w1 w2 salt,
    requestPasswordReset email w = (Ok token, w1) /\
    resetPassword token newPassword w1 = (Ok true, w2) /\
    auth_credentials (db w2) !! i =
      Some (mkCred (c_id c) (c_user_id c) (bcrypt_hash newPassword salt) None None).
Proof.
  intros Hc Hu Hrow Huser Hfirst Hnone Hshort.
  destruct (requestPasswordReset_success email w u us Hc Hu)
    as (w1 & E1 & Hc1 & Hh1 & _ & Hdb1).
  set (token := hex_of_random (hd 0%N (entropy w))) in *.
  set (expires := hour_later (now (tick w))) in *.
  assert (Hunmatched : forall c', In c' (auth_credentials (db w)) ->
                                  matches token c' = false).
  { intros c' Hin. destruct (matches token c') eqn:Em; [|reflexivity].
    assert (H : In c' (creds_by_reset_token token (db w)))
      by (apply filter_In; split; assumption).
    rewrite Hnone in H. destruct H. }
  destruct (resetPassword_effective token newPassword w1 i
              (mkCred (c_id c) (c_user_id c) (c_password c) (Some token) (Some expires))
              expires Hc1) as (w2 & E2 & _ & Hrow2).
  - rewrite Hdb1. unfold set_reset_token, map_creds. cbn [auth_credentials].
    rewrite list_lookup_fmap, Hrow. cbn [fmap option_fmap option_map].
    rewrite Huser, Z.eqb_refl. reflexivity.
  - unfold matches. cbn [c_reset_token]. apply sql_text_eq_refl.
  - intros j c' Hj Hj'. rewrite Hdb1 in Hj'.
    unfold set_reset_token, map_creds in Hj'. cbn [auth_credentials] in Hj'.
    rewrite list_lookup_fmap in Hj'.
    destruct (auth_credentials (db w) !! j) as [c0|] eqn:E0; [|discriminate].
    cbn [fmap option_fmap option_map] in Hj'.
    pose proof (Hfirst j c0 Hj E0) as Hne.
    rewrite (proj2 (Z.eqb_neq _ _) Hne) in Hj'. inversion Hj'; subst.
    apply Hunmatched. apply list_elem_of_In, list_elem_of_lookup. eauto.
  - reflexivity.
  - rewrite Hh1. exact Hshort.
  - exists token, w1, w2, (hd 0%N (entropy w1)).
    split; [exact E1|]. split; [exact E2 | exact Hrow2].
Qed.

(** X8: a reset token works once.  On a world where no awaited call
    fails, when exactly one row carries the token and its expiry lies
    beyond everything the script can take, [resetPassword] returns
    [true], after which no row carries the token and a second
    [resetPassword] with it fails with ValidationError. *)
Theorem reset_token_is_single_use
    (token newPassword again : string) (w : World) (c : CredRow) (e : Z) :
  calm w = true ->
  creds_by_reset_token token (db w) = [c] ->
  c_reset_token_expires c = Some e ->
  horizon w < e ->
  let w2 := snd (resetPassword token newPassword w) in
  fst (resetPassword token newPassword w) = Ok true /\
  creds_by_reset_token token (db w2) = [] /\
  fst (resetPassword token again w2) =
    Throw (new_error ValidationError "Invalid or expired reset token").
Proof.
  intros Hc Hf He Hlate w2.
  assert (E : exists T h,
             T < e /\
             resetPassword token newPassword w =
               (Ok true, set_db (consume_reset_token (c_id c) h T (db w))
                           (tick (set_entropy (tail (entropy w))
                                    (tick (set_db (db w) (tick w))))))).
  { unfold resetPassword, resetPassword_body. run. rewrite Hf. run.
    eexists _, _. split; [|reflexivity].
    eapply Z.le_lt_trans; [|exact Hlate].
    etransitivity; [apply now_le_horizon|].
    rewrite !horizon_tick.
    change (horizon (set_entropy ?r ?x)) with (horizon x).
    rewrite !horizon_tick.
    change (horizon (set_db ?r ?x)) with (horizon x).
    rewrite !horizon_tick. lia. }
  destruct E as (T & h & HT & E). subst w2. rewrite E. cbn [fst snd].
  set (w2 := set_db _ _).
  assert (Hc2 : calm w2 = true) by (subst w2; calm_tac).
  assert (Hgone : creds_by_reset_token token (db w2) = []).
  { subst w2. cbn [db set_db].
    unfold creds_by_reset_token, consume_reset_token, map_creds.
    cbn [auth_credentials]. apply Sessions.filter_map_nil. intros x Hx.
    destruct ((c_id x =? c_id c) && expires_after T x) eqn:Eupd; [reflexivity|].
    destruct (c_reset_token x) as [t|] eqn:Et; [|reflexivity].
    destruct (sql_text_eq token t) eqn:Em; [|reflexivity].
    assert (Hin : In x (creds_by_reset_token token (db w))).
    { unfold creds_by_reset_token. apply filter_In. split; [exact Hx|].
      rewrite Et. exact Em. }
    rewrite Hf in Hin. destruct Hin as [<-|[]].
    rewrite Z.eqb_refl in Eupd. unfold expires_after in Eupd. rewrite He in Eupd.
    rewrite (proj2 (Z.ltb_lt _ _) HT) in Eupd. discriminate. }
  split; [reflexivity|]. split; [exact Hgone|].
  unfold resetPassword, resetPassword_body. run. rewrite Hgone. reflexivity.
Qed.

End ResetTokens.

Lemma requestPasswordReset_then_resetPassword_witness :
  exists token w1 w2 salt,
    requestPasswordReset (P := Demo.demo) "bob@example.com"
        (Demo.demo_world [Demo.ok_step; Demo.ok_step; Demo.ok_step]) = (Ok token, w1) /\
    resetPassword (P := Demo.demo) token "new-password" w1 = (Ok true, w2) /\
    auth_credentials (db w2) !! 1%nat =
      Some (mkCred 2 8 (bcrypt_hash (Platform := Demo.demo) "new-password" salt)
                   None None).
Proof.
  apply (requestPasswordReset_then_resetPassword (P := Demo.demo)
           "bob@example.com" "new-password"
           (Demo.demo_world [Demo.ok_step; Demo.ok_step; Demo.ok_step])
           Demo.bob [] 1 Demo.bob_cred); try reflexivity.
  intros j c' Hj Hrow. destruct j as [|j]; [|lia].
  inversion Hrow; subst. discriminate.
Defined.

(** A world in which Alice's reset token is still good. *)
Lemma reset_token_is_single_use_witness :
  let w := mkWorld (mkDb [Demo.alice] [mkCred 1 7 "$2a$10$secret" (Some "tok-7")
                                         (Some 9000)])
                   None ∅ ∅ 100 5000 [Demo.ok_step] [] 0 [] in
  fst (resetPassword (P := Demo.demo) "tok-7" "new-password" w) = Ok true /\
  fst (resetPassword (P := Demo.demo) "tok-7" "other"
         (snd (resetPassword (P := Demo.demo) "tok-7" "new-password" w))) =
    Throw (new_error ValidationError "Invalid or expired reset token").
Proof.
  intros w.
  destruct (reset_token_is_single_use (P := Demo.demo) "tok-7" "new-password" "other"
              w (mkCred 1 7 "$2a$10$secret" (Some "tok-7") (Some 9000)) 9000)
    as (H1 & _ & H3); [reflexivity | reflexivity | reflexivity | reflexivity |].
  split; [exact H1 | exact H3].
Defined.

End ResetTokens.

(** ** What a reader of events is shown *)

Module Visibility.
Import EventQueries.
Section Visibility.
Context `{P : Platform}.

Lemma strict_eq_JStr (v : JsVal) (s : string) :
  strict_eq v (JStr s) = true -> v = JStr s.
Proof.
  destruct v; cbn [strict_eq]; try discriminate.
  intros H. apply String.eqb_eq in H. congruence.
Qed.

Lemma strict_neq_JStr (v : JsVal) (s : string) :
  v <> JStr s -> strict_neq v (JStr s) = true.
Proof.
  intros H. unfold strict_neq. destruct (strict_eq v (JStr s)) eqn:E; [|reflexivity].
  destruct (H (strict_eq_JStr v s E)).
Qed.

(** X9: whatever the world does, when [getEventById] returns an event
    to a caller whose [isAdmin] is falsy, that event is a row of the
    table and its status is [activo]. *)
Theorem getEventById_public_is_active (id isAdmin : JsVal) (w : World) event w' :
  getEventById id isAdmin w = (Ok event, w') ->
  truthy isAdmin = false ->
  get event "status" = JStr "activo" /\
  exists k, sql_key id = Some k /\ events w !! k = Some event.
Proof.
  intros E Hadm. unfold getEventById in E.
  destruct (truthy id); cbn [negb] in E; [|discriminate].
  unfold getEventById_body, getEventById_catch, Event_findById in E.
  rewrite Hadm in E. cbn [negb andb] in E.
  cbv beta iota zeta delta [bind ret throw try_catch gets findById] in E.
  unfold await_env in E.
  change (events (tick w)) with (events w) in E.
  assert (Hno : forall e w1,
             (if instanceof e ValidationError || instanceof e NotFoundError
              then fun w : World => (Throw e, w)
              else fun w : World =>
                     (Throw (new_error DatabaseError "Error al obtener el evento"), w))
               w1 <> (Ok event, w')).
  { intros e w1. destruct (instanceof e ValidationError || instanceof e NotFoundError);
      discriminate. }
  destruct (match script w with
            | [] => Ok tt
            | s :: _ => match rejects s with
                        | Some msg => Throw (Unclassified msg)
                        | None => Ok tt
                        end
            end) as [u|e]; [|(exfalso; revert E; apply Hno)].
  destruct (sql_key id) as [k|]; [|(exfalso; revert E; apply Hno)].
  destruct (events w !! k) as [row|] eqn:Erow; [|(exfalso; revert E; apply Hno)].
  destruct (strict_neq (get row "status") (JStr "activo")) eqn:Est;
    [(exfalso; revert E; apply Hno)|].
  inversion E; subst. split; [|eauto].
  apply strict_eq_JStr. unfold strict_neq in Est.
  destruct (strict_eq (get event "status") (JStr "activo")); [reflexivity|discriminate].
Qed.

(** X10: to a caller whose [isAdmin] is falsy, an event that is not
    [activo] and an event that does not exist are the same: the two
    calls return the same exception and leave the same world, whether
    the lookup rejects or not. *)
Theorem hidden_event_looks_missing (id id' isAdmin : JsVal) (w : World) k row :
  truthy id = true -> truthy id' = true -> truthy isAdmin = false ->
  sql_key id = Some k -> events w !! k = Some row ->
  get row "status" <> JStr "activo" ->
  (forall k', sql_key id' = Some k' -> events w !! k' = None) ->
  getEventById id isAdmin w = getEventById id' isAdmin w.
Proof.
  intros Hid Hid' Hadm Hk Hrow Hst Hmiss.
  unfold getEventById. rewrite Hid, Hid'. cbn [negb].
  unfold getEventById_body, getEventById_catch, Event_findById.
  rewrite Hadm. cbn [negb andb].
  unfold_eff. unfold await_env.
  change (events (tick w)) with (events w).
  destruct (match script w with
            | [] => Ok tt
            | s :: _ => match rejects s with
                        | Some msg => Throw (Unclassified msg)
                        | None => Ok tt
                        end
            end) as [u|e]; [|reflexivity].
  rewrite Hk, Hrow, (strict_neq_JStr _ _ Hst).
  destruct (sql_key id') as [k'|]; [|reflexivity].
  rewrite (Hmiss k' eq_refl). reflexivity.
Qed.

End Visibility.

Lemma getEventById_public_is_active_witness :
  get Demo.demo_event "status" = JStr "activo" /\
  exists k, sql_key (Platform := Demo.demo) (JStr "1") = Some k /\
            events (Demo.demo_world []) !! k = Some Demo.demo_event.
Proof.
  apply (getEventById_public_is_active (P := Demo.demo) (JStr "1") (JBool false)
           (Demo.demo_world []) Demo.demo_event (tick (Demo.demo_world [])));
    reflexivity.
Defined.

Lemma hidden_event_looks_missing_witness :
  let w := set_events {[1 := <["status" := JStr "cancelado"]> Demo.demo_event]}
             (Demo.demo_world []) in
  getEventById (P := Demo.demo) (JNum 1) JUndefined w =
  getEventById (P := Demo.demo) (JNum 2) JUndefined w.
Proof.
  intros w.
  apply (hidden_event_looks_missing (P := Demo.demo) (JNum 1) (JNum 2) JUndefined w 1
           (<["status" := JStr "cancelado"]> Demo.demo_event));
    try reflexivity.
  - vm_compute. discriminate.
  - intros k' Hk'. inversion Hk'; subst. reflexivity.
Defined.

End Visibility.

(** ** Listings *)

Module Pagination.
Import EventQueries BlogQueries.
Section Pagination.
Context `{P : Platform}.
Context (find_rows : gmap string JsVal -> gmap Z (gmap string JsVal) ->
                     list (gmap string JsVal)).
Context (count_rows : gmap string JsVal -> gmap Z (gmap string JsVal) -> JsVal).

Lemma decimal_not_empty (n : Z) : decimal n <> "".
Proof.
  intros H. pose proof (ParseIntFacts.parseInt_decimal n) as E.
  rewrite H in E. vm_compute in E. discriminate E.
Qed.

Lemma parseInt_numeral (v : JsVal) (n : Z) : numeral v n -> parseInt v = JNum n.
Proof.
  intros [-> | ->];
    [apply ParseIntFacts.parseInt_JNum | apply ParseIntFacts.parseInt_decimal].
Qed.

Lemma falsy_numeral (v : JsVal) (n : Z) :
  numeral v n -> truthy v = false -> v = JNum 0 /\ n = 0.
Proof.
  intros [-> | ->]; cbn [truthy]; intros H.
  - apply negb_false_iff, Z.eqb_eq in H. subst. auto.
  - apply negb_false_iff, String.eqb_eq in H. destruct (decimal_not_empty n H).
Qed.

Lemma truthy_numeral (v : JsVal) (n : Z) : numeral v n -> n <> 0 -> truthy v = true.
Proof.
  intros Hv Hn. destruct (truthy v) eqn:E; [reflexivity|].
  destruct (falsy_numeral v n Hv E) as [_ ->]. destruct (Hn eq_refl).
Qed.

Lemma parse_if_truthy_numeral (v : JsVal) (n : Z) :
  numeral v n -> parse_if_truthy v = JNum n.
Proof.
  intros Hv. unfold parse_if_truthy. destruct (truthy v) eqn:E.
  - apply parseInt_numeral, Hv.
  - destruct (falsy_numeral v n Hv E) as [-> ->]. reflexivity.
Qed.

Lemma number_read_numeral (v : JsVal) (n : Z) :
  numeral v n -> number_read v = Finite n.
Proof.
  intros Hv. unfold number_read. destruct (truthy v) eqn:E.
  - rewrite (parseInt_numeral v n Hv). reflexivity.
  - destruct (falsy_numeral v n Hv E) as [-> ->]. reflexivity.
Qed.

Lemma page_of_numerals (filters : gmap string JsVal) (l o : Z) :
  numeral (get filters "limit") l ->
  numeral (get filters "offset") o ->
  l <> 0 ->
  page_of filters = Finite (o / l + 1).
Proof.
  intros Hl Ho Hl0. unfold page_of.
  rewrite (parse_if_truthy_numeral _ o Ho), (number_read_numeral _ l Hl).
  destruct (o =? 0) eqn:E.
  - apply Z.eqb_eq in E. subst. rewrite Z.div_0_l by exact Hl0. reflexivity.
  - destruct l; [destruct (Hl0 eq_refl) | reflexivity | reflexivity].
Qed.

Lemma limit_of_numeral {A} (filters : gmap string JsVal) (rows : list A) (l : Z) :
  numeral (get filters "limit") l -> l <> 0 -> limit_of filters rows = JNum l.
Proof.
  intros Hl Hl0. unfold limit_of. rewrite (parse_if_truthy_numeral _ l Hl).
  cbn [truthy]. rewrite (proj2 (Z.eqb_neq l 0) Hl0). reflexivity.
Qed.

Lemma get_insert_ne (f : gmap string JsVal) (k k' : string) (v : JsVal) :
  k <> k' -> get (<[k := v]> f) k' = get f k'.
Proof. intros H. unfold get. rewrite lookup_insert_ne by exact H. reflexivity. Qed.

Lemma parse_field (f : gmap string JsVal) (k : string) (n : Z) :
  numeral (get f k) n ->
  (if truthy (get f k) then <[k := parseInt (get f k)]> f else f) = <[k := JNum n]> f.
Proof.
  intros Hn. destruct (truthy (get f k)) eqn:E.
  - rewrite (parseInt_numeral _ n Hn). reflexivity.
  - destruct (falsy_numeral _ n Hn E) as [Hv ->].
    symmetry. apply insert_id. unfold get in Hv.
    destruct (f !! k) as [x|]; cbn in Hv; [congruence | discriminate].
Qed.

Lemma parsed_filters_numerals (filters : gmap string JsVal) (l o : Z) :
  numeral (get filters "limit") l ->
  numeral (get filters "offset") o ->
  parsed_filters filters = <["offset" := JNum o]> (<["limit" := JNum l]> filters).
Proof.
  intros Hl Ho. unfold parsed_filters. cbv zeta.
  rewrite (parse_field filters "limit" l Hl).
  apply parse_field. rewrite get_insert_ne by discriminate. exact Ho.
Qed.

(** X11: [getEvents] with a limit and an offset that are safe integers,
    given as numbers or as decimal numerals, the limit positive, on a
    world where no awaited call fails: both queries are asked with the
    two as numbers, the limit reported is the limit, and the page
    reported is the one whose bucket of [limit] rows holds the
    offset. *)
Theorem getEvents_page (filters : gmap string JsVal) (w : World) (l o : Z) :
  calm w = true ->
  numeral (get filters "limit") l ->
  numeral (get filters "offset") o ->
  safe_integer l = true ->
  safe_integer o = true ->
  0 < l ->
  exists pg w',
    getEvents find_rows count_rows filters w = (Ok pg, w') /\
    limit pg = JNum l /\
    (exists p, page pg = Finite p /\ (p - 1) * l <= o < p * l) /\
    let asked := <["isAdminPanel" := js_or (get filters "isAdminPanel") (JBool false)]>
                   (<["offset" := JNum o]> (<["limit" := JNum l]> filters)) in
    rows pg = find_rows asked (events w) /\
    total pg = count_rows asked (events w).
Proof.
  intros Hc Hl Ho _ _ Hpos.
  unfold getEvents, getEvents_body, Event_findAll, Event_count. cbv zeta.
  rewrite (parsed_filters_numerals filters l o Hl Ho).
  rewrite !get_insert_ne by discriminate.
  run. eexists _, _. split; [reflexivity|]. cbn [limit page rows total].
  split; [apply limit_of_numeral; [exact Hl | lia]|].
  split; [|split; reflexivity].
  exists (o / l + 1). split; [apply page_of_numerals; [exact Hl | exact Ho | lia]|].
  pose proof (Z.div_mod o l ltac:(lia)) as Hdm.
  pose proof (Z.mod_pos_bound o l Hpos) as Hb. nia.
Qed.

(** X12: [getBlogs] with an offset but no limit, on a world where no
    awaited call fails: the page reported is [NaN] and the limit
    reported is the number of rows returned. *)
Theorem getBlogs_offset_without_limit (filters : gmap string JsVal) (w : World) (o : Z) :
  calm w = true ->
  get filters "limit" = JUndefined ->
  numeral (get filters "offset") o ->
  o <> 0 ->
  exists pg w',
    getBlogs find_rows count_rows filters w = (Ok pg, w') /\
    page pg = NotANumber /\
    limit pg = JNum (Z.of_nat (length (rows pg))).
Proof.
  intros Hc Hl Ho Ho0.
  unfold getBlogs, getBlogs_body, Blog_findAll, Blog_count. cbv zeta.
  run. eexists _, _. split; [reflexivity|]. cbn [limit page rows].
  unfold page_of, limit_of. rewrite (parse_if_truthy_numeral _ o Ho), Hl.
  rewrite (proj2 (Z.eqb_neq o 0) Ho0). split; reflexivity.
Qed.

(** X13: [getAdminEvents] does not look at an [isAdminPanel] the caller
    put in the filters: whatever it is, the call is the call without
    it. *)
Theorem getAdminEvents_ignores_caller_flag (filters : gmap string JsVal) (v : JsVal)
    (w : World) :
  getAdminEvents find_rows count_rows (<["isAdminPanel" := v]> filters) w =
  getAdminEvents find_rows count_rows filters w.
Proof. unfold getAdminEvents. rewrite insert_insert_eq. reflexivity. Qed.

(** X14: [getAdminBlogs] asks the same two queries with the same
    filters as [getBlogs]: when one returns a page the other returns
    that page, and when one fails both fail with DatabaseError, each
    with its own message, leaving the same world. *)
Theorem getAdminBlogs_same_as_getBlogs (filters : gmap string JsVal) (w : World) :
  match getBlogs find_rows count_rows filters w with
  | (Ok pg, w') => getAdminBlogs find_rows count_rows filters w = (Ok pg, w')
  | (Throw e, w') =>
      e = new_error DatabaseError "Error al obtener los blogs" /\
      getAdminBlogs find_rows count_rows filters w =
        (Throw (new_error DatabaseError
                  "Error al obtener los blogs para administración"), w')
  end.
Proof.
  unfold getBlogs, getAdminBlogs, try_catch, throw.
  destruct (getBlogs_body find_rows count_rows filters w) as [[pg|e] w'];
    [reflexivity | split; reflexivity].
Qed.

End Pagination.

(** [limit=5, offset=10], both as the query string gives them. *)
Lemma getEvents_page_witness :
  exists pg w',
    getEvents all_rows row_count
      (list_to_map [("limit", JStr "5"); ("offset", JStr "10")])
      (Demo.demo_world []) = (Ok pg, w') /\
    limit pg = JNum 5 /\
    (exists p, page pg = Finite p /\ (p - 1) * 5 <= 10 < p * 5) /\
    rows pg = [Demo.demo_event] /\
    total pg = JNum 1.
Proof.
  destruct (getEvents_page all_rows row_count
              (list_to_map [("limit", JStr "5"); ("offset", JStr "10")])
              (Demo.demo_world []) 5 10)
    as (pg & w' & E & Hl & Hp & Hr & Ht);
    [reflexivity | right; reflexivity | right; reflexivity
    | reflexivity | reflexivity | lia |].
  exists pg, w'. split; [exact E|]. split; [exact Hl|]. split; [exact Hp|].
  split; [rewrite Hr | rewrite Ht]; vm_compute; reflexivity.
Defined.

Lemma getBlogs_offset_without_limit_witness :
  exists pg w',
    getBlogs all_rows row_count {["offset" := JStr "10"]}
      (Demo.demo_world []) = (Ok pg, w') /\
    page pg = NotANumber /\
    limit pg = JNum (Z.of_nat (length (rows pg))).
Proof.
  apply (getBlogs_offset_without_limit all_rows row_count
           {["offset" := JStr "10"]} (Demo.demo_world []) 10);
    [reflexivity | reflexivity | right; reflexivity | lia].
Defined.

End Pagination.

(** ** Creating events and blogs *)

Module Creation.
Import EventService BlogService.
Section Creation.
Context `{P : Platform}.

Lemma count_char_app (c : ascii) (s t : string) :
  count_char c (s ++ t) = (count_char c s + count_char c t)%nat.
Proof.
  induction s as [|a s IH]; [reflexivity|].
  change (String a s ++ t) with (String a (s ++ t)).
  cbn [count_char]. rewrite IH. lia.
Qed.

Lemma append_not_empty (s : string) : String.eqb (s ++ ":00") "" = false.
Proof. destruct s; reflexivity. Qed.

Lemma get_insert_eq (f : gmap string JsVal) (k : string) (v : JsVal) :
  get (<[k := v]> f) k = v.
Proof. unfold get. rewrite lookup_insert_eq. reflexivity. Qed.

Lemma get_insert_other (f : gmap string JsVal) (k k' : string) (v : JsVal) :
  k <> k' -> get (<[k := v]> f) k' = get f k'.
Proof. intros H. unfold get. rewrite lookup_insert_ne by exact H. reflexivity. Qed.

(** What [normalize_event_time] does to a body whose [event_time] is a
    text. *)
Lemma normalize_event_time_text (eventData : gmap string JsVal) (t : string)
    (w : World) :
  get eventData "event_time" = JStr t ->
  exists d,
    normalize_event_time eventData w = (Ok d, w) /\
    get d "event_time" = JStr (normalized_time t) /\
    forall f, f <> "event_time" -> get d f = get eventData f.
Proof.
  intros Ht. unfold normalize_event_time, normalized_time. rewrite Ht.
  cbn [truthy split_colon_length to_string].
  destruct (String.eqb t "") eqn:Ee; cbn [negb].
  - apply String.eqb_eq in Ee. subst t. exists eventData. auto.
  - unfold bind, ret.
    change (S (count_char ":" t) =? 2)%nat with (count_char ":" t =? 1)%nat.
    destruct (count_char ":" t =? 1)%nat.
    + eexists. split; [reflexivity|]. split; [apply get_insert_eq|].
      intros f Hf. apply get_insert_other. congruence.
    + exists eventData. auto.
Qed.

(** X15: normalizing an event body twice is normalizing it once: when
    [normalize_event_time] returns a body it leaves the world alone, and
    applied to that body it returns it unchanged; and it throws only
    something that is none of the classified errors. *)
Theorem normalize_event_time_idempotent (eventData : gmap string JsVal) (w : World) :
  match normalize_event_time eventData w with
  | (Ok d, w1) => w1 = w /\ normalize_event_time d w = (Ok d, w)
  | (Throw e, w1) => w1 = w /\ is_domain e = false
  end.
Proof.
  unfold normalize_event_time.
  destruct (truthy (get eventData "event_time")) eqn:Et.
  - destruct (get eventData "event_time") as [| |b|n| |t] eqn:Ev;
      try (split; reflexivity).
    cbn [split_colon_length to_string]. unfold bind, ret.
    destruct (S (count_char ":" t) =? 2)%nat eqn:En.
    + split; [reflexivity|]. rewrite get_insert_eq. cbn [truthy to_string].
      rewrite append_not_empty. cbn [negb split_colon_length].
      rewrite count_char_app. apply Nat.eqb_eq in En. unfold bind, ret.
      replace (S (count_char ":" t + count_char ":" ":00") =? 2)%nat with false;
        [reflexivity|].
      symmetry. apply Nat.eqb_neq. cbn [count_char Ascii.eqb]. cbn. lia.
    + split; [reflexivity|]. rewrite Ev, Et. cbn [split_colon_length].
      unfold bind, ret. rewrite En. reflexivity.
  - split; [reflexivity|]. rewrite Et. reflexivity.
Qed.

Lemma all_required_event_fields (eventData : gmap string JsVal) :
  missing_fields required_event_fields eventData = [] ->
  negb (truthy (get eventData "event_name"))
  || negb (truthy (get eventData "event_date"))
  || negb (truthy (get eventData "event_time"))
  || negb (truthy (get eventData "location"))
  || negb (truthy (get eventData "event_type")) = false.
Proof.
  unfold missing_fields, required_event_fields. cbn [List.filter].
  destruct (truthy (get eventData "event_name")); cbn [negb]; [|discriminate].
  destruct (truthy (get eventData "event_date")); cbn [negb]; [|discriminate].
  destruct (truthy (get eventData "event_time")); cbn [negb]; [|discriminate].
  destruct (truthy (get eventData "location")); cbn [negb]; [|discriminate].
  destruct (truthy (get eventData "event_type")); cbn [negb]; [|discriminate].
  reflexivity.
Qed.

Lemma all_required_blog_fields (blogData : gmap string JsVal) :
  missing_fields required_blog_fields blogData = [] ->
  negb (truthy (get blogData "title"))
  || negb (truthy (get blogData "category"))
  || negb (truthy (get blogData "content")) = false.
Proof.
  unfold missing_fields, required_blog_fields. cbn [List.filter].
  destruct (truthy (get blogData "title")); cbn [negb]; [|discriminate].
  destruct (truthy (get blogData "category")); cbn [negb]; [|discriminate].
  destruct (truthy (get blogData "content")); cbn [negb]; [|discriminate].
  reflexivity.
Qed.

(** X16: [createEvent] with every required field and a text
    [event_time], on a world where no awaited call fails: it returns
    the new key, and the object it hands to [Event.create] names the
    caller as [created_by] whatever the body said, holds the time with
    seconds, holds a boolean [is_featured], and is the body in every
    other field; the connection is back in the pool. *)
Theorem createEvent_sets_owner (eventData : gmap string JsVal) (userId : JsVal)
    (t : string) (w : World) :
  calm w = true ->
  missing_fields required_event_fields eventData = [] ->
  get eventData "event_time" = JStr t ->
  exists data w',
    createEvent eventData userId w = (Ok (JNum (next_id w)), w') /\
    calls w' = EventCreate data :: calls w /\
    get data "created_by" = userId /\
    get data "event_time" = JStr (normalized_time t) /\
    get data "is_featured" = JBool (is_true_flag (get eventData "is_featured")) /\
    (forall f, f <> "created_by" -> f <> "event_time" -> f <> "is_featured" ->
               get data f = get eventData f) /\
    events w' !! next_id w = Some (<["id" := JNum (next_id w)]> data) /\
    pool_out w' = pool_out w.
Proof.
  intros Hc Hall Ht. unfold createEvent.
  rewrite (all_required_event_fields eventData Hall).
  destruct (normalize_event_time_text eventData t w Ht) as (d & Ed & Hdt & Hd).
  unfold bind at 1. rewrite Ed. unfold Event_create. run.
  eexists _, _. split; [reflexivity|]. split; [reflexivity|].
  split; [rewrite get_insert_other by discriminate; apply get_insert_eq|].
  split; [rewrite !get_insert_other by discriminate; exact Hdt|].
  split; [rewrite get_insert_eq, (Hd "is_featured") by discriminate; reflexivity|].
  split; [|split; [apply lookup_insert_eq | reflexivity]].
  intros f H1 H2 H3. rewrite !get_insert_other by congruence. apply Hd, H2.
Qed.

(** X17: [createBlog] with every required field, on a world where no
    awaited call fails: it returns the new key, and the object it hands
    to [Blog.create] names the caller as [author_id] whatever the body
    said and is the body in every other field, except that a falsy
    [is_featured] becomes [false]; a truthy one is handed on as it is,
    text included. *)
Theorem createBlog_sets_author (blogData : gmap string JsVal) (userId : JsVal)
    (w : World) :
  calm w = true ->
  missing_fields required_blog_fields blogData = [] ->
  exists data w',
    createBlog blogData userId w = (Ok (JNum (next_id w)), w') /\
    calls w' = BlogCreate data :: calls w /\
    get data "author_id" = userId /\
    get data "is_featured" =
      (if truthy (get blogData "is_featured") then get blogData "is_featured"
       else JBool false) /\
    (forall f, f <> "author_id" -> f <> "is_featured" -> get data f = get blogData f) /\
    blogs w' !! next_id w = Some (<["id" := JNum (next_id w)]> data) /\
    pool_out w' = pool_out w.
Proof.
  intros Hc Hall. unfold createBlog.
  rewrite (all_required_blog_fields blogData Hall).
  unfold Blog_create. run.
  eexists _, _. split; [reflexivity|]. split; [reflexivity|].
  split; [rewrite get_insert_other by discriminate; apply get_insert_eq|].
  split; [apply get_insert_eq|].
  split; [|split; [apply lookup_insert_eq | reflexivity]].
  intros f H1 H2. rewrite !get_insert_other by congruence. reflexivity.
Qed.

(** X18: [createEvent] with every required field but an [event_time]
    that is no text: the call to [split] fails before the [try] block
    is entered, so what the caller gets is none of the classified
    errors, and the world is as it was: no connection was taken. *)
Theorem createEvent_time_not_text (eventData : gmap string JsVal) (userId : JsVal)
    (w : World) :
  missing_fields required_event_fields eventData = [] ->
  (forall t, get eventData "event_time" <> JStr t) ->
  exists e, createEvent eventData userId w = (Throw e, w) /\ is_domain e = false.
Proof.
  intros Hall Hnot. unfold createEvent.
  pose proof (all_required_event_fields eventData Hall) as Hreq.
  rewrite Hreq.
  assert (Ht : truthy (get eventData "event_time") = true).
  { destruct (truthy (get eventData "event_time")); [reflexivity|].
    cbn [negb] in Hreq. rewrite !orb_true_r in Hreq. cbn in Hreq.
    destruct (negb (truthy (get eventData "event_name"))
              || negb (truthy (get eventData "event_date"))); discriminate. }
  unfold normalize_event_time. rewrite Ht.
  destruct (get eventData "event_time") as [| |b|n| |t] eqn:Ev;
    try (eexists; split; reflexivity).
  destruct (Hnot t eq_refl).
Qed.

(** X19: in [updateEvent] the same call to [split] is inside the [try]
    block: when the owner sends a patch whose [event_time] is truthy
    and no text, on a world where no awaited call fails, the caller
    gets DatabaseError, no model call is made, and the connection is
    back in the pool. *)
Theorem updateEvent_time_not_text (id userId : JsVal) (eventData : gmap string JsVal)
    (w : World) (k u : Z) (event : gmap string JsVal) :
  calm w = true -> truthy id = true -> sql_key id = Some k ->
  events w !! k = Some event ->
  get event "created_by" = JNum u ->
  numeral userId u ->
  truthy (get eventData "event_time") = true ->
  (forall t, get eventData "event_time" <> JStr t) ->
  exists d,
    fst (updateEvent id eventData userId w) = Throw (Domain d) /\
    kind d = DatabaseError /\
    calls (snd (updateEvent id eventData userId w)) = calls w /\
    pool_out (snd (updateEvent id eventData userId w)) = pool_out w.
Proof.
  intros Hc Hid Hk Hrow Hcb Hu Ht Hnot.
  assert (Hown : strict_neq (get event "created_by") (parseInt userId) = false).
  { rewrite Hcb. destruct Hu as [-> | ->].
    - rewrite ParseIntFacts.parseInt_JNum. unfold strict_neq. cbn [strict_eq].
      rewrite Z.eqb_refl. reflexivity.
    - change (parseInt (JStr (decimal u))) with (parseInt_string (decimal u)).
      rewrite ParseIntFacts.parseInt_decimal. unfold strict_neq. cbn [strict_eq].
      rewrite Z.eqb_refl. reflexivity. }
  assert (Hget : get (strip_managed eventData) "event_time" = get eventData "event_time").
  { unfold get, strip_managed. rewrite !lookup_delete_ne by discriminate. reflexivity. }
  unfold updateEvent, updateEvent_body, Event_findById, EventService.owner_catch,
    normalize_event_time.
  rewrite Hid. cbn [negb]. run. rewrite Hk. run. rewrite Hrow. run.
  rewrite Hown. rewrite Hget, Ht.
  destruct (get eventData "event_time") as [| |b|n| |t] eqn:Ev;
    try discriminate Ht;
    try (cbn [split_colon_length]; run; eexists; repeat split; reflexivity).
  destruct (Hnot t eq_refl).
Qed.

End Creation.

Lemma createEvent_sets_owner_witness :
  exists data w',
    createEvent
      (<["created_by" := JNum 99]> (<["event_name" := JStr "Feria"]> event_without_name))
      (JNum 7) (Demo.demo_world []) = (Ok (JNum 100), w') /\
    calls w' = [EventCreate data] /\
    get data "created_by" = JNum 7 /\
    get data "event_time" = JStr "14:30:00" /\
    get data "is_featured" = JBool false.
Proof.
  destruct (createEvent_sets_owner
              (<["created_by" := JNum 99]>
                 (<["event_name" := JStr "Feria"]> event_without_name))
              (JNum 7) "14:30" (Demo.demo_world []))
    as (data & w' & E & Hcalls & Hown & Htime & Hfeat & _);
    [reflexivity | reflexivity | reflexivity |].
  exists data, w'. split; [exact E|]. split; [exact Hcalls|]. split; [exact Hown|].
  split; [exact Htime | exact Hfeat].
Defined.

Lemma createBlog_sets_author_witness :
  exists data w',
    createBlog
      (list_to_map [("title", JStr "Hola"); ("category", JStr "news");
                    ("content", JStr "..."); ("author_id", JNum 99);
                    ("is_featured", JStr "false")])
      (JNum 7) (Demo.demo_world []) = (Ok (JNum 100), w') /\
    calls w' = [BlogCreate data] /\
    get data "author_id" = JNum 7 /\
    get data "is_featured" = JStr "false".
Proof.
  destruct (createBlog_sets_author
              (list_to_map [("title", JStr "Hola"); ("category", JStr "news");
                            ("content", JStr "..."); ("author_id", JNum 99);
                            ("is_featured", JStr "false")])
              (JNum 7) (Demo.demo_world []))
    as (data & w' & E & Hcalls & Hown & Hfeat & _); [reflexivity | reflexivity |].
  exists data, w'. split; [exact E|]. split; [exact Hcalls|].
  split; [exact Hown | exact Hfeat].
Defined.

Lemma createEvent_time_not_text_witness :
  exists e,
    createEvent
      (<["event_time" := JNum 1430]>
         (<["event_name" := JStr "Feria"]> event_without_name))
      (JNum 7) (Demo.demo_world []) = (Throw e, Demo.demo_world []) /\
    is_domain e = false.
Proof.
  apply (createEvent_time_not_text
           (<["event_time" := JNum 1430]>
              (<["event_name" := JStr "Feria"]> event_without_name))
           (JNum 7) (Demo.demo_world [])); [reflexivity|].
  intros t. vm_compute. discriminate.
Defined.

Lemma updateEvent_time_not_text_witness :
  exists d,
    fst (updateEvent (P := Demo.demo) (JNum 1) {["event_time" := JNum 1430]} (JNum 7)
           (Demo.demo_world [])) = Throw (Domain d) /\
    kind d = DatabaseError /\
    calls (snd (updateEvent (P := Demo.demo) (JNum 1) {["event_time" := JNum 1430]}
                  (JNum 7) (Demo.demo_world []))) = [] /\
    pool_out (snd (updateEvent (P := Demo.demo) (JNum 1) {["event_time" := JNum 1430]}
                     (JNum 7) (Demo.demo_world []))) = 0%nat.
Proof.
  apply (updateEvent_time_not_text (P := Demo.demo) (JNum 1) (JNum 7)
           {["event_time" := JNum 1430]} (Demo.demo_world []) 1 7 Demo.demo_event);
    try reflexivity.
  - left. reflexivity.
  - intros t. vm_compute. discriminate.
Defined.

End Creation.

(** ** Connections *)

Module Connections.
Import AuthService.
Section Connections.
Context `{P : Platform}.

Lemma releases_ret {A} (a : A) : releases (ret a).
Proof. intros w. reflexivity. Qed.

Lemma releases_throw {A} (e : Exn) : releases (throw (A := A) e).
Proof. intros w. reflexivity. Qed.

Lemma releases_gets {A} (f : World -> A) : releases (gets f).
Proof. intros w. reflexivity. Qed.

Lemma releases_modify (f : World -> World) :
  (forall w, pool_out (f w) = pool_out w) -> releases (modify f).
Proof. intros H w. apply H. Qed.

Lemma releases_await_env : releases await_env.
Proof. intros w. reflexivity. Qed.

Lemma releases_bind {A B} (m : M A) (k : A -> M B) :
  releases m -> (forall a, releases (k a)) -> releases (bind m k).
Proof.
  intros Hm Hk w. unfold bind. specialize (Hm w).
  destruct (m w) as [[a|e] w1]; cbn [snd] in *; [|exact Hm].
  rewrite (Hk a w1). exact Hm.
Qed.

Lemma releases_try_catch {A} (m : M A) (h : Exn -> M A) :
  releases m -> (forall e, releases (h e)) -> releases (try_catch m h).
Proof.
  intros Hm Hh w. unfold try_catch. specialize (Hm w).
  destruct (m w) as [[a|e] w1]; cbn [snd] in *; [exact Hm|].
  rewrite (Hh e w1). exact Hm.
Qed.

(** The pattern of the resource methods: take a connection, run the
    body in a [try] whose [finally] releases it. *)
Lemma releases_with_connection {A} (body : M A) :
  releases body -> releases (bind getConnection (fun _ => finally body release)).
Proof.
  intros Hb w. unfold getConnection, finally, release, modify, bind.
  destruct (await_env w) as [[u|e] w1] eqn:E.
  - assert (H1 : pool_out w1 = pool_out w)
      by (change w1 with (snd (Ok u, w1)); rewrite <- E; apply releases_await_env).
    specialize (Hb (set_pool_out (S (pool_out w1)) w1)).
    destruct (body (set_pool_out (S (pool_out w1)) w1)) as [r w2].
    cbn [snd pool_out set_pool_out] in *. rewrite Hb. cbn [Nat.pred]. exact H1.
  - change w1 with (snd (Throw (A := unit) e, w1)). rewrite <- E.
    apply releases_await_env.
Qed.

Lemma releases_findById table id : releases (findById table id).
Proof.
  apply releases_bind; [apply releases_await_env|]. intros _. apply releases_gets.
Qed.

Lemma releases_write_row table set_table id f c :
  (forall t w, pool_out (set_table t w) = pool_out w) ->
  releases (write_row table set_table id f c).
Proof.
  intros Hs. apply releases_bind; [apply releases_await_env|]. intros _.
  apply releases_bind; [apply releases_modify; reflexivity|]. intros _ w.
  destruct (sql_key id) as [k|]; [|reflexivity].
  destruct (table w !! k); [apply Hs | reflexivity].
Qed.

Lemma releases_create_row table set_table data c :
  (forall t w, pool_out (set_table t w) = pool_out w) ->
  releases (create_row table set_table data c).
Proof.
  intros Hs. apply releases_bind; [apply releases_await_env|]. intros _.
  apply releases_bind; [apply releases_modify; reflexivity|]. intros _.
  apply releases_bind; [intros w; reflexivity|]. intros k.
  apply releases_bind; [apply releases_modify; intros w; apply Hs|]. intros _.
  apply releases_ret.
Qed.

Lemma releases_conn_query {A} (q : Z -> Db -> A * Db) : releases (conn_query q).
Proof.
  apply releases_bind; [apply releases_await_env|]. intros _ w.
  destruct (tx w) as [t|].
  - destruct (q (now w) t). reflexivity.
  - destruct (q (now w) (db w)). reflexivity.
Qed.

Lemma releases_bcrypt_compare_m password hash :
  releases (bcrypt_compare_m password hash).
Proof.
  apply releases_bind; [apply releases_await_env|]. intros _.
  destruct hash; first [apply releases_ret | apply releases_throw].
Qed.

Lemma releases_bcrypt_hash_m password : releases (bcrypt_hash_m password).
Proof.
  apply releases_bind; [apply releases_await_env|]. intros _.
  apply releases_bind; [intros w; reflexivity|]. intros salt. apply releases_ret.
Qed.

Lemma releases_normalize_event_time eventData :
  releases (EventService.normalize_event_time eventData).
Proof.
  unfold EventService.normalize_event_time.
  destruct (truthy (get eventData "event_time")); [|apply releases_ret].
  apply releases_bind.
  - unfold EventService.split_colon_length.
    destruct (get eventData "event_time");
      first [apply releases_ret | apply releases_throw].
  - intros n. destruct (n =? 2)%nat; apply releases_ret.
Qed.

Lemma releases_event_owner_catch {A} wrap e :
  releases (EventService.owner_catch (A := A) wrap e).
Proof.
  unfold EventService.owner_catch.
  destruct (instanceof e ValidationError || instanceof e NotFoundError
            || instanceof e AuthorizationError); apply releases_throw.
Qed.

Lemma releases_blog_owner_catch {A} msg e :
  releases (BlogService.owner_catch (A := A) msg e).
Proof.
  unfold BlogService.owner_catch.
  destruct (instanceof e ValidationError || instanceof e NotFoundError
            || instanceof e AuthorizationError); apply releases_throw.
Qed.

(** A body that looks the row up, checks the owner and makes one
    write. *)
Ltac owner_body :=
  apply releases_bind; [apply releases_findById|];
  intros [row|]; [|apply releases_throw];
  match goal with
  | |- releases (if ?c then _ else _) => destruct c; [apply releases_throw|]
  end;
  try (apply releases_write_row; reflexivity).

Ltac guarded :=
  match goal with
  | |- releases (if ?c then _ else _) => destruct c; [apply releases_throw|]
  end.

(** X20: every method of the event and blog services that takes a
    connection, and [updatePassword], gives it back: however the call
    ends, on whatever world, as many connections are out of the pool
    afterwards as before. *)
Theorem resource_methods_release :
  (forall eventData userId, releases (EventService.createEvent eventData userId)) /\
  (forall id eventData userId, releases (EventService.updateEvent id eventData userId)) /\
  (forall id userId, releases (EventService.deleteEvent id userId)) /\
  (forall id v userId, releases (EventService.updateFeaturedStatus id v userId)) /\
  (forall id v userId, releases (EventService.updateHomeStatus id v userId)) /\
  (forall id v userId, releases (EventService.updateEventStatus id v userId)) /\
  (forall blogData userId, releases (BlogService.createBlog blogData userId)) /\
  (forall id blogData userId, releases (BlogService.updateBlog id blogData userId)) /\
  (forall id v userId, releases (BlogService.updateBlogStatus id v userId)) /\
  (forall id userId, releases (BlogService.deleteBlog id userId)) /\
  (forall id v userId, releases (BlogService.updateFeaturedStatus id v userId)) /\
  (forall token newPassword, releases (updatePassword token newPassword)).
Proof.
  repeat split; intros.
  - unfold EventService.createEvent. guarded.
    apply releases_bind; [apply releases_normalize_event_time|]. intros d.
    apply releases_with_connection, releases_try_catch.
    + apply releases_create_row. reflexivity.
    + intros e. unfold EventService.createEvent_catch.
      destruct (instanceof e ValidationError); apply releases_throw.
  - unfold EventService.updateEvent. guarded.
    apply releases_with_connection, releases_try_catch;
      [|apply releases_event_owner_catch].
    unfold EventService.updateEvent_body. owner_body.
    apply releases_bind; [apply releases_normalize_event_time|]. intros d.
    apply releases_write_row. reflexivity.
  - unfold EventService.deleteEvent. guarded.
    apply releases_with_connection, releases_try_catch;
      [|apply releases_event_owner_catch].
    unfold EventService.deleteEvent_body. owner_body.
  - unfold EventService.updateFeaturedStatus. guarded.
    apply releases_with_connection, releases_try_catch;
      [|apply releases_event_owner_catch].
    unfold EventService.updateFeaturedStatus_body. owner_body.
  - unfold EventService.updateHomeStatus. guarded.
    apply releases_with_connection, releases_try_catch;
      [|apply releases_event_owner_catch].
    unfold EventService.updateHomeStatus_body. owner_body.
  - unfold EventService.updateEventStatus. guarded. guarded.
    apply releases_with_connection, releases_try_catch;
      [|apply releases_event_owner_catch].
    unfold EventService.updateEventStatus_body. owner_body.
  - unfold BlogService.createBlog. guarded.
    apply releases_with_connection, releases_try_catch.
    + apply releases_create_row. reflexivity.
    + intros e. unfold BlogService.createBlog_catch.
      destruct (instanceof e ValidationError); apply releases_throw.
  - unfold BlogService.updateBlog. guarded.
    apply releases_with_connection, releases_try_catch;
      [|apply releases_blog_owner_catch].
    unfold BlogService.updateBlog_body. owner_body.
  - unfold BlogService.updateBlogStatus. guarded.
    apply releases_with_connection, releases_try_catch;
      [|apply releases_blog_owner_catch].
    unfold BlogService.updateBlogStatus_body. owner_body.
  - unfold BlogService.deleteBlog. guarded.
    apply releases_with_connection, releases_try_catch;
      [|apply releases_blog_owner_catch].
    unfold BlogService.deleteBlog_body. owner_body.
  - unfold BlogService.updateFeaturedStatus. guarded.
    apply releases_with_connection, releases_try_catch;
      [|apply releases_blog_owner_catch].
    unfold BlogService.updateFeaturedStatus_body.
    apply releases_bind; [apply releases_findById|].
    intros [row|]; [|apply releases_throw].
    apply releases_bind; [apply releases_conn_query|]. intros userRows.
    cbv zeta. guarded. apply releases_write_row. reflexivity.
  - unfold updatePassword.
    guarded. guarded.
    apply releases_with_connection, releases_try_catch.
    + unfold updatePassword_body.
      apply releases_bind; [apply releases_conn_query|].
      intros [|u0 rest]; [apply releases_throw|].
      apply releases_bind; [apply releases_bcrypt_compare_m|]. intros isMatch.
      guarded.
      apply releases_bind; [apply releases_bcrypt_hash_m|]. intros h.
      apply releases_bind; [apply releases_conn_query|]. intros _.
      apply releases_ret.
    + intros e. unfold updatePassword_catch.
      destruct (instanceof e ValidationError || instanceof e NotFoundError);
        apply releases_throw.
Qed.

(** X21: [register] takes its connection and opens the transaction
    before its inner [try]: when the email is free, the first three
    awaited calls succeed and [beginTransaction] rejects, the caller
    gets DatabaseError, nothing is written, and one more connection is
    out of the pool than before. *)
Theorem register_keeps_connection_when_begin_fails (userData : UserData) (w : World)
    (s1 s2 s3 s4 : Step) (rest : list Step) (msg : string) :
  script w = s1 :: s2 :: s3 :: s4 :: rest ->
  rejects s1 = None -> rejects s2 = None -> rejects s3 = None ->
  rejects s4 = Some msg ->
  users_by_email (email userData) (db w) = [] ->
  fst (register userData w) = Throw (new_error DatabaseError "Failed to register user") /\
  db (snd (register userData w)) = db w /\
  pool_out (snd (register userData w)) = S (pool_out w).
Proof.
  intros Hs H1 H2 H3 H4 Hfree.
  unfold register, register_body. unfold_eff. unfold await_env.
  destruct w as [d t ev bl nid nw sc en po ca]. cbn [script db] in Hs, Hfree.
  subst sc.
  cbn [script db tx events blogs next_id now entropy pool_out calls
       tick set_clock set_db set_tx set_events set_blogs set_next_id set_entropy
       set_pool_out record_call tail].
  rewrite H1, Hfree. cbn [length Nat.ltb Nat.leb].
  cbn [script db tx events blogs next_id now entropy pool_out calls
       tick set_clock set_db set_tx set_events set_blogs set_next_id set_entropy
       set_pool_out record_call tail].
  rewrite H2.
  cbn [script db tx events blogs next_id now entropy pool_out calls
       tick set_clock set_db set_tx set_events set_blogs set_next_id set_entropy
       set_pool_out record_call tail].
  rewrite H3.
  cbn [script db tx events blogs next_id now entropy pool_out calls
       tick set_clock set_db set_tx set_events set_blogs set_next_id set_entropy
       set_pool_out record_call tail].
  rewrite H4.
  unfold register_catch. cbn. auto.
Qed.

End Connections.

Lemma register_keeps_connection_when_begin_fails_witness :
  let w := Demo.demo_world [Demo.ok_step; Demo.ok_step; Demo.ok_step; Demo.bad_step] in
  fst (register (P := Demo.demo) dan w) =
    Throw (new_error DatabaseError "Failed to register user") /\
  db (snd (register (P := Demo.demo) dan w)) = db w /\
  pool_out (snd (register (P := Demo.demo) dan w)) = 1%nat.
Proof.
  exact (register_keeps_connection_when_begin_fails (P := Demo.demo) dan
           (Demo.demo_world [Demo.ok_step; Demo.ok_step; Demo.ok_step; Demo.bad_step])
           Demo.ok_step Demo.ok_step Demo.ok_step Demo.bad_step [] "ECONNRESET"
           eq_refl eq_refl eq_refl eq_refl eq_refl eq_refl).
Defined.

End Connections.

(** ** What the owner may do *)

Module Owners.
Section Owners.
Context `{P : Platform}.

Lemma owner_passes (v userId : JsVal) (u : Z) :
  v = JNum u -> numeral userId u -> strict_neq v (parseInt userId) = false.
Proof.
  intros -> Hu. rewrite (Pagination.parseInt_numeral userId u Hu).
  unfold strict_neq. cbn [strict_eq]. rewrite Z.eqb_refl. reflexivity.
Qed.

(** X22: on a world where no awaited call fails, for an existing event
    or blog whose owner reference is the number the requester's id
    denotes, given as a number or as a decimal numeral, every delete
    and flag mutator, and [updateBlog], goes through: it returns
    [true], makes exactly one model call, with the arguments it was
    given, and gives the connection back. *)
Theorem owner_is_authorised (id userId : JsVal) (w : World) (k u : Z) :
  calm w = true -> truthy id = true -> sql_key id = Some k ->
  numeral userId u ->
  (forall event,
     events w !! k = Some event ->
     get event "created_by" = JNum u ->
     went_through (EventDelete id) w (EventService.deleteEvent id userId w) /\
     (forall v,
        went_through (EventUpdateFeaturedStatus id v) w
                     (EventService.updateFeaturedStatus id v userId w)) /\
     (forall v,
        went_through (EventUpdateHomeStatus id v) w
                     (EventService.updateHomeStatus id v userId w)) /\
     (forall s, In s EventService.event_statuses ->
        went_through (EventUpdateStatus id (JStr s)) w
                     (EventService.updateEventStatus id (JStr s) userId w))) /\
  (forall blog,
     blogs w !! k = Some blog ->
     get blog "author_id" = JNum u ->
     (forall data,
        went_through (BlogUpdate id data) w (BlogService.updateBlog id data userId w)) /\
     went_through (BlogDelete id) w (BlogService.deleteBlog id userId w) /\
     (forall v,
        went_through (BlogUpdateActiveStatus id v) w
                     (BlogService.updateBlogStatus id v userId w)) /\
     (forall v,
        went_through (BlogUpdateFeaturedStatus id v) w
                     (BlogService.updateFeaturedStatus id v userId w))).
Proof.
  intros Hc Hid Hk Hu. split.
  - intros event Hrow Hcb.
    exact (Ownership.event_owner_allowed id userId w k event Hc Hid Hk Hrow
             (owner_passes _ userId u Hcb Hu)).
  - intros blog Hrow Hcb.
    exact (Ownership.blog_owner_allowed id userId w k blog Hc Hid Hk Hrow
             (owner_passes _ userId u Hcb Hu)).
Qed.

End Owners.

Lemma owner_is_authorised_witness :
  went_through (EventDelete (JStr "1")) (Demo.demo_world [])
    (EventService.deleteEvent (P := Demo.demo) (JStr "1") (JStr "7")
       (Demo.demo_world [])) /\
  went_through (BlogDelete (JStr "1")) (Demo.demo_world [])
    (BlogService.deleteBlog (P := Demo.demo) (JStr "1") (JStr "7")
       (Demo.demo_world [])).
Proof.
  destruct (owner_is_authorised (P := Demo.demo) (JStr "1") (JStr "7")
              (Demo.demo_world []) 1 7 eq_refl eq_refl eq_refl (or_intror eq_refl))
    as [He Hb].
  destruct (He Demo.demo_event eq_refl eq_refl) as [H1 _].
  destruct (Hb Demo.demo_blog eq_refl eq_refl) as (_ & H2 & _).
  split; assumption.
Defined.

End Owners.

(** ** Changing a password *)

Module PasswordChange.
Import AuthService.
Section PasswordChange.
Context `{P : Platform}.

Lemma creds_by_user_id_key (userId : JsVal) (k : Z) (d : Db) :
  sql_key userId = Some k -> creds_by_user_id userId d = creds_by_user_key k d.
Proof.
  intros Hk. unfold creds_by_user_id, creds_by_user_key. rewrite Hk.
  induction (auth_credentials d) as [|c l IH]; [reflexivity|].
  cbn [List.filter]. rewrite IH.
  destruct (Z.eqb_spec (c_user_id c) k) as [Heq|Hne].
  - rewrite bool_decide_eq_true_2 by congruence. reflexivity.
  - rewrite bool_decide_eq_false_2 by congruence. reflexivity.
Qed.

Lemma filter_map_commute {A} (p : A -> bool) (f : A -> A) (l : list A) :
  (forall x, p (f x) = p x) ->
  List.filter p (map f l) = map f (List.filter p l).
Proof.
  intros H. induction l as [|x l IH]; [reflexivity|].
  cbn [map List.filter]. rewrite H, IH. destruct (p x); reflexivity.
Qed.

(** The rows of a user after [UPDATE auth_credentials SET password = ?
    WHERE user_id = ?]. *)
Lemma creds_after_set_password (userId : JsVal) (k : Z) (h : string) (d : Db) :
  sql_key userId = Some k ->
  creds_by_user_key k (set_password_by_id userId h d) =
  map (fun c => mkCred (c_id c) (c_user_id c) h (c_reset_token c)
                       (c_reset_token_expires c))
      (creds_by_user_key k d).
Proof.
  intros Hk. unfold creds_by_user_key, set_password_by_id, map_creds.
  cbn [auth_credentials]. rewrite Hk.
  induction (auth_credentials d) as [|c l IH]; [reflexivity|].
  cbn [map List.filter]. rewrite IH.
  destruct (Z.eqb_spec (c_user_id c) k) as [Heq|Hne].
  - rewrite bool_decide_eq_true_2 by congruence. cbn [c_user_id].
    rewrite (proj2 (Z.eqb_eq _ _) Heq). reflexivity.
  - rewrite bool_decide_eq_false_2 by congruence.
    rewrite (proj2 (Z.eqb_neq _ _) Hne). reflexivity.
Qed.

Lemma changePassword_success (userId : JsVal) (current new : string) (w : World)
    c cs :
  calm w = true ->
  creds_by_user_id userId (db w) = c :: cs ->
  bcrypt_compare current (c_password c) = true ->
  exists w1,
    changePassword userId current new w = (Ok true, w1) /\
    calm w1 = true /\
    db w1 = set_password_by_id userId (bcrypt_hash new (hd 0%N (entropy w))) (db w).
Proof.
  intros Hc Hcr Hpw. unfold changePassword, changePassword_body.
  run. rewrite Hcr. run. rewrite Hpw. cbn [negb]. run.
  eexists. split; [reflexivity|]. split; [calm_tac | reflexivity].
Qed.

(** X23: on a world where no awaited call fails, when the requester's
    id denotes the key of the user with the given email and the current
    password is accepted against that user's first credential row,
    [changePassword] returns [true]; [login] with the new password then
    succeeds, provided bcrypt accepts a password against its own hash,
    and [login] with the old one fails with AuthenticationError,
    provided bcrypt does not accept it against the new hash. *)
Theorem changePassword_then_login (userId : JsVal) (mail current new : string)
    (w : World) u us c cs :
  calm w = true ->
  users_by_email mail (db w) = u :: us ->
  sql_key userId = Some (u_id u) ->
  creds_by_user_key (u_id u) (db w) = c :: cs ->
  bcrypt_compare current (c_password c) = true ->
  (forall salt, bcrypt_compare new (bcrypt_hash new salt) = true) ->
  exists w1,
    changePassword userId current new w = (Ok true, w1) /\
    (exists res, fst (login mail new w1) = Ok res) /\
    ((forall salt, bcrypt_compare current (bcrypt_hash new salt) = false) ->
     fst (login mail current w1) =
       Throw (new_error AuthenticationError "Invalid email or password")).
Proof.
  intros Hc Hu Hk Hcr Hpw Hself.
  destruct (changePassword_success userId current new w c cs Hc) as (w1 & E & Hc1 & Hdb);
    [rewrite (creds_by_user_id_key userId (u_id u) (db w) Hk); exact Hcr | exact Hpw |].
  exists w1. split; [exact E|].
  assert (Hu1 : users_by_email mail (db w1) = u :: us) by (rewrite Hdb; exact Hu).
  assert (Hcr1 : creds_by_user_key (u_id u) (db w1) =
                 mkCred (c_id c) (c_user_id c) (bcrypt_hash new (hd 0%N (entropy w)))
                        (c_reset_token c) (c_reset_token_expires c)
                 :: map (fun c => mkCred (c_id c) (c_user_id c)
                                    (bcrypt_hash new (hd 0%N (entropy w)))
                                    (c_reset_token c) (c_reset_token_expires c)) cs).
  { rewrite Hdb, (creds_after_set_password userId (u_id u) _ (db w) Hk), Hcr.
    reflexivity. }
  split.
  - destruct (Sessions.login_success mail new w1 u us _ _ Hc1 Hu1 Hcr1 (Hself _))
      as (res & w2 & t & E2 & _).
    exists res. rewrite E2. reflexivity.
  - intros Hold.
    exact (Credentials.login_wrong_password mail current w1 u us _ _ Hc1 Hu1 Hcr1
             (Hold _)).
Qed.

(** X24: with neither [JWT_SECRET] nor [JWT_REFRESH_SECRET] in the
    environment, both kinds of token are checked against the same
    fallback secret: every token [refreshToken] accepts, [validateToken]
    accepts as an access token. *)
Theorem refresh_token_validates_without_secrets (token : string) (w : World)
    (access : string) (w' : World) :
  env !! "JWT_SECRET" = None ->
  env !! "JWT_REFRESH_SECRET" = None ->
  refreshToken token w = (Ok access, w') ->
  exists decoded, validateToken token w = (Ok decoded, w).
Proof.
  intros H1 H2 E.
  unfold refreshToken, refreshToken_body, refreshToken_catch, try_catch, bind,
    jwt_verify_m, throw in E.
  unfold validateToken, try_catch, jwt_verify_m, env_or in *.
  rewrite H1. rewrite H2 in E.
  destruct (jwt_verify token "1234" (now w)) as [decoded|]; [eauto | discriminate].
Qed.

End PasswordChange.

Lemma changePassword_then_login_witness :
  exists w1,
    changePassword (P := Demo.demo) (JStr "8") "hunter22" "correct horse"
      (Demo.demo_world []) = (Ok true, w1) /\
    (exists res, fst (login (P := Demo.demo) "bob@example.com" "correct horse" w1) =
                 Ok res) /\
    fst (login (P := Demo.demo) "bob@example.com" "hunter22" w1) =
      Throw (new_error AuthenticationError "Invalid email or password").
Proof.
  destruct (changePassword_then_login (P := Demo.demo) (JStr "8") "bob@example.com"
              "hunter22" "correct horse" (Demo.demo_world [])
              Demo.bob [] Demo.bob_cred [] eq_refl eq_refl eq_refl eq_refl eq_refl
              (fun salt => eq_refl))
    as (w1 & E & Hnew & Hold).
  exists w1. split; [exact E|]. split; [exact Hnew|].
  apply Hold. intros salt. reflexivity.
Defined.

Lemma refresh_token_validates_without_secrets_witness :
  let w := set_db (mkDb [mkUser 7 "Alice" "A" "alice@example.com" None "active" "user"
                           None (Some "7") None 0 0] [])
                  (Demo.demo_world []) in
  exists decoded, validateToken (P := signing) "7" w = (Ok decoded, w).
Proof.
  intros w.
  apply (refresh_token_validates_without_secrets (P := signing) "7" w "7" (tick w));
    reflexivity.
Defined.

End PasswordChange.
